(** * Bismut editor integration: the symbol cache and its query layer

    A shallow embedding of [symbolCache.ts] (class [SymbolCache]), of the
    go-to-definition provider of [definition.ts], of the hover provider of
    [hover.ts] as far as it writes to the cache, and of the dot-triggered
    completion of [completion.ts], with the properties the design
    specification states about them.

    Conventions of the embedding:
    - a JavaScript [Map] keeps its keys in insertion order, and [set] on a
      key that is already present keeps the key where it is; it is modelled
      by an association list with exactly that behaviour ([JsMap]);
    - the only character of a string the code inspects is the ASCII full
      stop, so strings are the standard library's;
    - [line], [col] and [span] are JSON integers, modelled in [Z];
    - the providers take as arguments what the editor and the regular
      expressions extract from the document: the word under the cursor
      and the identifier in front of the dot, if any;
    - [analyzeFile] is asynchronous with one suspension point (the
      [await] of the external analyzer).  It is split at that point in two
      synchronous halves, and the event loop is a transition system that
      interleaves them with the other handlers;
    - a lookup [table[key]] on an object literal also finds what the
      literal inherits from [Object.prototype] ([JsObject]);
    - the debounce timers are kept by a scheduler of their own, next to
      the event loop. *)

From Stdlib Require Import String Ascii List ZArith Bool Lia.
Import ListNotations.

Local Open Scope string_scope.
Local Open Scope list_scope.

Set Implicit Arguments.

(* ------------------------------------------------------------------ *)
(** ** JavaScript strings: [includes('.')] and [split('.').pop()] *)

Module JsString.

Definition dot : ascii := "."%char.

(** [s.includes('.')] *)
Fixpoint includes_dot (s : string) : bool :=
  match s with
  | EmptyString => false
  | String c rest => if Ascii.eqb c dot then true else includes_dot rest
  end.

(** [s.split('.')]: the pieces between full stops; never empty. *)
Fixpoint split_dot (s : string) : list string :=
  match s with
  | EmptyString => [EmptyString]
  | String c rest =>
      if Ascii.eqb c dot then EmptyString :: split_dot rest
      else match split_dot rest with
           | [] => [String c EmptyString]
           | piece :: pieces => String c piece :: pieces
           end
  end.

(** [arr.pop()!] on the array [split] returned: its last piece. *)
Definition pop (pieces : list string) : string := last pieces EmptyString.

(** [name.includes('.') ? name.split('.').pop()! : name] *)
Definition simpleNameOf (name : string) : string :=
  if includes_dot name then pop (split_dot name) else name.

(** A JavaScript string is truthy when it is not empty. *)
Definition truthy (s : string) : bool :=
  match s with
  | EmptyString => false
  | String _ _ => true
  end.

(** [a || b] on strings *)
Definition or_else (a b : string) : string := if truthy a then a else b.

End JsString.

(* ------------------------------------------------------------------ *)
(** ** JavaScript [Map<string, V>]: insertion-ordered *)

Module JsMap.
Section Ordered.

Variable V : Type.

Definition t : Type := list (string * V).

Definition empty : t := [].

(** [m.get(k)]: [None] stands for [undefined]. *)
Fixpoint get (k : string) (m : t) : option V :=
  match m with
  | [] => None
  | (k', v) :: rest => if String.eqb k k' then Some v else get k rest
  end.

(** [m.set(k, v)]: an existing key keeps its position, a new key goes
    last. *)
Fixpoint set (k : string) (v : V) (m : t) : t :=
  match m with
  | [] => [(k, v)]
  | (k', v') :: rest =>
      if String.eqb k k' then (k, v) :: rest else (k', v') :: set k v rest
  end.

(** [m.delete(k)] *)
Definition delete (k : string) (m : t) : t :=
  filter (fun kv => negb (String.eqb k (fst kv))) m.

Definition has (k : string) (m : t) : bool :=
  match get k m with
  | Some _ => true
  | None => false
  end.

Definition keys (m : t) : list string := map fst m.

End Ordered.

(** [m.get(k) ?? []] *)
Definition get_or_nil (A : Type) (k : string) (m : t (list A)) : list A :=
  match get k m with
  | Some l => l
  | None => []
  end.

End JsMap.

(* ------------------------------------------------------------------ *)
(** ** Property lookup on an object literal

    [table[key]] finds the properties the literal has and, for any other
    key, the members every object inherits from [Object.prototype]:
    functions, and under [__proto__] the prototype itself.  None of them
    is [null] or [undefined], so [table[key] ?? fallback] keeps them. *)

Module JsObject.

Definition prototypeMembers : list string :=
  ["constructor"; "__defineGetter__"; "__defineSetter__"; "hasOwnProperty";
   "__lookupGetter__"; "__lookupSetter__"; "isPrototypeOf";
   "propertyIsEnumerable"; "toString"; "valueOf"; "__proto__";
   "toLocaleString"].

Inductive Property (V : Type) : Type :=
| Own (v : V)
| Inherited (member : string)
| Undefined.

Arguments Own {V}.
Arguments Inherited {V}.
Arguments Undefined {V}.

(** [table[key]] *)
Definition get (V : Type) (key : string) (table : JsMap.t V) : Property V :=
  match JsMap.get key table with
  | Some v => Own v
  | None =>
      if existsb (String.eqb key) prototypeMembers then Inherited key
      else Undefined
  end.

End JsObject.

(* ------------------------------------------------------------------ *)
(** ** JavaScript [Set<string>] *)

Module JsSet.

Definition t : Type := list string.

Definition empty : t := [].

Definition has (k : string) (s : t) : bool :=
  existsb (String.eqb k) s.

Definition add (k : string) (s : t) : t :=
  if has k s then s else s ++ [k].

Definition delete (k : string) (s : t) : t :=
  filter (fun k' => negb (String.eqb k k')) s.

End JsSet.

(* ------------------------------------------------------------------ *)
(** ** The analyzer's JSON types ([analyzer.ts]) *)

Record BismutDiagnostic : Type := mkDiagnostic {
  d_severity : string;
  d_file : string;
  d_line : Z;
  d_col : Z;
  d_span : Z;
  d_message : string
}.

Record BismutSymbol : Type := mkSymbol {
  name : string;
  kind : string;
  file : string;
  line : Z;
  col : Z;
  doc : string;
  detail : string;
  parent : string
}.

Record AnalysisResult : Type := mkResult {
  success : bool;
  r_file : string;
  error_count : Z;
  warning_count : Z;
  diagnostics : list BismutDiagnostic;
  symbols : list BismutSymbol
}.

(** ** What the editor receives *)

Inductive DiagnosticSeverity : Type :=
| SevError
| SevWarning
| SevInformation.

(** [vscode.Range(startLine, startCharacter, endLine, endCharacter)] *)
Record Range : Type := mkRange {
  startLine : Z;
  startCharacter : Z;
  endLine : Z;
  endCharacter : Z
}.

Record VsDiagnostic : Type := mkVsDiagnostic {
  vs_range : Range;
  vs_message : string;
  vs_severity : DiagnosticSeverity;
  vs_source : string
}.

(** [vscode.Location(uri, Position(line, character))] *)
Record Location : Type := mkLocation {
  loc_uri : string;
  loc_line : Z;
  loc_character : Z
}.

(* ------------------------------------------------------------------ *)
(** ** [class SymbolCache] ([symbolCache.ts]) *)

Definition NameIndex : Type := JsMap.t (list BismutSymbol).

(** The fields of the class that the operations below read or write.
    [diagnosticCollection] is the editor's collection, keyed by the file
    path a [vscode.Uri.file] is made of. *)
Record SymbolCache : Type := mkCache {
  cache : JsMap.t AnalysisResult;
  nameIndex : JsMap.t NameIndex;
  globalSymbols : NameIndex;
  diagnosticCollection : JsMap.t (list VsDiagnostic);
  analyzing : JsSet.t
}.

(** The state the constructor leaves. *)
Definition newSymbolCache : SymbolCache :=
  mkCache [] [] [] [] JsSet.empty.

Module SymbolCacheOps.

(** *** Queries *)

Definition getResult (s : SymbolCache) (filePath : string)
  : option AnalysisResult :=
  JsMap.get filePath (cache s).

Definition getSymbols (s : SymbolCache) (filePath : string)
  : list BismutSymbol :=
  match JsMap.get filePath (cache s) with
  | Some result => symbols result
  | None => []
  end.

Definition findSymbolsByName (s : SymbolCache) (nm : string)
  : list BismutSymbol :=
  JsMap.get_or_nil nm (globalSymbols s).

Definition defKinds : list string :=
  ["function"; "class"; "struct"; "interface"; "enum"; "method"; "field";
   "variable"; "constant"].

Definition isDefKind (sym : BismutSymbol) : bool :=
  existsb (String.eqb (kind sym)) defKinds.

(** The [for] loop of [findDefinition]: the first candidate of a
    definition kind. *)
Fixpoint firstDefinition (candidates : list BismutSymbol)
  : option BismutSymbol :=
  match candidates with
  | [] => None
  | sym :: rest => if isDefKind sym then Some sym else firstDefinition rest
  end.

Definition findDefinition (s : SymbolCache) (nm : string)
  : option BismutSymbol :=
  let candidates := findSymbolsByName s nm in
  match candidates with
  | [] => None
  | first :: _ =>
      match firstDefinition candidates with
      | Some sym => Some sym
      | None => Some first
      end
  end.

Definition findMembers (s : SymbolCache) (typeName : string)
  : list BismutSymbol :=
  fold_left
    (fun results entry =>
       fold_left
         (fun results sym =>
            if String.eqb (parent sym) typeName
            then results ++ [sym] else results)
         (symbols (snd entry)) results)
    (cache s) [].

Definition isVariableLike (sym : BismutSymbol) : bool :=
  String.eqb (kind sym) "variable" || String.eqb (kind sym) "constant"
  || String.eqb (kind sym) "parameter" || String.eqb (kind sym) "field".

(** The [for] loop of [findVariableType]. *)
Fixpoint scanVariableType (syms : list BismutSymbol) (varName : string)
  : option string :=
  match syms with
  | [] => None
  | sym :: rest =>
      if isVariableLike sym then
        let simpleName := JsString.simpleNameOf (name sym) in
        if String.eqb simpleName varName && JsString.truthy (detail sym)
        then Some (detail sym)
        else scanVariableType rest varName
      else scanVariableType rest varName
  end.

Definition findVariableType (s : SymbolCache) (filePath varName : string)
  : option string :=
  match JsMap.get filePath (cache s) with
  | None => None
  | Some result => scanVariableType (symbols result) varName
  end.

(** *** Index construction *)

(** One iteration of the loop of [buildIndex]. *)
Definition indexSymbol (index : NameIndex) (sym : BismutSymbol) : NameIndex :=
  let existing := JsMap.get_or_nil (name sym) index ++ [sym] in
  let index := JsMap.set (name sym) existing index in
  if JsString.includes_dot (name sym) then
    let simple := JsString.pop (JsString.split_dot (name sym)) in
    let simpleList := JsMap.get_or_nil simple index ++ [sym] in
    JsMap.set simple simpleList index
  else index.

(** The per-file index [buildIndex] stores under the file path. *)
Definition fileIndex (result : AnalysisResult) : NameIndex :=
  fold_left indexSymbol (symbols result) [].

(** One iteration of the inner loop of [rebuildGlobalIndex]. *)
Definition mergeEntry (g : NameIndex) (entry : string * list BismutSymbol)
  : NameIndex :=
  let existing := JsMap.get_or_nil (fst entry) g ++ snd entry in
  JsMap.set (fst entry) existing g.

Definition mergeIndex (g : NameIndex) (fileEntry : string * NameIndex)
  : NameIndex :=
  fold_left mergeEntry (snd fileEntry) g.

(** [globalSymbols] after [rebuildGlobalIndex]. *)
Definition rebuiltGlobal (ni : JsMap.t NameIndex) : NameIndex :=
  fold_left mergeIndex ni [].

Definition rebuildGlobalIndex (s : SymbolCache) : SymbolCache :=
  mkCache (cache s) (nameIndex s) (rebuiltGlobal (nameIndex s))
          (diagnosticCollection s) (analyzing s).

Definition buildIndex (s : SymbolCache) (filePath : string)
           (result : AnalysisResult) : SymbolCache :=
  rebuildGlobalIndex
    (mkCache (cache s) (JsMap.set filePath (fileIndex result) (nameIndex s))
             (globalSymbols s) (diagnosticCollection s) (analyzing s)).

(** *** Diagnostics *)

Definition toVsDiagnostic (d : BismutDiagnostic) : VsDiagnostic :=
  let line := Z.max 0 (d_line d - 1) in
  let col := Z.max 0 (d_col d - 1) in
  let span := Z.max 1 (d_span d) in
  let range := mkRange line col line (col + span) in
  let severity :=
    if String.eqb (d_severity d) "error" then SevError
    else if String.eqb (d_severity d) "warning" then SevWarning
    else SevInformation in
  mkVsDiagnostic range (d_message d) severity "bismut".

(** The grouping loop of [publishDiagnostics]. *)
Definition groupDiagnostic (resultFile : string)
           (byFile : JsMap.t (list BismutDiagnostic)) (d : BismutDiagnostic)
  : JsMap.t (list BismutDiagnostic) :=
  let file := JsString.or_else (d_file d) resultFile in
  let list := JsMap.get_or_nil file byFile ++ [d] in
  JsMap.set file list byFile.

Definition publishGroup (dc : JsMap.t (list VsDiagnostic))
           (group : string * list BismutDiagnostic)
  : JsMap.t (list VsDiagnostic) :=
  JsMap.set (fst group) (map toVsDiagnostic (snd group)) dc.

Definition publishDiagnostics (s : SymbolCache) (result : AnalysisResult)
  : SymbolCache :=
  let byFile := fold_left (groupDiagnostic (r_file result))
                          (diagnostics result) [] in
  let cleared := JsMap.delete (r_file result) (diagnosticCollection s) in
  mkCache (cache s) (nameIndex s) (globalSymbols s)
          (fold_left publishGroup byFile cleared) (analyzing s).

(** *** Mutations *)

(** The body of [if (result) { ... }] in [analyzeFile]: what the
    specification calls ingesting a result. *)
Definition ingest (s : SymbolCache) (filePath : string)
           (result : AnalysisResult) : SymbolCache :=
  let s := mkCache (JsMap.set filePath result (cache s)) (nameIndex s)
                   (globalSymbols s) (diagnosticCollection s) (analyzing s) in
  let s := buildIndex s filePath result in
  publishDiagnostics s result.

Definition clearFile (s : SymbolCache) (filePath : string) : SymbolCache :=
  rebuildGlobalIndex
    (mkCache (JsMap.delete filePath (cache s))
             (JsMap.delete filePath (nameIndex s))
             (globalSymbols s) (diagnosticCollection s) (analyzing s)).

Definition clearAll (s : SymbolCache) : SymbolCache :=
  mkCache [] [] [] [] (analyzing s).

(** *** [analyzeFile], split at its [await] *)

(** What the synchronous first half does: either it returns at once
    with the cached result, or it marks the file and calls the
    analyzer. *)
Inductive Entered : Type :=
| ReturnedCached (answer : option AnalysisResult)
| AwaitingAnalyzer (s : SymbolCache).

Definition analyzeFile_enter (s : SymbolCache) (filePath : string) : Entered :=
  if JsSet.has filePath (analyzing s) then
    ReturnedCached (JsMap.get filePath (cache s))
  else
    AwaitingAnalyzer
      (mkCache (cache s) (nameIndex s) (globalSymbols s)
               (diagnosticCollection s) (JsSet.add filePath (analyzing s))).

(** The second half, run when the analyzer's promise resolves with
    [result] ([None] is [null]); the [finally] clause runs last. *)
Definition analyzeFile_resume (s : SymbolCache) (filePath : string)
           (result : option AnalysisResult)
  : SymbolCache * option AnalysisResult :=
  let s := match result with
           | Some r => ingest s filePath r
           | None => s
           end in
  (mkCache (cache s) (nameIndex s) (globalSymbols s)
           (diagnosticCollection s) (JsSet.delete filePath (analyzing s)),
   result).

End SymbolCacheOps.

(* ------------------------------------------------------------------ *)
(** ** Go to definition ([definition.ts]) *)

Module DefinitionProvider.
Import SymbolCacheOps.

(** [`${a}.${b}`] *)
Definition dotted (a b : string) : string :=
  String.append a (String.append "." b).

(** The symbol [provideDefinition] settles on.  [word] is the
    identifier under the cursor and [dotMatch] the identifier the
    regular expression captured right before the dot that precedes
    [word], if there is one. *)
Definition resolveSymbol (s : SymbolCache) (filePath : string)
           (dotMatch : option string) (word : string)
  : option BismutSymbol :=
  let sym :=
    match dotMatch with
    | Some parentName =>
        let sym :=
          match findVariableType s filePath parentName with
          | Some parentType => findDefinition s (dotted parentType word)
          | None => None
          end in
        match sym with
        | Some _ => sym
        | None => findDefinition s (dotted parentName word)
        end
    | None => None
    end in
  match sym with
  | Some _ => sym
  | None => findDefinition s word
  end.

Definition provideDefinition (s : SymbolCache) (filePath : string)
           (dotMatch : option string) (word : string) : option Location :=
  match resolveSymbol s filePath dotMatch word with
  | None => None
  | Some sym =>
      if negb (JsString.truthy (file sym)) || (line sym <=? 0)%Z then None
      else Some (mkLocation (file sym) (line sym - 1)
                            (Z.max 0 (col sym - 1)))
  end.

End DefinitionProvider.

(* ------------------------------------------------------------------ *)
(** ** Hover ([hover.ts])

    [provideHover] looks names up with [findSymbolsByName], which hands
    out the array the global index stores, and [pickBestSymbol] sorts
    that array in place.  So a hover leaves the candidates of the name
    it settled on reordered in the global index, until the index is
    rebuilt. *)

Module HoverProvider.
Import SymbolCacheOps.

Definition priority : JsMap.t Z :=
  [("function", 1%Z); ("class", 2%Z); ("struct", 3%Z); ("interface", 4%Z);
   ("enum", 5%Z); ("method", 6%Z); ("field", 7%Z); ("constant", 8%Z);
   ("variable", 9%Z); ("method_sig", 10%Z); ("enum_variant", 11%Z);
   ("parameter", 12%Z)].

(** [priority[sym.kind] ?? 99]: a number, or for a kind named like a
    member of [Object.prototype] that member ([None]), which is not a
    number. *)
Definition priorityOf (sym : BismutSymbol) : option Z :=
  match JsObject.get (kind sym) priority with
  | JsObject.Own p => Some p
  | JsObject.Inherited _ => None
  | JsObject.Undefined => Some 99%Z
  end.

(** The comparator [(a, b) => (priority[a.kind] ?? 99) - (priority[b.kind]
    ?? 99)] as [sort] reads it: a difference that is not a number counts
    as [+0]. *)
Definition comparePriority (a b : BismutSymbol) : Z :=
  match priorityOf a, priorityOf b with
  | Some pa, Some pb => (pa - pb)%Z
  | _, _ => 0%Z
  end.

(** [Array.prototype.sort] is stable: a symbol goes behind the symbols
    that precede it and do not compare greater.  When every kind has a
    number the comparator is consistent and this is the order the
    language fixes.  With a kind named like a member of
    [Object.prototype] the comparator is not consistent and the language
    leaves the order, a permutation still, to the engine: what is proved
    below of the order is stated for kinds that have a number. *)
Fixpoint insertByPriority (x : BismutSymbol) (sorted : list BismutSymbol)
  : list BismutSymbol :=
  match sorted with
  | [] => [x]
  | y :: rest =>
      if (comparePriority x y <? 0)%Z then x :: y :: rest
      else y :: insertByPriority x rest
  end.

Definition sortByPriority (syms : list BismutSymbol) : list BismutSymbol :=
  fold_left (fun sorted x => insertByPriority x sorted) syms [].

Definition listedUnder (s : SymbolCache) (key : string) : option string :=
  match findSymbolsByName s key with
  | [] => None
  | _ :: _ => Some key
  end.

(** The name whose candidates [provideHover] ends up with, when it finds
    any. *)
Definition hoveredName (s : SymbolCache) (filePath : string)
           (dotMatch : option string) (word : string) : option string :=
  let qualified :=
    match dotMatch with
    | Some parentName =>
        let viaType :=
          match findVariableType s filePath parentName with
          | Some parentType =>
              listedUnder s (DefinitionProvider.dotted parentType word)
          | None => None
          end in
        match viaType with
        | Some key => Some key
        | None => listedUnder s (DefinitionProvider.dotted parentName word)
        end
    | None => None
    end in
  match qualified with
  | Some key => Some key
  | None => listedUnder s word
  end.

(** The symbol the hover shows, and the state the sort leaves. *)
Definition provideHover (s : SymbolCache) (filePath : string)
           (dotMatch : option string) (word : string)
  : SymbolCache * option BismutSymbol :=
  match hoveredName s filePath dotMatch word with
  | None => (s, None)
  | Some key =>
      let sorted := sortByPriority (findSymbolsByName s key) in
      (mkCache (cache s) (nameIndex s)
               (JsMap.set key sorted (globalSymbols s))
               (diagnosticCollection s) (analyzing s),
       hd_error sorted)
  end.

End HoverProvider.

(* ------------------------------------------------------------------ *)
(** ** Closing a document ([extension.ts]) *)

Module Extension.
Import SymbolCacheOps.

(** The handler of [onDidCloseTextDocument]: the diagnostics of the
    document are dropped, then [clearFile] runs. *)
Definition onDidCloseTextDocument (s : SymbolCache) (filePath : string)
  : SymbolCache :=
  clearFile
    (mkCache (cache s) (nameIndex s) (globalSymbols s)
             (JsMap.delete filePath (diagnosticCollection s)) (analyzing s))
    filePath.

End Extension.

(* ------------------------------------------------------------------ *)
(** ** Dot-triggered completion ([completion.ts]) *)

(** [vscode.CompletionItemKind], and what [completionKindMap[kind]]
    yields for a kind named like a member of [Object.prototype]: that
    member, no kind of the editor. *)
Inductive CompletionItemKind : Type :=
| CikFunction | CikClass | CikStruct | CikInterface | CikEnum | CikMethod
| CikField | CikVariable | CikConstant | CikEnumMember
| CikInherited (member : string).

Record CompletionItem : Type := mkItem {
  label : string;
  itemKind : CompletionItemKind;
  itemDetail : option string;
  documentation : option string;
  insertText : option string;
  command : option (string * string)
}.

Module CompletionProvider.
Import SymbolCacheOps.

Definition completionKindMap : JsMap.t CompletionItemKind :=
  [("function", CikFunction); ("class", CikClass); ("struct", CikStruct);
   ("interface", CikInterface); ("enum", CikEnum); ("method", CikMethod);
   ("method_sig", CikMethod); ("field", CikField);
   ("variable", CikVariable); ("constant", CikConstant);
   ("parameter", CikVariable); ("enum_variant", CikEnumMember)].

Definition symbolToCompletionItem (sym : BismutSymbol) : CompletionItem :=
  let simpleName := JsString.simpleNameOf (name sym) in
  let k := match JsObject.get (kind sym) completionKindMap with
           | JsObject.Own k => k
           | JsObject.Inherited member => CikInherited member
           | JsObject.Undefined => CikVariable
           end in
  let documented :=
    JsString.truthy (doc sym) && negb (String.eqb (kind sym) "field")
    && negb (String.eqb (kind sym) "parameter") in
  let callable :=
    String.eqb (kind sym) "function" || String.eqb (kind sym) "method" in
  mkItem simpleName k
         (if JsString.truthy (detail sym) then Some (detail sym) else None)
         (if documented then Some (doc sym) else None)
         (if callable then Some (String.append simpleName "($0)") else None)
         (if callable
          then Some ("editor.action.triggerParameterHints",
                     "Trigger Parameter Hints")
          else None).

Definition notParameter (m : BismutSymbol) : bool :=
  negb (String.eqb (kind m) "parameter").

(** [identMatch] is the identifier the regular expression captured in
    the text before the dot ([None] when it did not match). *)
Definition provideDotCompletion (s : SymbolCache) (filePath : string)
           (identMatch : option string) : list CompletionItem :=
  match identMatch with
  | None => []
  | Some varName =>
      let typeName :=
        match findVariableType s filePath varName with
        | Some t => t
        | None => varName
        end in
      let members := findMembers s typeName in
      match members with
      | [] =>
          let enumMembers := findMembers s varName in
          match enumMembers with
          | [] => []
          | _ :: _ => map symbolToCompletionItem enumMembers
          end
      | _ :: _ =>
          map symbolToCompletionItem (filter notParameter members)
      end
  end.

End CompletionProvider.

(* ------------------------------------------------------------------ *)
(** ** The event loop around [analyzeFile]

    Requests arrive ([Request]); the external analyzer, once started for
    a file, eventually resolves its promise ([Resolve], with [None] for
    [null]); files are closed ([Close]); the user hovers a word
    ([Hover]).  [running] lists the external
    invocations that have been started and have not resolved yet,
    [invocations] every invocation ever started, and [answers] what each
    call of [analyzeFile] returned, oldest first. *)

Inductive Event : Type :=
| Request (filePath : string)
| Resolve (filePath : string) (result : option AnalysisResult)
| Close (filePath : string)
| Hover (filePath : string) (dotMatch : option string) (word : string).

Record World : Type := mkWorld {
  symbolCache : SymbolCache;
  running : list string;
  invocations : list string;
  answers : list (string * option AnalysisResult)
}.

Definition initialWorld : World := mkWorld newSymbolCache [] [] [].

Module EventLoop.
Import SymbolCacheOps.

(** Removes one occurrence: the promise that resolved. *)
Fixpoint removeOne (f : string) (l : list string) : list string :=
  match l with
  | [] => []
  | g :: rest => if String.eqb f g then rest else g :: removeOne f rest
  end.

Definition isRunning (f : string) (w : World) : bool :=
  existsb (String.eqb f) (running w).

Definition step (w : World) (e : Event) : World :=
  match e with
  | Request f =>
      match analyzeFile_enter (symbolCache w) f with
      | ReturnedCached answer =>
          mkWorld (symbolCache w) (running w) (invocations w)
                  (answers w ++ [(f, answer)])
      | AwaitingAnalyzer s' =>
          mkWorld s' (running w ++ [f]) (invocations w ++ [f]) (answers w)
      end
  | Resolve f result =>
      if isRunning f w then
        let (s', answer) := analyzeFile_resume (symbolCache w) f result in
        mkWorld s' (removeOne f (running w)) (invocations w)
                (answers w ++ [(f, answer)])
      else w
  | Close f =>
      mkWorld (Extension.onDidCloseTextDocument (symbolCache w) f)
              (running w) (invocations w) (answers w)
  | Hover f dotMatch word =>
      mkWorld (fst (HoverProvider.provideHover (symbolCache w) f dotMatch word))
              (running w) (invocations w) (answers w)
  end.

Definition run (w : World) (es : list Event) : World := fold_left step es w.

(** How many external invocations for [f] a list holds. *)
Definition countOf (f : string) (l : list string) : nat :=
  length (filter (String.eqb f) l).

Definition resolves (f : string) (e : Event) : bool :=
  match e with
  | Resolve g _ => String.eqb f g
  | _ => false
  end.

End EventLoop.

(* ================================================================== *)
(** * Properties *)

(** ** Simple names *)

Module JsStringFacts.
Import JsString.

Lemma split_dot_nonempty (s : string) : split_dot s <> [].
Proof.
  destruct s as [|c rest]; simpl; [discriminate|].
  destruct (Ascii.eqb c dot); [discriminate|].
  destruct (split_dot rest); discriminate.
Qed.

Lemma split_dot_no_dot (s : string) :
  includes_dot s = false -> split_dot s = [s].
Proof.
  induction s as [|c rest IH]; simpl; [reflexivity|].
  destruct (Ascii.eqb c dot); [discriminate|].
  intros H. rewrite (IH H). reflexivity.
Qed.

Lemma last_cons_nonempty (A : Type) (x d : A) (l : list A) :
  l <> [] -> last (x :: l) d = last l d.
Proof. destruct l; [congruence|reflexivity]. Qed.

Lemma split_dot_two_pieces (s : string) :
  includes_dot s = true ->
  exists piece pieces, split_dot s = piece :: pieces /\ pieces <> [].
Proof.
  induction s as [|c rest IH]; simpl; [discriminate|].
  destruct (Ascii.eqb c dot).
  - intros _. exists EmptyString, (split_dot rest).
    split; [reflexivity|apply split_dot_nonempty].
  - intros H. destruct (IH H) as (piece & pieces & E & N).
    rewrite E. exists (String c piece), pieces. split; [reflexivity|exact N].
Qed.

Lemma pop_split_cons (c : ascii) (s : string) :
  includes_dot s = true ->
  pop (split_dot (String c s)) = pop (split_dot s).
Proof.
  intros H. unfold pop. simpl. destruct (Ascii.eqb c dot).
  - apply last_cons_nonempty, split_dot_nonempty.
  - destruct (split_dot_two_pieces _ H) as (piece & pieces & E & N).
    rewrite E, !last_cons_nonempty by exact N. reflexivity.
Qed.

Lemma includes_dot_after (pre suf : string) :
  includes_dot (String.append pre (String dot suf)) = true.
Proof.
  induction pre as [|c pre IH]; simpl; [reflexivity|].
  destruct (Ascii.eqb c dot); [reflexivity|exact IH].
Qed.

(** The last piece of a split ignores everything up to a full stop. *)
Lemma pop_split_prefix (pre suf : string) :
  pop (split_dot (String.append pre (String dot suf))) = pop (split_dot suf).
Proof.
  induction pre as [|c pre IH].
  - unfold pop. simpl. apply last_cons_nonempty, split_dot_nonempty.
  - change (String.append (String c pre) (String dot suf))
      with (String c (String.append pre (String dot suf))).
    rewrite pop_split_cons by apply includes_dot_after. exact IH.
Qed.

(** The simple name of [pre.suf] is [suf] when [suf] has no full stop:
    the substring after the last one. *)
Lemma simpleNameOf_after_last_dot (pre suf : string) :
  includes_dot suf = false ->
  simpleNameOf (String.append pre (String dot suf)) = suf.
Proof.
  intros H. unfold simpleNameOf.
  rewrite includes_dot_after, pop_split_prefix, (split_dot_no_dot _ H).
  reflexivity.
Qed.

Lemma simpleNameOf_undotted (s : string) :
  includes_dot s = false -> simpleNameOf s = s.
Proof. intros H. unfold simpleNameOf. rewrite H. reflexivity. Qed.

(** Every string with a full stop splits at its last one. *)
Lemma last_dot_decomposition (s : string) :
  includes_dot s = true ->
  exists pre suf,
    s = String.append pre (String dot suf) /\ includes_dot suf = false.
Proof.
  induction s as [|c rest IH]; simpl; [discriminate|].
  intros H. destruct (includes_dot rest) eqn:R.
  - destruct (IH eq_refl) as (pre & suf & -> & Hs).
    exists (String c pre), suf. split; [reflexivity|exact Hs].
  - destruct (Ascii.eqb_spec c dot) as [->|]; [|discriminate].
    exists EmptyString, rest. split; [reflexivity|exact R].
Qed.

(** A simple name never holds a full stop. *)
Lemma simpleNameOf_has_no_dot (s : string) :
  includes_dot (simpleNameOf s) = false.
Proof.
  destruct (includes_dot s) eqn:E.
  - destruct (last_dot_decomposition _ E) as (pre & suf & -> & Hs).
    rewrite (simpleNameOf_after_last_dot _ _ Hs). exact Hs.
  - rewrite (simpleNameOf_undotted _ E). exact E.
Qed.

Lemma pop_split_differs (s : string) :
  includes_dot s = true -> String.eqb s (pop (split_dot s)) = false.
Proof.
  intros H. apply String.eqb_neq. intros E.
  pose proof (simpleNameOf_has_no_dot s) as N.
  unfold simpleNameOf in N. rewrite H, <- E in N. congruence.
Qed.

End JsStringFacts.

(** ** Insertion-ordered maps *)

Module JsMapFacts.
Section Facts.

Variable V : Type.
Implicit Types (m : JsMap.t V) (k : string) (v : V).

Lemma get_set_same k v m : JsMap.get k (JsMap.set k v m) = Some v.
Proof.
  induction m as [|[k' v'] rest IH]; simpl.
  - rewrite String.eqb_refl. reflexivity.
  - destruct (String.eqb k k') eqn:E; simpl; rewrite ?String.eqb_refl, ?E;
      [reflexivity|exact IH].
Qed.

Lemma get_set_other k k' v m :
  String.eqb k k' = false ->
  JsMap.get k' (JsMap.set k v m) = JsMap.get k' m.
Proof.
  intros N. induction m as [|[k0 v0] rest IH]; simpl.
  - rewrite String.eqb_sym, N. reflexivity.
  - destruct (String.eqb k k0) eqn:E; simpl.
    + apply String.eqb_eq in E. subst k0.
      rewrite String.eqb_sym, N. reflexivity.
    + destruct (String.eqb k' k0); [reflexivity|exact IH].
Qed.

Lemma set_set k v v' m :
  JsMap.set k v (JsMap.set k v' m) = JsMap.set k v m.
Proof.
  induction m as [|[k' v0] rest IH]; simpl.
  - rewrite String.eqb_refl. reflexivity.
  - destruct (String.eqb k k') eqn:E; simpl; rewrite ?String.eqb_refl, ?E;
      [reflexivity|rewrite IH; reflexivity].
Qed.

Lemma get_delete_same k m : JsMap.get k (JsMap.delete k m) = None.
Proof.
  induction m as [|[k' v'] rest IH]; simpl; [reflexivity|].
  destruct (String.eqb k k') eqn:E; simpl; rewrite ?E; exact IH.
Qed.

Lemma get_delete_other k k' m :
  String.eqb k k' = false ->
  JsMap.get k' (JsMap.delete k m) = JsMap.get k' m.
Proof.
  intros N. induction m as [|[k0 v0] rest IH]; simpl; [reflexivity|].
  destruct (String.eqb k k0) eqn:E; simpl.
  - apply String.eqb_eq in E. subst k0.
    rewrite String.eqb_sym, N. exact IH.
  - destruct (String.eqb k' k0); [reflexivity|exact IH].
Qed.

Lemma keys_set_in k v m k' :
  In k' (JsMap.keys (JsMap.set k v m)) <-> k' = k \/ In k' (JsMap.keys m).
Proof.
  induction m as [|[k0 v0] rest IH]; simpl.
  - intuition congruence.
  - destruct (String.eqb k k0) eqn:E; simpl.
    + apply String.eqb_eq in E. subst k0. intuition congruence.
    + rewrite IH. intuition congruence.
Qed.

(** [set] never duplicates a key. *)
Lemma set_keeps_keys_distinct k v m :
  NoDup (JsMap.keys m) -> NoDup (JsMap.keys (JsMap.set k v m)).
Proof.
  induction m as [|[k0 v0] rest IH]; simpl; intros H.
  - constructor; [intros []|constructor].
  - inversion H as [|? ? Hn Hr]; subst.
    destruct (String.eqb k k0) eqn:E; simpl.
    + apply String.eqb_eq in E. subst k0. constructor; assumption.
    + constructor; [|exact (IH Hr)].
      rewrite keys_set_in. intros [->|Hin]; [|exact (Hn Hin)].
      rewrite String.eqb_refl in E. discriminate.
Qed.

Lemma get_none_not_key k m :
  JsMap.get k m = None <-> ~ In k (JsMap.keys m).
Proof.
  induction m as [|[k0 v0] rest IH]; simpl; [tauto|].
  destruct (String.eqb_spec k k0) as [->|N].
  - split; [discriminate|intros H; exfalso; apply H; left; reflexivity].
  - rewrite IH. split; [intros H [E|I]; [congruence|exact (H I)]|tauto].
Qed.

End Facts.

Section Mapped.

Variables A B : Type.
Variable g : A -> B.

(** Applying [g] to every value of a map. *)
Definition mapValues (m : JsMap.t A) : JsMap.t B :=
  map (fun e => (fst e, g (snd e))) m.

Lemma mapValues_set k a (m : JsMap.t A) :
  mapValues (JsMap.set k a m) = JsMap.set k (g a) (mapValues m).
Proof.
  induction m as [|[k' a'] rest IH]; simpl; [reflexivity|].
  destruct (String.eqb k k'); simpl; [reflexivity|rewrite IH; reflexivity].
Qed.

Lemma mapValues_delete k (m : JsMap.t A) :
  mapValues (JsMap.delete k m) = JsMap.delete k (mapValues m).
Proof.
  induction m as [|[k' a'] rest IH]; simpl; [reflexivity|].
  destruct (String.eqb k k'); simpl; [exact IH|rewrite IH; reflexivity].
Qed.

End Mapped.

Section Lists.

Variable A : Type.
Implicit Types (m : JsMap.t (list A)) (k : string).

Lemma get_or_nil_set k k' (l : list A) m :
  JsMap.get_or_nil k' (JsMap.set k l m)
  = if String.eqb k k' then l else JsMap.get_or_nil k' m.
Proof.
  unfold JsMap.get_or_nil. destruct (String.eqb k k') eqn:E.
  - apply String.eqb_eq in E. subst. rewrite get_set_same. reflexivity.
  - rewrite get_set_other by exact E. reflexivity.
Qed.

(** What the entries stored under [k] hold, taken together. *)
Definition entriesUnder k m : list A :=
  flat_map (fun e => if String.eqb (fst e) k then snd e else []) m.

Lemma entriesUnder_distinct k m :
  NoDup (JsMap.keys m) -> entriesUnder k m = JsMap.get_or_nil k m.
Proof.
  unfold JsMap.get_or_nil.
  induction m as [|[k0 l0] rest IH]; simpl; intros H; [reflexivity|].
  inversion H as [|? ? Hn Hr]; subst.
  rewrite (String.eqb_sym k0 k).
  destruct (String.eqb_spec k k0) as [->|N].
  - rewrite (IH Hr).
    apply (proj2 (get_none_not_key k0 rest)) in Hn. rewrite Hn.
    apply app_nil_r.
  - exact (IH Hr).
Qed.

End Lists.
End JsMapFacts.

(** ** The per-file index and the global index *)

Module IndexFacts.
Import SymbolCacheOps JsMapFacts.

(** A symbol is listed under its full name and under its simple name. *)
Definition indexedUnder (nm : string) (sym : BismutSymbol) : bool :=
  String.eqb (name sym) nm
  || String.eqb (JsString.simpleNameOf (name sym)) nm.

(** What one file's result lists under [nm], in declaration order. *)
Definition contribution (nm : string) (result : AnalysisResult)
  : list BismutSymbol :=
  filter (indexedUnder nm) (symbols result).

(** The union of the cached results, file by file in the order the
    files entered the cache. *)
Definition unionOfFiles (nm : string) (c : JsMap.t AnalysisResult)
  : list BismutSymbol :=
  flat_map (fun e => contribution nm (snd e)) c.

(** The union of the per-file name indices. *)
Definition unionOfIndices (nm : string) (ni : JsMap.t NameIndex)
  : list BismutSymbol :=
  flat_map (fun fe => JsMap.get_or_nil nm (snd fe)) ni.

(** The per-file indices are the ones [buildIndex] computes from the
    cached results, file for file. *)
Definition coherent (s : SymbolCache) : Prop :=
  nameIndex s = mapValues fileIndex (cache s).

(** *** One file *)

Lemma indexSymbol_lookup (nm : string) (index : NameIndex)
      (sym : BismutSymbol) :
  JsMap.get_or_nil nm (indexSymbol index sym)
  = JsMap.get_or_nil nm index ++ (if indexedUnder nm sym then [sym] else []).
Proof.
  unfold indexSymbol, indexedUnder, JsString.simpleNameOf.
  destruct (JsString.includes_dot (name sym)) eqn:D.
  - rewrite !get_or_nil_set.
    rewrite (JsStringFacts.pop_split_differs _ D).
    destruct (String.eqb_spec (JsString.pop (JsString.split_dot (name sym))) nm)
      as [E|N].
    + subst nm. rewrite (JsStringFacts.pop_split_differs _ D). reflexivity.
    + rewrite orb_false_r.
      destruct (String.eqb_spec (name sym) nm) as [->|];
        [reflexivity|symmetry; apply app_nil_r].
  - rewrite get_or_nil_set, orb_diag.
    destruct (String.eqb_spec (name sym) nm) as [->|];
      [reflexivity|symmetry; apply app_nil_r].
Qed.

Lemma fold_indexSymbol_lookup (nm : string) (syms : list BismutSymbol) :
  forall index,
    JsMap.get_or_nil nm (fold_left indexSymbol syms index)
    = JsMap.get_or_nil nm index ++ filter (indexedUnder nm) syms.
Proof.
  induction syms as [|sym rest IH]; intros index; simpl.
  - symmetry. apply app_nil_r.
  - rewrite IH, indexSymbol_lookup, <- app_assoc.
    destruct (indexedUnder nm sym); reflexivity.
Qed.

(** The entry of a file's index under [nm] is the file's symbols of that
    full or simple name, in declaration order. *)
Lemma fileIndex_lookup (nm : string) (result : AnalysisResult) :
  JsMap.get_or_nil nm (fileIndex result) = contribution nm result.
Proof. unfold fileIndex. rewrite fold_indexSymbol_lookup. reflexivity. Qed.

Lemma indexSymbol_keys_distinct (index : NameIndex) (sym : BismutSymbol) :
  NoDup (JsMap.keys index) -> NoDup (JsMap.keys (indexSymbol index sym)).
Proof.
  intros H. unfold indexSymbol.
  destruct (JsString.includes_dot (name sym));
    repeat apply set_keeps_keys_distinct; exact H.
Qed.

Lemma fileIndex_keys_distinct (result : AnalysisResult) :
  NoDup (JsMap.keys (fileIndex result)).
Proof.
  unfold fileIndex.
  assert (G : forall syms index, NoDup (JsMap.keys index) ->
              NoDup (JsMap.keys (fold_left indexSymbol syms index))).
  { induction syms as [|sym rest IH]; intros index H; simpl; [exact H|].
    apply IH, indexSymbol_keys_distinct, H. }
  apply G. constructor.
Qed.

(** *** All files *)

Lemma mergeEntry_lookup (nm : string) (g : NameIndex)
      (entry : string * list BismutSymbol) :
  JsMap.get_or_nil nm (mergeEntry g entry)
  = JsMap.get_or_nil nm g
    ++ (if String.eqb (fst entry) nm then snd entry else []).
Proof.
  unfold mergeEntry. rewrite get_or_nil_set.
  destruct (String.eqb_spec (fst entry) nm) as [->|N];
    [reflexivity|symmetry; apply app_nil_r].
Qed.

Lemma mergeIndex_lookup (nm : string) (index : NameIndex) :
  forall g,
    JsMap.get_or_nil nm (fold_left mergeEntry index g)
    = JsMap.get_or_nil nm g ++ entriesUnder nm index.
Proof.
  induction index as [|entry rest IH]; intros g; simpl.
  - symmetry. apply app_nil_r.
  - rewrite IH, mergeEntry_lookup, <- app_assoc. reflexivity.
Qed.

Lemma fold_mergeIndex_lookup (nm : string) (ni : JsMap.t NameIndex) :
  forall g,
    JsMap.get_or_nil nm (fold_left mergeIndex ni g)
    = JsMap.get_or_nil nm g
      ++ flat_map (fun fe => entriesUnder nm (snd fe)) ni.
Proof.
  induction ni as [|fe rest IH]; intros g; simpl.
  - symmetry. apply app_nil_r.
  - rewrite IH. unfold mergeIndex at 1.
    rewrite mergeIndex_lookup, <- app_assoc. reflexivity.
Qed.

(** After a rebuild, a name maps to the concatenation of what the
    per-file indices hold for it. *)
Lemma rebuiltGlobal_lookup (nm : string) (ni : JsMap.t NameIndex) :
  Forall (fun fe => NoDup (JsMap.keys (snd fe))) ni ->
  JsMap.get_or_nil nm (rebuiltGlobal ni) = unionOfIndices nm ni.
Proof.
  intros H. unfold rebuiltGlobal, unionOfIndices.
  rewrite fold_mergeIndex_lookup. simpl.
  induction H as [|fe rest Hfe _ IH]; simpl; [reflexivity|].
  rewrite IH, entriesUnder_distinct by exact Hfe. reflexivity.
Qed.

Lemma indices_of_cache_distinct (c : JsMap.t AnalysisResult) :
  Forall (fun fe => NoDup (JsMap.keys (snd fe))) (mapValues fileIndex c).
Proof.
  induction c as [|e rest IH]; simpl; constructor;
    [apply fileIndex_keys_distinct|exact IH].
Qed.

Lemma unionOfIndices_of_cache (nm : string) (c : JsMap.t AnalysisResult) :
  unionOfIndices nm (mapValues fileIndex c) = unionOfFiles nm c.
Proof.
  unfold unionOfIndices, unionOfFiles.
  induction c as [|e rest IH]; simpl; [reflexivity|].
  rewrite IH, fileIndex_lookup. reflexivity.
Qed.

Lemma coherent_rebuilt_lookup (s : SymbolCache) (nm : string) :
  coherent s ->
  findSymbolsByName (rebuildGlobalIndex s) nm = unionOfIndices nm (nameIndex s)
  /\ findSymbolsByName (rebuildGlobalIndex s) nm = unionOfFiles nm (cache s).
Proof.
  unfold coherent, findSymbolsByName. simpl. intros H.
  rewrite rebuiltGlobal_lookup
    by (rewrite H; apply indices_of_cache_distinct).
  split; [reflexivity|]. rewrite H. apply unionOfIndices_of_cache.
Qed.

(** *** The mutations keep the per-file indices coherent *)

Lemma ingest_coherent (s : SymbolCache) (f : string) (r : AnalysisResult) :
  coherent s -> coherent (ingest s f r).
Proof.
  unfold coherent. simpl. intros H. rewrite H, mapValues_set. reflexivity.
Qed.

Lemma clearFile_coherent (s : SymbolCache) (f : string) :
  coherent s -> coherent (clearFile s f).
Proof.
  unfold coherent. simpl. intros H. rewrite H, mapValues_delete. reflexivity.
Qed.

Lemma clearAll_coherent (s : SymbolCache) : coherent (clearAll s).
Proof. reflexivity. Qed.

Lemma newSymbolCache_coherent : coherent newSymbolCache.
Proof. reflexivity. Qed.

End IndexFacts.

(** ** Which names the global index holds *)

Module KeyFacts.
Import SymbolCacheOps JsMapFacts.

Lemma has_set (V : Type) (k k' : string) (v : V) (m : JsMap.t V) :
  JsMap.has k' (JsMap.set k v m) = String.eqb k k' || JsMap.has k' m.
Proof.
  unfold JsMap.has. destruct (String.eqb_spec k k') as [->|N].
  - rewrite get_set_same. reflexivity.
  - rewrite get_set_other by (apply String.eqb_neq; exact N). reflexivity.
Qed.

Lemma has_key (V : Type) (k : string) (m : JsMap.t V) :
  JsMap.has k m = existsb (fun e => String.eqb (fst e) k) m.
Proof.
  unfold JsMap.has. induction m as [|[k0 v0] rest IH]; simpl; [reflexivity|].
  rewrite (String.eqb_sym k0 k).
  destruct (String.eqb k k0); [reflexivity|exact IH].
Qed.

Lemma has_mergeIndex (nm : string) (index : NameIndex) :
  forall g,
    JsMap.has nm (fold_left mergeEntry index g)
    = JsMap.has nm g || JsMap.has nm index.
Proof.
  induction index as [|entry rest IH]; intros g; simpl.
  - rewrite orb_false_r. reflexivity.
  - rewrite IH. unfold mergeEntry. rewrite has_set, (has_key nm (entry :: rest)).
    simpl. rewrite <- (has_key nm rest).
    rewrite (orb_comm (String.eqb (fst entry) nm)), orb_assoc. reflexivity.
Qed.

(** A name is a key of the rebuilt global index exactly when it is a key
    of some file's index. *)
Lemma has_rebuiltGlobal (nm : string) (ni : JsMap.t NameIndex) :
  JsMap.has nm (rebuiltGlobal ni)
  = existsb (fun fe => JsMap.has nm (snd fe)) ni.
Proof.
  unfold rebuiltGlobal.
  assert (G : forall g,
             JsMap.has nm (fold_left mergeIndex ni g)
             = JsMap.has nm g || existsb (fun fe => JsMap.has nm (snd fe)) ni).
  { induction ni as [|fe rest IH]; intros g; simpl.
    - rewrite orb_false_r. reflexivity.
    - rewrite IH. unfold mergeIndex at 1.
      rewrite has_mergeIndex, orb_assoc. reflexivity. }
  rewrite G. reflexivity.
Qed.

End KeyFacts.

(* ================================================================== *)
(** * The index after an ingest and after a removal *)

Module IndexInvariant.
Import SymbolCacheOps JsMapFacts IndexFacts.

(** The entries of a cache other than the one of [filePath]. *)
Definition otherFiles (filePath : string) (c : JsMap.t AnalysisResult)
  : JsMap.t AnalysisResult :=
  filter (fun e => negb (String.eqb filePath (fst e))) c.

(** C1.  Whenever the per-file indices are those of the cached results,
    they still are after an ingest and after a removal, and the global
    index is then exactly their union: a name is a key of the global
    index when it is a key of some file's index, and it maps to the
    concatenation, in cache order, of what each file lists under it.
    After the removal of a file the file is gone from the cache and
    from the per-file indices, every other file keeps its result and
    its index, and the global index is the union over the other files
    of the cache, each contributing what it did before.  Every state
    the event loop reaches meets the premise ([Reachable.run_wellFormed]). *)
Theorem global_index_is_union_of_files
        (s : SymbolCache) (H : coherent s)
        (filePath other nm : string) (result : AnalysisResult) :
  let ingested := ingest s filePath result in
  let cleared := clearFile s filePath in
  (coherent ingested
   /\ JsMap.has nm (globalSymbols ingested)
      = existsb (fun fe => JsMap.has nm (snd fe)) (nameIndex ingested)
   /\ findSymbolsByName ingested nm = unionOfIndices nm (nameIndex ingested)
   /\ findSymbolsByName ingested nm = unionOfFiles nm (cache ingested))
  /\ (coherent cleared
      /\ JsMap.has nm (globalSymbols cleared)
         = existsb (fun fe => JsMap.has nm (snd fe)) (nameIndex cleared)
      /\ findSymbolsByName cleared nm = unionOfIndices nm (nameIndex cleared)
      /\ findSymbolsByName cleared nm = unionOfFiles nm (cache cleared))
  /\ JsMap.get filePath (cache cleared) = None
  /\ JsMap.get filePath (nameIndex cleared) = None
  /\ (String.eqb filePath other = false ->
      JsMap.get other (cache cleared) = JsMap.get other (cache s)
      /\ JsMap.get other (nameIndex cleared) = JsMap.get other (nameIndex s))
  /\ findSymbolsByName cleared nm
     = unionOfFiles nm (otherFiles filePath (cache s)).
Proof.
  intros ingested cleared.
  assert (Hi : coherent ingested) by (apply ingest_coherent, H).
  assert (Hc : coherent cleared) by (apply clearFile_coherent, H).
  split; [|split; [|split; [|split; [|split]]]].
  - split; [exact Hi|]. split; [apply KeyFacts.has_rebuiltGlobal|].
    pose proof (@coherent_rebuilt_lookup
                  (mkCache (cache ingested) (nameIndex ingested)
                           (globalSymbols s) (diagnosticCollection s)
                           (analyzing s)) nm Hi) as L.
    exact L.
  - split; [exact Hc|]. split; [apply KeyFacts.has_rebuiltGlobal|].
    pose proof (@coherent_rebuilt_lookup
                  (mkCache (cache cleared) (nameIndex cleared)
                           (globalSymbols s) (diagnosticCollection s)
                           (analyzing s)) nm Hc) as L.
    exact L.
  - apply get_delete_same.
  - apply get_delete_same.
  - intros N. simpl. rewrite !get_delete_other by exact N.
    split; reflexivity.
  - pose proof (@coherent_rebuilt_lookup
                  (mkCache (cache cleared) (nameIndex cleared)
                           (globalSymbols s) (diagnosticCollection s)
                           (analyzing s)) nm Hc) as [_ L].
    exact L.
Qed.

Definition pointX : BismutSymbol :=
  mkSymbol "Point.x" "field" "/w/a.mut" 2 5 "" "i64" "Point".

Definition localX : BismutSymbol :=
  mkSymbol "x" "variable" "/w/b.mut" 7 1 "" "i64" "".

Definition resultA : AnalysisResult :=
  mkResult true "/w/a.mut" 0 0 [] [pointX].

Definition resultB : AnalysisResult :=
  mkResult true "/w/b.mut" 0 0 [] [localX].

(** Two open files list a symbol under [x]; closing the first leaves
    the one of the second. *)
Lemma global_index_is_union_of_files_witness :
  findSymbolsByName
    (ingest (ingest newSymbolCache "/w/a.mut" resultA) "/w/b.mut" resultB) "x"
  = [pointX; localX]
  /\ findSymbolsByName
       (clearFile
          (ingest (ingest newSymbolCache "/w/a.mut" resultA)
                  "/w/b.mut" resultB) "/w/a.mut") "x"
     = [localX].
Proof.
  pose proof (@global_index_is_union_of_files
                (ingest newSymbolCache "/w/a.mut" resultA) eq_refl
                "/w/b.mut" "/w/a.mut" "x" resultB) as P1.
  pose proof (@global_index_is_union_of_files
                (ingest (ingest newSymbolCache "/w/a.mut" resultA)
                        "/w/b.mut" resultB) eq_refl
                "/w/a.mut" "/w/b.mut" "x" resultA) as P2.
  destruct P1 as [[_ [_ [_ E1]]] _].
  destruct P2 as [_ [_ [_ [_ [_ E2]]]]].
  split; [rewrite E1|rewrite E2]; reflexivity.
Defined.

End IndexInvariant.

(* ================================================================== *)
(** * Replacement and idempotence of ingest *)

Module Replacement.
Import SymbolCacheOps JsMapFacts IndexFacts.

Lemma unionOfFiles_origin (nm : string) (sym : BismutSymbol)
      (c : JsMap.t AnalysisResult) :
  In sym (unionOfFiles nm c) ->
  exists g r, In (g, r) c /\ In sym (symbols r) /\ indexedUnder nm sym = true.
Proof.
  unfold unionOfFiles. rewrite in_flat_map.
  intros ([g r] & Hin & Hsym). unfold contribution in Hsym. simpl in Hsym.
  apply filter_In in Hsym. exists g, r. tauto.
Qed.

Lemma get_of_member (V : Type) (g : string) (r : V) (m : JsMap.t V) :
  NoDup (JsMap.keys m) -> In (g, r) m -> JsMap.get g m = Some r.
Proof.
  induction m as [|[k0 v0] rest IH]; simpl; intros D; [intros []|].
  inversion D as [|? ? Hn Hr]; subst.
  intros [[= -> ->]|Hin].
  - rewrite String.eqb_refl. reflexivity.
  - destruct (String.eqb_spec g k0) as [->|N]; [|exact (IH Hr Hin)].
    exfalso. apply Hn. exact (in_map fst _ _ Hin).
Qed.

(** The three parts of the state the index consists of. *)
Definition sameIndex (s t : SymbolCache) : Prop :=
  cache s = cache t /\ nameIndex s = nameIndex t
  /\ globalSymbols s = globalSymbols t.

Lemma reingest_sameIndex (s : SymbolCache) (f : string)
      (r1 r2 : AnalysisResult) :
  sameIndex (ingest (ingest s f r1) f r2) (ingest s f r2).
Proof.
  unfold sameIndex. simpl. rewrite !set_set. repeat split; reflexivity.
Qed.

(** C2.  Ingesting [R2] for [F] after [R1]: the index is the one a
    direct ingest of [R2] gives, so nothing of [R1] is kept; the index
    of [F] is the one of [R2] and lists under a name the symbols of
    [R2] of that name; the result and the index of every other file [G]
    are what they were; and every symbol the global index then lists
    under a name is a symbol of [R2] or of the result of another
    file. *)
Theorem reingest_replaces_file_contribution
        (s : SymbolCache) (H : coherent s)
        (D : NoDup (JsMap.keys (cache s)))
        (F G nm : string) (R1 R2 : AnalysisResult) (sym : BismutSymbol) :
  let s2 := ingest (ingest s F R1) F R2 in
  sameIndex s2 (ingest s F R2)
  /\ JsMap.get F (cache s2) = Some R2
  /\ JsMap.get F (nameIndex s2) = Some (fileIndex R2)
  /\ JsMap.get_or_nil nm (fileIndex R2) = contribution nm R2
  /\ (String.eqb F G = false ->
      JsMap.get G (cache s2) = JsMap.get G (cache s)
      /\ JsMap.get G (nameIndex s2) = JsMap.get G (nameIndex s))
  /\ findSymbolsByName s2 nm = unionOfFiles nm (cache s2)
  /\ (In sym (findSymbolsByName s2 nm) ->
      In sym (symbols R2)
      \/ exists G' R, String.eqb F G' = false
                      /\ JsMap.get G' (cache s) = Some R
                      /\ In sym (symbols R)).
Proof.
  intros s2.
  assert (C2 : coherent s2) by (apply ingest_coherent, ingest_coherent, H).
  assert (L : findSymbolsByName s2 nm = unionOfFiles nm (cache s2)).
  { exact (proj2 (@coherent_rebuilt_lookup
                    (mkCache (cache s2) (nameIndex s2) (globalSymbols s)
                             (diagnosticCollection s) (analyzing s))
                    nm C2)). }
  split; [apply reingest_sameIndex|].
  split; [apply get_set_same|].
  split; [apply get_set_same|].
  split; [apply fileIndex_lookup|].
  split.
  { intros N. simpl. rewrite !get_set_other by exact N. split; reflexivity. }
  split; [exact L|].
  rewrite L. intros Hin.
  apply unionOfFiles_origin in Hin. destruct Hin as (g & r & Hm & Hs & _).
  assert (D2 : NoDup (JsMap.keys (cache s2)))
    by (simpl; apply set_keeps_keys_distinct, set_keeps_keys_distinct, D).
  pose proof (@get_of_member _ _ _ _ D2 Hm) as Hg. simpl in Hg.
  destruct (String.eqb_spec F g) as [<-|N].
  - rewrite get_set_same in Hg. injection Hg as <-. left. exact Hs.
  - apply String.eqb_neq in N. rewrite !get_set_other in Hg by exact N.
    right. exists g, r. repeat split; assumption.
Qed.

Definition oldOnly : BismutSymbol :=
  mkSymbol "gone" "function" "/w/a.mut" 1 1 "" "()" "".

Definition kept : BismutSymbol :=
  mkSymbol "kept" "function" "/w/a.mut" 3 1 "" "()" "".

Definition firstResult : AnalysisResult :=
  mkResult true "/w/a.mut" 0 0 [] [oldOnly; kept].

Definition secondResult : AnalysisResult :=
  mkResult true "/w/a.mut" 0 0 [] [kept].

(** A re-analysis that no longer reports [gone] removes it from name
    lookup, and the other open file keeps its entry. *)
Lemma reingest_replaces_file_contribution_witness :
  findSymbolsByName
    (ingest (ingest (ingest newSymbolCache "/w/b.mut" IndexInvariant.resultB)
                    "/w/a.mut" firstResult) "/w/a.mut" secondResult) "gone" = []
  /\ JsMap.get "/w/b.mut"
       (nameIndex
          (ingest (ingest (ingest newSymbolCache "/w/b.mut"
                                  IndexInvariant.resultB)
                          "/w/a.mut" firstResult) "/w/a.mut" secondResult))
     = Some (fileIndex IndexInvariant.resultB).
Proof.
  assert (D : NoDup (JsMap.keys
                       (cache (ingest newSymbolCache "/w/b.mut"
                                      IndexInvariant.resultB)))).
  { simpl. constructor; [intros []|constructor]. }
  pose proof (@reingest_replaces_file_contribution
                (ingest newSymbolCache "/w/b.mut" IndexInvariant.resultB)
                eq_refl D "/w/a.mut" "/w/b.mut" "gone" firstResult secondResult oldOnly)
    as (_ & _ & _ & _ & Frame & Lookup & _).
  split.
  - rewrite Lookup. reflexivity.
  - rewrite (proj2 (Frame eq_refl)). reflexivity.
Defined.

(** C3.  Ingesting the same result for the same file twice in a row
    leaves the global index the first ingest built: the same names in
    the same order, each with the same symbols in the same order; the
    cached results and the per-file indices are the same too. *)
Theorem ingest_twice_same_global_index
        (s : SymbolCache) (F : string) (R : AnalysisResult) :
  globalSymbols (ingest (ingest s F R) F R) = globalSymbols (ingest s F R)
  /\ nameIndex (ingest (ingest s F R) F R) = nameIndex (ingest s F R)
  /\ cache (ingest (ingest s F R) F R) = cache (ingest s F R).
Proof.
  destruct (reingest_sameIndex s F R R) as (Hc & Hn & Hg).
  repeat split; assumption.
Qed.

End Replacement.

(* ================================================================== *)
(** * One analysis in flight per file; failed analyses *)

Module EventLoopFacts.
Import SymbolCacheOps EventLoop.

(** The files marked in [analyzing] are the files whose external
    invocation is running, each once. *)
Definition consistent (w : World) : Prop :=
  NoDup (running w)
  /\ forall f, In f (running w) <-> In f (analyzing (symbolCache w)).

Lemma existsb_eqb_In (f : string) (l : list string) :
  existsb (String.eqb f) l = true <-> In f l.
Proof.
  rewrite existsb_exists. split.
  - intros (g & Hin & E). apply String.eqb_eq in E. subst. exact Hin.
  - intros Hin. exists f. split; [exact Hin|apply String.eqb_refl].
Qed.

Lemma consistent_flags (w : World) (f : string) :
  consistent w -> JsSet.has f (analyzing (symbolCache w)) = isRunning f w.
Proof.
  intros [_ E]. unfold JsSet.has, isRunning.
  apply eq_true_iff_eq. rewrite !existsb_eqb_In. symmetry. apply E.
Qed.

Lemma in_removeOne (f g : string) (l : list string) :
  NoDup l -> (In g (removeOne f l) <-> In g l /\ g <> f).
Proof.
  induction l as [|h rest IH]; simpl; intros D; [tauto|].
  inversion D as [|? ? Hn Hr]; subst.
  destruct (String.eqb_spec f h) as [->|N]; simpl.
  - split.
    + intros Hin. split; [right; exact Hin|]. intros ->. exact (Hn Hin).
    + intros [[->|Hin] Hne]; [congruence|exact Hin].
  - rewrite (IH Hr). split.
    + intros [->|[Hin Hne]]; [split; [left; reflexivity|congruence]|].
      split; [right; exact Hin|exact Hne].
    + intros [[->|Hin] Hne]; [left; reflexivity|right; split; assumption].
Qed.

Lemma removeOne_NoDup (f : string) (l : list string) :
  NoDup l -> NoDup (removeOne f l).
Proof.
  induction l as [|h rest IH]; simpl; intros D; [constructor|].
  inversion D as [|? ? Hn Hr]; subst.
  destruct (String.eqb f h); [exact Hr|].
  constructor; [|exact (IH Hr)].
  rewrite (in_removeOne _ _ Hr). tauto.
Qed.

Lemma in_delete (f g : string) (l : JsSet.t) :
  In g (JsSet.delete f l) <-> In g l /\ g <> f.
Proof.
  unfold JsSet.delete. rewrite filter_In, negb_true_iff, String.eqb_neq.
  split; intros [A B]; split; congruence.
Qed.

Lemma step_consistent (w : World) (e : Event) :
  consistent w -> consistent (step w e).
Proof.
  intros C. pose proof C as [D E].
  destruct e as [f|f result|f|f dotMatch word]; simpl.
  - unfold analyzeFile_enter.
    destruct (JsSet.has f (analyzing (symbolCache w))) eqn:A; [exact C|].
    assert (Nin : ~ In f (running w)).
    { rewrite E, <- existsb_eqb_In. unfold JsSet.has in A. congruence. }
    split; simpl.
    + apply NoDup_app; [exact D|constructor; [intros []|constructor]|].
      intros g Hg [<-|[]]. exact (Nin Hg).
    + intros g. unfold JsSet.add. rewrite A, !in_app_iff, E. reflexivity.
  - destruct (isRunning f w) eqn:R; [|exact C].
    unfold analyzeFile_resume. split; simpl.
    + apply removeOne_NoDup, D.
    + intros g. rewrite (in_removeOne _ _ D), in_delete, E.
      destruct result; reflexivity.
  - split; [exact D|exact E].
  - split; [exact D|].
    unfold HoverProvider.provideHover.
    destruct (HoverProvider.hoveredName (symbolCache w) f dotMatch word);
      exact E.
Qed.

Lemma run_consistent (es : list Event) :
  forall w, consistent w -> consistent (run w es).
Proof.
  unfold run. induction es as [|e rest IH]; intros w C; simpl; [exact C|].
  apply IH, step_consistent, C.
Qed.

Lemma initialWorld_consistent : consistent initialWorld.
Proof. split; [constructor|intros f; reflexivity]. Qed.

Lemma countOf_NoDup (f : string) (l : list string) :
  NoDup l -> countOf f l <= 1.
Proof.
  unfold countOf. induction l as [|h rest IH]; simpl; intros D; [lia|].
  inversion D as [|? ? Hn Hr]; subst.
  destruct (String.eqb_spec f h) as [->|N]; [|exact (IH Hr)].
  simpl. assert (Z0 : filter (String.eqb h) rest = []).
  { clear IH D Hr. induction rest as [|k r IHr]; simpl; [reflexivity|].
    destruct (String.eqb_spec h k) as [->|N].
    - exfalso. apply Hn. left. reflexivity.
    - apply IHr. intros Hin. apply Hn. right. exact Hin. }
  rewrite Z0. simpl. lia.
Qed.

Lemma countOf_app (f : string) (l1 l2 : list string) :
  countOf f (l1 ++ l2) = countOf f l1 + countOf f l2.
Proof. unfold countOf. rewrite filter_app, length_app. reflexivity. Qed.

(** While the invocation for [f] has not resolved, [f] stays in flight
    and no further invocation for [f] is started. *)
Lemma step_while_running (w : World) (e : Event) (f : string) :
  consistent w -> isRunning f w = true -> resolves f e = false ->
  isRunning f (step w e) = true
  /\ countOf f (invocations (step w e)) = countOf f (invocations w).
Proof.
  intros C R N. destruct e as [g|g result|g|g dotMatch word]; simpl.
  - unfold analyzeFile_enter.
    destruct (JsSet.has g (analyzing (symbolCache w))) eqn:A; simpl.
    + split; [exact R|reflexivity].
    + split.
      * unfold isRunning in *. simpl. rewrite existsb_app, R. reflexivity.
      * rewrite countOf_app. unfold countOf at 2. simpl.
        destruct (String.eqb_spec f g) as [<-|_]; [|simpl; lia].
        rewrite (consistent_flags f C) in A. congruence.
  - simpl in N. destruct (isRunning g w) eqn:G; [|split; [exact R|reflexivity]].
    unfold analyzeFile_resume. simpl. split; [|reflexivity].
    unfold isRunning in *. simpl.
    apply existsb_eqb_In. apply existsb_eqb_In in R.
    apply (in_removeOne g f (proj1 C)). split; [exact R|].
    intros ->. rewrite String.eqb_refl in N. discriminate.
  - split; [exact R|reflexivity].
  - split; [exact R|reflexivity].
Qed.

Lemma run_while_running (es : list Event) (f : string) :
  forall w,
    consistent w -> isRunning f w = true ->
    existsb (resolves f) es = false ->
    consistent (run w es)
    /\ isRunning f (run w es) = true
    /\ countOf f (invocations (run w es)) = countOf f (invocations w).
Proof.
  unfold run. induction es as [|e rest IH]; intros w C R N; simpl.
  - split; [exact C|split; [exact R|reflexivity]].
  - simpl in N. apply orb_false_iff in N. destruct N as [Ne Nr].
    destruct (@step_while_running w e f C R Ne) as [R' K'].
    destruct (IH (step w e) (@step_consistent w e C) R' Nr) as (C2 & R2 & K2).
    split; [exact C2|split; [exact R2|congruence]].
Qed.

(** What a request for a file in flight does: nothing but answer. *)
Definition coalesced (w : World) (f : string) : World :=
  mkWorld (symbolCache w) (running w) (invocations w)
          (answers w ++ [(f, getResult (symbolCache w) f)]).

(** C4.  In every state the event loop reaches from the initial one, a
    file has at most one external invocation running.  A request for a
    file whose analysis is running starts none and is answered with
    the cached result of that file ([None] when there is none).  When a
    file is not being analyzed, a request for it followed, before its
    invocation resolves, by any other events and a second request for
    it, starts exactly one invocation for it, and the second request
    is answered from the cache. *)
Theorem one_analysis_in_flight_per_file
        (history between : list Event) (f : string) :
  let w := run initialWorld history in
  let w1 := step w (Request f) in
  let w2 := run w1 between in
  countOf f (running w) <= 1
  /\ (isRunning f w = true -> w1 = coalesced w f)
  /\ (isRunning f w = false ->
      existsb (resolves f) between = false ->
      countOf f (running w1) = 1
      /\ step w2 (Request f) = coalesced w2 f
      /\ countOf f (invocations (step w2 (Request f)))
         = S (countOf f (invocations w))).
Proof.
  intros w w1 w2.
  assert (C : consistent w) by (apply run_consistent, initialWorld_consistent).
  assert (Coalesce : forall v, consistent v -> isRunning f v = true ->
                               step v (Request f) = coalesced v f).
  { intros v Cv Rv. simpl. unfold analyzeFile_enter.
    rewrite (consistent_flags f Cv), Rv. reflexivity. }
  split; [apply countOf_NoDup, C|].
  split; [exact (Coalesce w C)|].
  intros R N.
  assert (C1 : consistent w1) by (apply step_consistent, C).
  assert (E1 : w1 = mkWorld
                     (mkCache (cache (symbolCache w))
                              (nameIndex (symbolCache w))
                              (globalSymbols (symbolCache w))
                              (diagnosticCollection (symbolCache w))
                              (JsSet.add f (analyzing (symbolCache w))))
                     (running w ++ [f]) (invocations w ++ [f]) (answers w)).
  { unfold w1. simpl. unfold analyzeFile_enter.
    rewrite (consistent_flags f C), R. reflexivity. }
  assert (R1 : isRunning f w1 = true).
  { rewrite E1. unfold isRunning. simpl.
    rewrite existsb_app. simpl. rewrite String.eqb_refl.
    rewrite orb_true_r. reflexivity. }
  assert (K1 : countOf f (invocations w1) = S (countOf f (invocations w))).
  { rewrite E1. simpl. rewrite countOf_app. unfold countOf at 2. simpl.
    rewrite String.eqb_refl. simpl. lia. }
  destruct (@run_while_running between f w1 C1 R1 N) as (C2 & R2 & K2).
  split.
  { pose proof (countOf_NoDup f (proj1 C1)) as Le.
    assert (0 < countOf f (running w1)); [|lia].
    rewrite E1. simpl. rewrite countOf_app. unfold countOf at 2. simpl.
    rewrite String.eqb_refl. simpl. lia. }
  split; [exact (Coalesce w2 C2 R2)|].
  rewrite (Coalesce w2 C2 R2). unfold coalesced. simpl.
  change (countOf f (invocations (run w1 between))
          = S (countOf f (invocations w))).
  rewrite K2. exact K1.
Qed.

(** Two requests for a file that was never analyzed: one invocation,
    and the second request is answered [None]. *)
Lemma one_analysis_in_flight_per_file_witness :
  invocations (run initialWorld [Request "/w/a.mut"; Request "/w/a.mut"])
  = ["/w/a.mut"]
  /\ answers (run initialWorld [Request "/w/a.mut"; Request "/w/a.mut"])
     = [("/w/a.mut", None)]
  /\ countOf "/w/a.mut"
       (invocations
          (run initialWorld [Request "/w/a.mut"; Request "/w/a.mut"])) = 1.
Proof.
  pose proof (@one_analysis_in_flight_per_file [] [] "/w/a.mut")
    as (_ & _ & P).
  destruct (P eq_refl eq_refl) as (_ & _ & K).
  split; [reflexivity|]. split; [reflexivity|]. exact K.
Defined.

End EventLoopFacts.

(** ** The states the event loop reaches *)

Module Reachable.
Import SymbolCacheOps EventLoop JsMapFacts IndexFacts.

(** A cache whose per-file indices are those of its results, with one
    entry per file. *)
Definition wellFormed (s : SymbolCache) : Prop :=
  coherent s /\ NoDup (JsMap.keys (cache s)).

Lemma keys_delete (V : Type) (k : string) (m : JsMap.t V) :
  JsMap.keys (JsMap.delete k m)
  = filter (fun k' => negb (String.eqb k k')) (JsMap.keys m).
Proof.
  induction m as [|[k0 v0] rest IH]; simpl; [reflexivity|].
  destruct (String.eqb k k0); simpl; [exact IH|rewrite IH; reflexivity].
Qed.

Lemma delete_keeps_keys_distinct (V : Type) (k : string) (m : JsMap.t V) :
  NoDup (JsMap.keys m) -> NoDup (JsMap.keys (JsMap.delete k m)).
Proof. intros D. rewrite keys_delete. apply NoDup_filter, D. Qed.

(** A hover touches the global index only. *)
Lemma provideHover_keeps_files (s : SymbolCache) (filePath : string)
      (dotMatch : option string) (word : string) :
  let s' := fst (HoverProvider.provideHover s filePath dotMatch word) in
  cache s' = cache s /\ nameIndex s' = nameIndex s
  /\ diagnosticCollection s' = diagnosticCollection s
  /\ analyzing s' = analyzing s.
Proof.
  unfold HoverProvider.provideHover.
  destruct (HoverProvider.hoveredName s filePath dotMatch word);
    repeat split.
Qed.

Lemma step_wellFormed (w : World) (e : Event) :
  wellFormed (symbolCache w) -> wellFormed (symbolCache (step w e)).
Proof.
  intros [C D]. destruct e as [f|f result|f|f dotMatch word]; simpl.
  - unfold analyzeFile_enter.
    destruct (JsSet.has f (analyzing (symbolCache w))); split; assumption.
  - destruct (isRunning f w); [|split; assumption].
    destruct result as [r|]; simpl; [|split; assumption].
    split; [exact (ingest_coherent f r C)|].
    apply set_keeps_keys_distinct, D.
  - split; [exact (clearFile_coherent f C)|].
    apply delete_keeps_keys_distinct, D.
  - destruct (provideHover_keeps_files (symbolCache w) f dotMatch word)
      as (Ec & En & _).
    unfold wellFormed, coherent. rewrite Ec, En. split; assumption.
Qed.

(** Every state the event loop reaches from the initial one is well
    formed, whatever was analyzed, closed or hovered. *)
Lemma run_wellFormed (es : list Event) :
  wellFormed (symbolCache (run initialWorld es)).
Proof.
  assert (G : forall w, wellFormed (symbolCache w) ->
                        wellFormed (symbolCache (run w es))).
  { unfold run. induction es as [|e rest IH]; intros w H; simpl; [exact H|].
    apply IH, step_wellFormed, H. }
  apply G. split; [reflexivity|constructor].
Qed.

End Reachable.

Module FailedAnalysis.
Import SymbolCacheOps EventLoop.

(** The cached results, both indices and the published diagnostics. *)
Definition sameData (s t : SymbolCache) : Prop :=
  cache s = cache t /\ nameIndex s = nameIndex t
  /\ globalSymbols s = globalSymbols t
  /\ diagnosticCollection s = diagnosticCollection t.

Lemma sameData_refl (s : SymbolCache) : sameData s s.
Proof. repeat split. Qed.

Lemma sameData_trans (s t u : SymbolCache) :
  sameData s t -> sameData t u -> sameData s u.
Proof.
  intros (A1 & A2 & A3 & A4) (B1 & B2 & B3 & B4).
  repeat split; congruence.
Qed.

(** A request, or an analysis that resolves with [null]. *)
Definition requestOrFailure (e : Event) : bool :=
  match e with
  | Request _ => true
  | Resolve _ None => true
  | Resolve _ (Some _) => false
  | Close _ => false
  | Hover _ _ _ => false
  end.

Lemma step_failure_sameData (w : World) (e : Event) :
  requestOrFailure e = true -> sameData (symbolCache (step w e)) (symbolCache w).
Proof.
  destruct e as [f|f [r|]|f|f dotMatch word]; simpl; try discriminate;
    intros _.
  - unfold analyzeFile_enter.
    destruct (JsSet.has f (analyzing (symbolCache w)));
      simpl; apply sameData_refl || (repeat split).
  - destruct (isRunning f w); simpl; apply sameData_refl || (repeat split).
Qed.

(** C7.  An analysis that resolves with [null] changes nothing in the
    cached results, the per-file indices, the global index and the
    published diagnostics, and it returns [null]; neither does the
    request that started it.  So after any sequence of requests and
    failed analyses these four are what they were. *)
Theorem failed_analysis_leaves_state
        (s : SymbolCache) (w : World) (f : string) (es : list Event) :
  sameData (fst (analyzeFile_resume s f None)) s
  /\ snd (analyzeFile_resume s f None) = None
  /\ match analyzeFile_enter s f with
     | ReturnedCached answer => answer = getResult s f
     | AwaitingAnalyzer s1 =>
         sameData s1 s
         /\ sameData (fst (analyzeFile_resume s1 f None)) s
     end
  /\ sameData (symbolCache (step (step w (Request f)) (Resolve f None)))
              (symbolCache w)
  /\ (forallb requestOrFailure es = true ->
      sameData (symbolCache (run w es)) (symbolCache w)).
Proof.
  split; [repeat split|]. split; [reflexivity|]. split.
  { unfold analyzeFile_enter.
    destruct (JsSet.has f (analyzing s)); [reflexivity|].
    split; repeat split. }
  split.
  { eapply sameData_trans; apply step_failure_sameData; reflexivity. }
  revert w. unfold run.
  induction es as [|e rest IH]; intros w A; simpl; [apply sameData_refl|].
  simpl in A. apply andb_true_iff in A. destruct A as [Ae Ar].
  eapply sameData_trans; [apply (IH _ Ar)|].
  apply step_failure_sameData, Ae.
Qed.

Definition brokenLine : BismutDiagnostic :=
  mkDiagnostic "error" "" 10 1 5 "undefined symbol".

Definition lastGood : AnalysisResult :=
  mkResult false "/w/a.mut" 1 0 [brokenLine] [IndexInvariant.pointX].

(** A file analyzed once with success and then twice without: the
    result, the symbols and the diagnostics of the first analysis are
    still there. *)
Lemma failed_analysis_leaves_state_witness :
  sameData
    (symbolCache
       (run (run initialWorld
                 [Request "/w/a.mut"; Resolve "/w/a.mut" (Some lastGood)])
            [Request "/w/a.mut"; Resolve "/w/a.mut" None;
             Request "/w/a.mut"; Resolve "/w/a.mut" None]))
    (symbolCache
       (run initialWorld
            [Request "/w/a.mut"; Resolve "/w/a.mut" (Some lastGood)]))
  /\ getResult
       (symbolCache
          (run initialWorld
               [Request "/w/a.mut"; Resolve "/w/a.mut" (Some lastGood)]))
       "/w/a.mut" = Some lastGood.
Proof.
  pose proof (@failed_analysis_leaves_state
                newSymbolCache
                (run initialWorld
                     [Request "/w/a.mut"; Resolve "/w/a.mut" (Some lastGood)])
                "/w/a.mut"
                [Request "/w/a.mut"; Resolve "/w/a.mut" None;
                 Request "/w/a.mut"; Resolve "/w/a.mut" None])
    as (_ & _ & _ & _ & P).
  split; [exact (P eq_refl)|reflexivity].
Defined.

End FailedAnalysis.

(* ================================================================== *)
(** * Name queries *)

Module DefinitionLookup.
Import SymbolCacheOps IndexFacts EventLoop.

(** The kinds the specification counts as definitions. *)
Definition definitionKinds : list string :=
  ["function"; "class"; "struct"; "interface"; "enum"; "method"; "field";
   "variable"; "constant"].

(** The contract of [lookupDefinition] in the specification's words:
    the first candidate of a definition kind, else the first candidate,
    else nothing. *)
Definition lookupDefinitionSpec (candidates : list BismutSymbol)
  : option BismutSymbol :=
  match filter isDefKind candidates with
  | d :: _ => Some d
  | [] => hd_error candidates
  end.

Lemma isDefKind_kinds (sym : BismutSymbol) :
  isDefKind sym = true <-> In (kind sym) definitionKinds.
Proof.
  unfold isDefKind, defKinds, definitionKinds. rewrite existsb_exists. split.
  - intros (k & Hin & E). apply String.eqb_eq in E. subst k. exact Hin.
  - intros Hin. exists (kind sym). split; [exact Hin|apply String.eqb_refl].
Qed.

Lemma firstDefinition_filter (candidates : list BismutSymbol) :
  firstDefinition candidates = hd_error (filter isDefKind candidates).
Proof.
  induction candidates as [|c rest IH]; simpl; [reflexivity|].
  destruct (isDefKind c); [reflexivity|exact IH].
Qed.

Lemma findDefinition_spec (s : SymbolCache) (nm : string) :
  findDefinition s nm = lookupDefinitionSpec (findSymbolsByName s nm).
Proof.
  unfold findDefinition, lookupDefinitionSpec.
  rewrite firstDefinition_filter.
  destruct (findSymbolsByName s nm) as [|c rest]; [reflexivity|].
  destruct (filter isDefKind (c :: rest)); reflexivity.
Qed.

Lemma filter_skips_prefix (before after : list BismutSymbol)
      (d : BismutSymbol) :
  (forall b, In b before -> isDefKind b = false) ->
  isDefKind d = true ->
  filter isDefKind (before ++ d :: after) = d :: filter isDefKind after.
Proof.
  intros Hb Hd. induction before as [|b rest IH]; simpl.
  - rewrite Hd. reflexivity.
  - rewrite (Hb b (or_introl eq_refl)). apply IH.
    intros b' Hin. apply Hb. right. exact Hin.
Qed.

Lemma filter_none (candidates : list BismutSymbol) :
  (forall c, In c candidates -> isDefKind c = false) ->
  filter isDefKind candidates = [].
Proof.
  induction candidates as [|c rest IH]; intros H; simpl; [reflexivity|].
  rewrite (H c (or_introl eq_refl)). apply IH.
  intros c' Hin. apply H. right. exact Hin.
Qed.

Definition parameterX : BismutSymbol :=
  mkSymbol "x" "parameter" "/w/a.mut" 1 7 "" "i64" "f".

Definition variableX : BismutSymbol :=
  mkSymbol "x" "variable" "/w/a.mut" 4 5 "" "i64" "".

Definition parameterThenVariable : AnalysisResult :=
  mkResult true "/w/a.mut" 0 0 [] [parameterX; variableX].

Definition variableArea : BismutSymbol :=
  mkSymbol "area" "variable" "/w/a.mut" 3 1 "" "f64" "".

Definition methodArea : BismutSymbol :=
  mkSymbol "Circle.area" "method" "/w/a.mut" 9 3 "" "() -> f64" "Circle".

(** A variable [area] declared before a method [Circle.area]: both are
    candidates of the name [area], the variable first. *)
Definition areaFile : AnalysisResult :=
  mkResult true "/w/a.mut" 0 0 [] [variableArea; methodArea].

(** The file is analysed, then the word [area] is hovered. *)
Definition analysedThenHovered : list Event :=
  [Request "/w/a.mut"; Resolve "/w/a.mut" (Some areaFile);
   Hover "/w/a.mut" None "area"].

(** C5.  [findDefinition] answers from the candidates the global index
    stores under the name, in the order it stores them: none gives
    [null]; otherwise the first candidate whose kind is function, class,
    struct, interface, enum, method, field, variable or constant; when
    no candidate has such a kind, the first candidate.  For the
    candidates [parameter x; variable x] the answer is the variable.
    Right after an ingest the stored order is the order of discovery:
    file by file in cache order, and within a file in declaration order.
    It does not stay so: a hover sorts, in place, the array the index
    stores under the hovered name.  Once the file with the variable
    [area] and the method [Circle.area] is analysed and [area] is
    hovered, the index lists the method first and [findDefinition]
    answers with the method, where the first candidate of a definition
    kind in discovery order is the variable; before the hover the answer
    is the variable. *)
Theorem findDefinition_follows_stored_order
        (s : SymbolCache) (nm : string) :
  let candidates := findSymbolsByName s nm in
  let analysed :=
    symbolCache (run initialWorld [Request "/w/a.mut";
                                   Resolve "/w/a.mut" (Some areaFile)]) in
  let hovered := symbolCache (run initialWorld analysedThenHovered) in
  findDefinition s nm = lookupDefinitionSpec candidates
  /\ (candidates = [] -> findDefinition s nm = None)
  /\ (forall before d after,
        candidates = before ++ d :: after ->
        (forall b, In b before -> ~ In (kind b) definitionKinds) ->
        In (kind d) definitionKinds ->
        findDefinition s nm = Some d)
  /\ (forall c rest,
        candidates = c :: rest ->
        (forall b, In b candidates -> ~ In (kind b) definitionKinds) ->
        findDefinition s nm = Some c)
  /\ (forall filePath result,
        coherent s ->
        findDefinition (ingest s filePath result) nm
        = lookupDefinitionSpec
            (unionOfFiles nm (cache (ingest s filePath result))))
  /\ findDefinition (ingest newSymbolCache "/w/a.mut" parameterThenVariable)
                    "x" = Some variableX
  /\ (findSymbolsByName analysed "area" = [variableArea; methodArea]
      /\ findDefinition analysed "area" = Some variableArea)
  /\ (unionOfFiles "area" (cache hovered) = [variableArea; methodArea]
      /\ findSymbolsByName hovered "area" = [methodArea; variableArea]
      /\ findDefinition hovered "area" = Some methodArea
      /\ lookupDefinitionSpec (unionOfFiles "area" (cache hovered))
         = Some variableArea
      /\ findDefinition hovered "area"
         <> lookupDefinitionSpec (unionOfFiles "area" (cache hovered))).
Proof.
  intros candidates analysed hovered.
  pose proof (findDefinition_spec s nm) as E.
  fold candidates in E.
  assert (NotDef : forall l : list BismutSymbol,
             (forall b, In b l -> ~ In (kind b) definitionKinds) ->
             forall b, In b l -> isDefKind b = false).
  { intros l H b Hin. apply not_true_is_false.
    rewrite isDefKind_kinds. exact (H b Hin). }
  split; [exact E|]. split.
  { intros Hc. rewrite E, Hc. reflexivity. }
  split.
  { intros before d after Hc Hb Hd. rewrite E, Hc.
    unfold lookupDefinitionSpec.
    rewrite (filter_skips_prefix before after d (NotDef _ Hb)
                                 (proj2 (isDefKind_kinds d) Hd)).
    reflexivity. }
  split.
  { intros c rest Hc Hn. rewrite E. unfold lookupDefinitionSpec.
    rewrite (filter_none candidates (NotDef _ Hn)), Hc. reflexivity. }
  split.
  { intros filePath result H. rewrite findDefinition_spec.
    pose proof (@coherent_rebuilt_lookup
                  (mkCache (cache (ingest s filePath result))
                           (nameIndex (ingest s filePath result))
                           (globalSymbols s) (diagnosticCollection s)
                           (analyzing s))
                  nm (ingest_coherent filePath result H)) as [_ L].
    f_equal. exact L. }
  split; [reflexivity|]. split; [split; reflexivity|].
  assert (Stored : findDefinition hovered "area" = Some methodArea)
    by reflexivity.
  assert (Discovery : lookupDefinitionSpec
                        (unionOfFiles "area" (cache hovered))
                      = Some variableArea) by reflexivity.
  split; [reflexivity|]. split; [reflexivity|]. split; [exact Stored|].
  split; [exact Discovery|]. rewrite Stored, Discovery. discriminate.
Qed.

End DefinitionLookup.

Module VariableType.
Import SymbolCacheOps.

Definition variableLikeKinds : list string :=
  ["variable"; "constant"; "parameter"; "field"].

(** A symbol that declares [varName] with a type: of a variable-like
    kind, with that simple name and a detail that is not empty. *)
Definition declaresTyped (varName : string) (sym : BismutSymbol) : bool :=
  existsb (String.eqb (kind sym)) variableLikeKinds
  && String.eqb (JsString.simpleNameOf (name sym)) varName
  && negb (String.eqb (detail sym) "").

Lemma truthy_not_empty (s : string) :
  JsString.truthy s = negb (String.eqb s "").
Proof. destruct s; reflexivity. Qed.

Lemma isVariableLike_kinds (sym : BismutSymbol) :
  isVariableLike sym = existsb (String.eqb (kind sym)) variableLikeKinds.
Proof.
  unfold isVariableLike, variableLikeKinds. simpl.
  rewrite orb_false_r, !orb_assoc. reflexivity.
Qed.

Lemma scanVariableType_first (syms : list BismutSymbol) (varName : string) :
  scanVariableType syms varName
  = hd_error (map detail (filter (declaresTyped varName) syms)).
Proof.
  induction syms as [|sym rest IH]; simpl; [reflexivity|].
  unfold declaresTyped at 1.
  rewrite <- isVariableLike_kinds, <- truthy_not_empty.
  destruct (isVariableLike sym); simpl; [|exact IH].
  destruct (String.eqb (JsString.simpleNameOf (name sym)) varName); simpl;
    [|exact IH].
  destruct (JsString.truthy (detail sym)); simpl; [reflexivity|exact IH].
Qed.

Definition outerX : BismutSymbol :=
  mkSymbol "x" "variable" "/w/a.mut" 1 1 "" "i64" "".

Definition innerX : BismutSymbol :=
  mkSymbol "f.x" "parameter" "/w/a.mut" 5 7 "" "str" "f".

Definition untypedX : BismutSymbol :=
  mkSymbol "x" "constant" "/w/a.mut" 1 1 "" "" "".

Definition fileWith (syms : list BismutSymbol) : SymbolCache :=
  ingest newSymbolCache "/w/a.mut" (mkResult true "/w/a.mut" 0 0 [] syms).

(** C9.  [findVariableType] returns the detail of the first symbol, in
    the order of the file's symbol sequence, that is a variable, a
    constant, a parameter or a field, whose simple name is the queried
    name and whose detail is not empty, and [null] when the file has no
    such symbol.  The simple name of a name with a full stop is what
    follows its last full stop, and of any other name the name itself.
    Nothing but the order of the sequence decides: of two declarations
    of the same name the earlier one wins, whatever their scopes. *)
Theorem findVariableType_first_typed_declaration
        (s : SymbolCache) (filePath varName : string) :
  findVariableType s filePath varName
  = hd_error (map detail (filter (declaresTyped varName)
                                 (getSymbols s filePath)))
  /\ (forall pre suf,
        JsString.includes_dot suf = false ->
        JsString.simpleNameOf (String.append pre (String.append "." suf))
        = suf)
  /\ (forall nm,
        JsString.includes_dot nm = false -> JsString.simpleNameOf nm = nm)
  /\ findVariableType (fileWith [outerX; innerX]) "/w/a.mut" "x" = Some "i64"
  /\ findVariableType (fileWith [innerX; outerX]) "/w/a.mut" "x" = Some "str"
  /\ findVariableType (fileWith [untypedX; innerX]) "/w/a.mut" "x"
     = Some "str"
  /\ findVariableType (fileWith [untypedX]) "/w/a.mut" "x" = None
  /\ findVariableType (fileWith [outerX]) "/w/b.mut" "x" = None.
Proof.
  split.
  { unfold findVariableType, getSymbols.
    destruct (JsMap.get filePath (cache s)) as [result|]; [|reflexivity].
    apply scanVariableType_first. }
  split; [exact JsStringFacts.simpleNameOf_after_last_dot|].
  split; [exact JsStringFacts.simpleNameOf_undotted|].
  repeat split.
Qed.

End VariableType.

(* ================================================================== *)
(** * Dotted access in go-to-definition *)

Module DottedResolution.
Import SymbolCacheOps DefinitionProvider.

(** Step 1: the member of the declared type of the identifier. *)
Definition viaDeclaredType (s : SymbolCache) (filePath identifier word : string)
  : option BismutSymbol :=
  match findVariableType s filePath identifier with
  | Some T => findDefinition s (String.append T (String.append "." word))
  | None => None
  end.

Definition variableP : BismutSymbol :=
  mkSymbol "p" "variable" "/w/a.mut" 8 1 "" "Point" "".

Definition fieldPointX : BismutSymbol :=
  mkSymbol "Point.x" "field" "/w/a.mut" 2 5 "" "i64" "Point".

(** A variable [x] of its own, declared first, and a constant [x] of a
    module that is itself named [p]. *)
Definition bareX : BismutSymbol :=
  mkSymbol "x" "variable" "/w/a.mut" 1 1 "" "i64" "".

Definition moduleX : BismutSymbol :=
  mkSymbol "p.x" "constant" "/w/a.mut" 12 1 "" "i64" "p".

Definition fileOf (syms : list BismutSymbol) : SymbolCache :=
  ingest newSymbolCache "/w/a.mut" (mkResult true "/w/a.mut" 0 0 [] syms).

Definition pointFile : SymbolCache := fileOf [variableP; fieldPointX].

(** Each of the three steps finds a symbol, and each another one. *)
Definition threeWays : SymbolCache :=
  fileOf [bareX; variableP; fieldPointX; moduleX].

(** C6.  For a dotted access [identifier.word], [provideDefinition]
    settles on the first of these that finds a symbol: the definition of
    [T.word], where [T] is what [findVariableType] gives for the
    identifier in the current file; the definition of
    [identifier.word]; the definition of [word].  With a variable [p] of
    detail [Point] and a field [Point.x], resolving [p.x] gives the
    field, also when a symbol [p.x] and a symbol [x] are there to be
    found by the later steps.  When [p] has no declared type in the
    current file, or its type has no member [x], the symbol [p.x] is the
    answer; when that is missing too, the symbol [x]. *)
Theorem dotted_access_resolution_order
        (s : SymbolCache) (filePath identifier word : string) :
  let qualifiedBy := fun owner => String.append owner (String.append "." word) in
  let resolved := resolveSymbol s filePath (Some identifier) word in
  let noMemberOfType :=
    forall T, findVariableType s filePath identifier = Some T ->
              findDefinition s (qualifiedBy T) = None in
  (forall T sym,
     findVariableType s filePath identifier = Some T ->
     findDefinition s (qualifiedBy T) = Some sym ->
     resolved = Some sym)
  /\ (forall sym,
        noMemberOfType ->
        findDefinition s (qualifiedBy identifier) = Some sym ->
        resolved = Some sym)
  /\ (noMemberOfType ->
      findDefinition s (qualifiedBy identifier) = None ->
      resolved = findDefinition s word)
  /\ (resolveSymbol pointFile "/w/a.mut" (Some "p") "x" = Some fieldPointX
      /\ provideDefinition pointFile "/w/a.mut" (Some "p") "x"
         = Some (mkLocation "/w/a.mut" 1 4))
  /\ (findVariableType threeWays "/w/a.mut" "p" = Some "Point"
      /\ findDefinition threeWays "Point.x" = Some fieldPointX
      /\ findDefinition threeWays "p.x" = Some moduleX
      /\ findDefinition threeWays "x" = Some bareX
      /\ resolveSymbol threeWays "/w/a.mut" (Some "p") "x" = Some fieldPointX
      /\ provideDefinition threeWays "/w/a.mut" (Some "p") "x"
         = Some (mkLocation "/w/a.mut" 1 4))
  /\ resolveSymbol (fileOf [bareX; variableP; moduleX])
                   "/w/a.mut" (Some "p") "x" = Some moduleX
  /\ resolveSymbol (fileOf [bareX; fieldPointX; moduleX])
                   "/w/a.mut" (Some "p") "x" = Some moduleX
  /\ resolveSymbol threeWays "/w/b.mut" (Some "p") "x" = Some moduleX
  /\ resolveSymbol (fileOf [bareX; variableP])
                   "/w/a.mut" (Some "p") "x" = Some bareX.
Proof.
  intros qualifiedBy resolved noMemberOfType.
  unfold noMemberOfType, resolved, resolveSymbol, qualifiedBy, dotted.
  split.
  { intros T sym V D. rewrite V, D. reflexivity. }
  split.
  { intros sym N D.
    destruct (findVariableType s filePath identifier) as [T|].
    - rewrite (N T eq_refl), D. reflexivity.
    - rewrite D. reflexivity. }
  split.
  { intros N D.
    destruct (findVariableType s filePath identifier) as [T|].
    - rewrite (N T eq_refl), D. reflexivity.
    - rewrite D. reflexivity. }
  split; [split; reflexivity|].
  split; [repeat split|]. repeat split.
Qed.

(** The identifier has a declared type with that member: the member is
    the answer, whatever the later steps would find. *)
Lemma dotted_access_resolution_order_witness :
  resolveSymbol threeWays "/w/a.mut" (Some "p") "x" = Some fieldPointX.
Proof.
  pose proof (@dotted_access_resolution_order
                threeWays "/w/a.mut" "p" "x") as (P & _).
  exact (P "Point" fieldPointX eq_refl eq_refl).
Defined.

End DottedResolution.

(* ================================================================== *)
(** * Diagnostics for display *)

Module DiagnosticConversion.
Import SymbolCacheOps.

Local Open Scope Z_scope.

Definition width (r : Range) : Z := endCharacter r - startCharacter r.

(** C8.  [toVsDiagnostic] places a diagnostic on one line: line and
    column are the diagnostic's minus one, and zero when that is
    negative; the range covers [max 1 span] characters.  The diagnostic
    at line 5, column 3 with span 4 gets the range from (4, 2) to
    (4, 6). *)
Theorem toVsDiagnostic_range (d : BismutDiagnostic) :
  let r := vs_range (toVsDiagnostic d) in
  startLine r = Z.max 0 (d_line d - 1)
  /\ startCharacter r = Z.max 0 (d_col d - 1)
  /\ endLine r = startLine r
  /\ width r = Z.max 1 (d_span d)
  /\ (1 <= d_line d -> startLine r = d_line d - 1)
  /\ (d_line d - 1 < 0 -> startLine r = 0)
  /\ (1 <= d_col d -> startCharacter r = d_col d - 1)
  /\ (d_col d - 1 < 0 -> startCharacter r = 0)
  /\ (1 <= d_span d -> width r = d_span d)
  /\ (d_span d < 1 -> width r = 1)
  /\ 0 <= startLine r /\ 0 <= startCharacter r /\ 1 <= width r
  /\ vs_range (toVsDiagnostic (mkDiagnostic "error" "" 5 3 4 "m"))
     = mkRange 4 2 4 6.
Proof.
  unfold width. simpl. repeat split; try lia.
Qed.

(** A diagnostic the analyzer could not place: line 0, column 0, no
    span.  It is shown at the start of the first line, one character
    wide. *)
Lemma toVsDiagnostic_range_witness :
  startLine (vs_range (toVsDiagnostic (mkDiagnostic "note" "" 0 0 0 "m"))) = 0
  /\ startCharacter
       (vs_range (toVsDiagnostic (mkDiagnostic "note" "" 0 0 0 "m"))) = 0
  /\ width (vs_range (toVsDiagnostic (mkDiagnostic "note" "" 0 0 0 "m"))) = 1.
Proof.
  pose proof (toVsDiagnostic_range (mkDiagnostic "note" "" 0 0 0 "m"))
    as (_ & _ & _ & _ & _ & L & _ & C & _ & W & _).
  split; [apply L; simpl; lia|].
  split; [apply C; simpl; lia|apply W; simpl; lia].
Defined.

End DiagnosticConversion.

(* ================================================================== *)
(** * Dot-triggered completion *)

Module DotCompletion.
Import SymbolCacheOps CompletionProvider.

Definition memberOf (typeName : string) (sym : BismutSymbol) : bool :=
  String.eqb (parent sym) typeName.

Lemma members_of_result (typeName : string) (syms : list BismutSymbol) :
  forall results,
    fold_left
      (fun results sym =>
         if String.eqb (parent sym) typeName
         then results ++ [sym] else results)
      syms results
    = results ++ filter (memberOf typeName) syms.
Proof.
  induction syms as [|sym rest IH]; intros results; simpl.
  - symmetry. apply app_nil_r.
  - rewrite IH. unfold memberOf at 2.
    destruct (String.eqb (parent sym) typeName);
      [rewrite <- app_assoc|]; reflexivity.
Qed.

(** The members of a type: file by file in cache order, and within a
    file in declaration order. *)
Lemma findMembers_filter (s : SymbolCache) (typeName : string) :
  findMembers s typeName
  = flat_map (fun e => filter (memberOf typeName) (symbols (snd e)))
             (cache s).
Proof.
  unfold findMembers.
  assert (G : forall c results,
             fold_left
               (fun results (entry : string * AnalysisResult) =>
                  fold_left
                    (fun results sym =>
                       if String.eqb (parent sym) typeName
                       then results ++ [sym] else results)
                    (symbols (snd entry)) results)
               c results
             = results
               ++ flat_map
                    (fun e => filter (memberOf typeName) (symbols (snd e)))
                    c).
  { induction c as [|e rest IH]; intros results; simpl.
    - symmetry. apply app_nil_r.
    - rewrite IH, members_of_result, <- app_assoc. reflexivity. }
  apply G.
Qed.

(** The type the completion enumerates the members of. *)
Definition receiverType (s : SymbolCache) (filePath varName : string)
  : string :=
  match findVariableType s filePath varName with
  | Some t => t
  | None => varName
  end.

Definition isParameter (m : BismutSymbol) : bool :=
  String.eqb (kind m) "parameter".

Definition variantUp : BismutSymbol :=
  mkSymbol "Dir.Up" "enum_variant" "/w/a.mut" 2 3 "" "" "Dir".

Definition parameterOfDir : BismutSymbol :=
  mkSymbol "Dir.step" "parameter" "/w/a.mut" 4 9 "" "i64" "Dir".

Definition variableDir : BismutSymbol :=
  mkSymbol "Dir" "variable" "/w/a.mut" 7 1 "" "Heading" "".

Definition methodTurn : BismutSymbol :=
  mkSymbol "Heading.turn" "method" "/w/a.mut" 9 3 "" "()" "Heading".

Definition parameterOfHeading : BismutSymbol :=
  mkSymbol "Heading.by" "parameter" "/w/a.mut" 9 12 "" "i64" "Heading".

Definition opened (syms : list BismutSymbol) : SymbolCache :=
  ingest newSymbolCache "/w/a.mut" (mkResult true "/w/a.mut" 0 0 [] syms).

(** C10.  When the receiver's type has members, dot completion offers
    them all but those of kind [parameter], so nothing when they are
    all parameters.  When it has none, it offers every member of the
    receiver identifier taken as a type name, parameters included. *)
Theorem dot_completion_parameter_filter
        (s : SymbolCache) (filePath varName : string) :
  let members := findMembers s (receiverType s filePath varName) in
  (members <> [] ->
   provideDotCompletion s filePath (Some varName)
   = map symbolToCompletionItem
         (filter (fun m => negb (isParameter m)) members))
  /\ (members <> [] -> forallb isParameter members = true ->
      provideDotCompletion s filePath (Some varName) = [])
  /\ (members = [] ->
      provideDotCompletion s filePath (Some varName)
      = map symbolToCompletionItem (findMembers s varName))
  /\ provideDotCompletion
       (opened [variableDir; methodTurn; parameterOfHeading; variantUp])
       "/w/a.mut" (Some "Dir")
     = [symbolToCompletionItem methodTurn]
  /\ provideDotCompletion
       (opened [variableDir; parameterOfHeading; variantUp])
       "/w/a.mut" (Some "Dir")
     = []
  /\ provideDotCompletion
       (opened [variableDir; variantUp; parameterOfDir])
       "/w/a.mut" (Some "Dir")
     = [symbolToCompletionItem variantUp;
        symbolToCompletionItem parameterOfDir].
Proof.
  intros members.
  assert (E : members <> [] ->
              provideDotCompletion s filePath (Some varName)
              = map symbolToCompletionItem
                    (filter (fun m => negb (isParameter m)) members)).
  { unfold provideDotCompletion, members, receiverType.
    destruct (findMembers s
                match findVariableType s filePath varName with
                | Some t => t
                | None => varName
                end) as [|m rest]; [congruence|reflexivity]. }
  split; [exact E|]. split.
  { intros N A. rewrite (E N). clear E N.
    induction members as [|m rest IH]; simpl; [reflexivity|].
    simpl in A. apply andb_true_iff in A. destruct A as [Am Ar].
    rewrite Am. simpl. exact (IH Ar). }
  split.
  { unfold provideDotCompletion, members, receiverType. intros Z.
    rewrite Z. destruct (findMembers s varName); reflexivity. }
  repeat split.
Qed.

(** The completion after [Dir.] in a file that declares a variable
    [Dir] of a type without members: the variants of the enum [Dir]. *)
Lemma dot_completion_parameter_filter_witness :
  provideDotCompletion (opened [variableDir; variantUp]) "/w/a.mut"
                       (Some "Dir")
  = [mkItem "Up" CikEnumMember None None None None].
Proof.
  pose proof (@dot_completion_parameter_filter
                (opened [variableDir; variantUp]) "/w/a.mut" "Dir")
    as (_ & _ & P & _).
  rewrite (P eq_refl). reflexivity.
Defined.

End DotCompletion.

(* ================================================================== *)
(** * Further operations of the symbol cache *)

(** ** [findSymbolAt]: the symbol nearest to a position *)

Module SymbolAt.
Import SymbolCacheOps.

Local Open Scope Z_scope.

(** [dist < bestDist], where [None] stands for [Infinity]. *)
Definition nearer (dist : Z) (bestDist : option Z) : bool :=
  match bestDist with
  | None => true
  | Some b => dist <? b
  end.

Definition onLine (filePath : string) (ln : Z) (sym : BismutSymbol) : bool :=
  String.eqb (file sym) filePath && (line sym =? ln).

(** [Math.abs(sym.col - col)] *)
Definition distance (c : Z) (sym : BismutSymbol) : Z := Z.abs (col sym - c).

(** One iteration of the loop: the pair is [(best, bestDist)]. *)
Definition scanSymbolAt (filePath : string) (ln c : Z)
           (acc : option BismutSymbol * option Z) (sym : BismutSymbol)
  : option BismutSymbol * option Z :=
  if onLine filePath ln sym then
    let dist := distance c sym in
    if nearer dist (snd acc) then (Some sym, Some dist) else acc
  else acc.

Definition findSymbolAt (s : SymbolCache) (filePath : string) (ln c : Z)
  : option BismutSymbol :=
  match JsMap.get filePath (cache s) with
  | None => None
  | Some result =>
      fst (fold_left (scanSymbolAt filePath ln c) (symbols result) (None, None))
  end.

(** What the loop has after it went through [seen]: nothing when no
    symbol of [seen] is on the line, else the first of the symbols on the
    line that are nearest. *)
Definition scanned (filePath : string) (ln c : Z) (seen : list BismutSymbol)
           (acc : option BismutSymbol * option Z) : Prop :=
  match acc with
  | (None, None) => filter (onLine filePath ln) seen = []
  | (Some best, Some d) =>
      d = distance c best
      /\ exists before after,
           filter (onLine filePath ln) seen = before ++ best :: after
           /\ (forall x, In x before -> distance c best < distance c x)
           /\ (forall x, In x after -> distance c best <= distance c x)
  | _ => False
  end.

Lemma scan_keeps_scanned (filePath : string) (ln c : Z)
      (seen : list BismutSymbol) :
  scanned filePath ln c seen
          (fold_left (scanSymbolAt filePath ln c) seen (None, None)).
Proof.
  induction seen as [|sym seen IH] using rev_ind; [reflexivity|].
  rewrite fold_left_app. simpl. unfold scanned in IH.
  destruct (fold_left (scanSymbolAt filePath ln c) seen (None, None))
    as [[best|] [d|]]; try contradiction.
  - destruct IH as (Hd & before & after & Hf & Hb & Ha).
    unfold scanSymbolAt. destruct (onLine filePath ln sym) eqn:O; simpl.
    + destruct (distance c sym <? d) eqn:L;
        unfold scanned; rewrite filter_app; simpl; rewrite O.
      * apply Z.ltb_lt in L. split; [reflexivity|].
        exists (before ++ best :: after), []. rewrite Hf. split; [reflexivity|].
        split; [|intros x []].
        intros x Hx. apply in_app_or in Hx. destruct Hx as [Hx|[<-|Hx]].
        -- specialize (Hb x Hx). lia.
        -- lia.
        -- specialize (Ha x Hx). lia.
      * apply Z.ltb_ge in L. split; [exact Hd|].
        exists before, (after ++ [sym]). rewrite Hf, <- app_assoc.
        split; [reflexivity|]. split; [exact Hb|].
        intros x Hx. apply in_app_or in Hx. destruct Hx as [Hx|[<-|[]]].
        -- exact (Ha x Hx).
        -- lia.
    + unfold scanned. rewrite filter_app. simpl. rewrite O, app_nil_r.
      split; [exact Hd|]. exists before, after.
      repeat split; assumption.
  - unfold scanSymbolAt. destruct (onLine filePath ln sym) eqn:O; simpl;
      unfold scanned; rewrite filter_app; simpl; rewrite O, IH.
    + split; [reflexivity|]. exists [], [].
      split; [reflexivity|]. split; intros x [].
    + reflexivity.
Qed.

(** [findSymbolAt] looks at the symbols of the file's own result that
    carry that file and that line.  It answers [null] exactly when there
    is none (in particular when the file is not cached); otherwise it
    answers one of them whose column is nearest to the given one, and of
    several equally near the one that comes first. *)
Theorem findSymbolAt_nearest_on_line
        (s : SymbolCache) (filePath : string) (ln c : Z) :
  let candidates := filter (onLine filePath ln) (getSymbols s filePath) in
  (findSymbolAt s filePath ln c = None <-> candidates = [])
  /\ (forall best,
        findSymbolAt s filePath ln c = Some best ->
        file best = filePath /\ line best = ln
        /\ exists before after,
             candidates = before ++ best :: after
             /\ (forall x, In x before -> distance c best < distance c x)
             /\ (forall x, In x after -> distance c best <= distance c x)).
Proof.
  unfold findSymbolAt, getSymbols.
  destruct (JsMap.get filePath (cache s)) as [result|]; simpl.
  2:{ split; [tauto|discriminate]. }
  pose proof (scan_keeps_scanned filePath ln c (symbols result)) as P.
  destruct (fold_left (scanSymbolAt filePath ln c) (symbols result)
                      (None, None)) as [[b|] [d|]];
    simpl in P; try contradiction; simpl.
  - destruct P as (_ & before & after & Hf & Hb & Ha). split.
    + split; [discriminate|]. rewrite Hf. intros E.
      destruct before; discriminate.
    + intros best [= <-].
      assert (O : onLine filePath ln b = true).
      { assert (I : In b (filter (onLine filePath ln) (symbols result)))
          by (rewrite Hf; apply in_or_app; right; left; reflexivity).
        apply filter_In in I. tauto. }
      unfold onLine in O. apply andb_true_iff in O. destruct O as [Of Ol].
      apply String.eqb_eq in Of. apply Z.eqb_eq in Ol.
      split; [exact Of|]. split; [exact Ol|].
      exists before, after. repeat split; assumption.
  - split; [tauto|discriminate].
Qed.

Definition twoOnLineFour : SymbolCache :=
  ingest newSymbolCache "/w/a.mut"
         (mkResult true "/w/a.mut" 0 0 []
                   [mkSymbol "a" "variable" "/w/a.mut" 4 3 "" "i64" "";
                    mkSymbol "b" "variable" "/w/a.mut" 4 9 "" "i64" ""]).

(** Two symbols on line 4, in columns 3 and 9: column 6 is as near to one
    as to the other, and the first is the answer; line 5 has none. *)
Lemma findSymbolAt_nearest_on_line_witness :
  findSymbolAt twoOnLineFour "/w/a.mut" 4 6
  = Some (mkSymbol "a" "variable" "/w/a.mut" 4 3 "" "i64" "")
  /\ findSymbolAt twoOnLineFour "/w/a.mut" 5 6 = None.
Proof.
  split; [reflexivity|].
  apply (proj1 (findSymbolAt_nearest_on_line twoOnLineFour "/w/a.mut" 5 6)).
  reflexivity.
Defined.

End SymbolAt.

(** ** Members, and finding again what was ingested *)

Module CacheQueries.
Import SymbolCacheOps JsMapFacts IndexFacts.

Lemma set_member (V : Type) (k : string) (v : V) (m : JsMap.t V) :
  In (k, v) (JsMap.set k v m).
Proof.
  induction m as [|[k0 v0] rest IH]; simpl; [left; reflexivity|].
  destruct (String.eqb k k0); [left; reflexivity|right; exact IH].
Qed.

Lemma unionOfFiles_member (nm : string) (sym : BismutSymbol)
      (c : JsMap.t AnalysisResult) :
  In sym (unionOfFiles nm c)
  <-> exists g r, In (g, r) c /\ In sym (symbols r)
                  /\ indexedUnder nm sym = true.
Proof.
  unfold unionOfFiles, contribution. rewrite in_flat_map. split.
  - intros ([g r] & Hin & Hs). simpl in Hs. apply filter_In in Hs.
    exists g, r. tauto.
  - intros (g & r & Hin & Hs & Hi). exists (g, r). split; [exact Hin|].
    simpl. apply filter_In. tauto.
Qed.

(** [findMembers] lists the symbols whose parent is the type, file by
    file in cache order and within a file in declaration order: a symbol
    is listed exactly when some cached result holds it and its parent is
    the type.  Once a file is closed, its symbols are no longer
    listed. *)
Theorem findMembers_lists_children
        (s : SymbolCache) (typeName filePath : string) (sym : BismutSymbol) :
  findMembers s typeName
  = flat_map (fun e => filter (DotCompletion.memberOf typeName)
                              (symbols (snd e)))
             (cache s)
  /\ (In sym (findMembers s typeName)
      <-> parent sym = typeName
          /\ exists g r, In (g, r) (cache s) /\ In sym (symbols r))
  /\ findMembers (clearFile s filePath) typeName
     = flat_map (fun e => filter (DotCompletion.memberOf typeName)
                                 (symbols (snd e)))
                (IndexInvariant.otherFiles filePath (cache s)).
Proof.
  split; [apply DotCompletion.findMembers_filter|]. split.
  - rewrite DotCompletion.findMembers_filter, in_flat_map. split.
    + intros ([g r] & Hin & Hs). simpl in Hs. apply filter_In in Hs.
      destruct Hs as [Hs Hp]. unfold DotCompletion.memberOf in Hp.
      apply String.eqb_eq in Hp. split; [exact Hp|]. exists g, r. tauto.
    + intros (Hp & g & r & Hin & Hs). exists (g, r). split; [exact Hin|].
      simpl. apply filter_In. split; [exact Hs|].
      unfold DotCompletion.memberOf. apply String.eqb_eq. exact Hp.
  - rewrite DotCompletion.findMembers_filter. reflexivity.
Qed.

(** What was ingested is found again: the file's result and symbols are
    the ingested ones, every symbol of the result is listed by
    [findSymbolsByName] under its full name and under its simple name,
    whatever is listed under a name has that full or simple name, and
    the results of the other files are the ones they had. *)
Theorem ingest_then_lookup
        (s : SymbolCache) (H : coherent s)
        (filePath other nm : string) (result : AnalysisResult)
        (sym : BismutSymbol) :
  let s' := ingest s filePath result in
  getResult s' filePath = Some result
  /\ getSymbols s' filePath = symbols result
  /\ (In sym (symbols result) ->
      In sym (findSymbolsByName s' (name sym))
      /\ In sym (findSymbolsByName s' (JsString.simpleNameOf (name sym))))
  /\ (In sym (findSymbolsByName s' nm) ->
      name sym = nm \/ JsString.simpleNameOf (name sym) = nm)
  /\ (String.eqb filePath other = false ->
      getResult s' other = getResult s other).
Proof.
  intros s'.
  assert (L : forall n, findSymbolsByName s' n = unionOfFiles n (cache s')).
  { intros n.
    exact (proj2 (@coherent_rebuilt_lookup
                    (mkCache (cache s') (nameIndex s') (globalSymbols s)
                             (diagnosticCollection s) (analyzing s))
                    n (ingest_coherent filePath result H))). }
  split; [apply get_set_same|]. split.
  { unfold getSymbols. simpl. rewrite get_set_same. reflexivity. }
  split.
  { intros Hs. rewrite !L, !unionOfFiles_member. split.
    - exists filePath, result. split; [apply set_member|]. split; [exact Hs|].
      unfold indexedUnder. rewrite String.eqb_refl. reflexivity.
    - exists filePath, result. split; [apply set_member|]. split; [exact Hs|].
      unfold indexedUnder. rewrite String.eqb_refl. apply orb_true_r. }
  split.
  { rewrite L, unionOfFiles_member. intros (_ & _ & _ & _ & Hi).
    unfold indexedUnder in Hi. apply orb_true_iff in Hi.
    destruct Hi as [E|E]; apply String.eqb_eq in E; tauto. }
  intros N. unfold getResult. simpl. apply get_set_other, N.
Qed.

(** A field [Point.x] is found under [Point.x] and under [x]. *)
Lemma ingest_then_lookup_witness :
  In IndexInvariant.pointX
     (findSymbolsByName
        (ingest newSymbolCache "/w/a.mut" IndexInvariant.resultA) "Point.x")
  /\ In IndexInvariant.pointX
        (findSymbolsByName
           (ingest newSymbolCache "/w/a.mut" IndexInvariant.resultA) "x").
Proof.
  pose proof (@ingest_then_lookup newSymbolCache eq_refl "/w/a.mut" "/w/b.mut"
                "x" IndexInvariant.resultA IndexInvariant.pointX)
    as (_ & _ & P & _).
  apply P. left. reflexivity.
Defined.

End CacheQueries.

(** ** Publishing diagnostics *)

Module Publishing.
Import SymbolCacheOps JsMapFacts.

(** The file a diagnostic is published under: its own, or the analyzed
    file when it names none. *)
Definition attributedTo (resultFile g : string) (d : BismutDiagnostic) : bool :=
  String.eqb (JsString.or_else (d_file d) resultFile) g.

Lemma grouped_lookup (resultFile g : string) (ds : list BismutDiagnostic) :
  forall byFile,
    JsMap.get g (fold_left (groupDiagnostic resultFile) ds byFile)
    = match filter (attributedTo resultFile g) ds with
      | [] => JsMap.get g byFile
      | d :: more => Some (JsMap.get_or_nil g byFile ++ d :: more)
      end.
Proof.
  induction ds as [|d rest IH]; intros byFile; simpl; [reflexivity|].
  rewrite IH. unfold groupDiagnostic, attributedTo at 2.
  fold (attributedTo resultFile g).
  destruct (String.eqb_spec (JsString.or_else (d_file d) resultFile) g)
    as [->|N].
  - rewrite get_set_same, get_or_nil_set, String.eqb_refl.
    destruct (filter (attributedTo resultFile g) rest);
      [reflexivity|rewrite <- app_assoc; reflexivity].
  - apply String.eqb_neq in N.
    rewrite get_or_nil_set, N, get_set_other by exact N. reflexivity.
Qed.

Lemma grouped_keys_distinct (resultFile : string)
      (ds : list BismutDiagnostic) :
  forall byFile,
    NoDup (JsMap.keys byFile) ->
    NoDup (JsMap.keys (fold_left (groupDiagnostic resultFile) ds byFile)).
Proof.
  induction ds as [|d rest IH]; intros byFile D; simpl; [exact D|].
  apply IH. unfold groupDiagnostic. apply set_keeps_keys_distinct, D.
Qed.

Lemma published_lookup (g : string)
      (groups : JsMap.t (list BismutDiagnostic)) :
  forall dc,
    NoDup (JsMap.keys groups) ->
    JsMap.get g (fold_left publishGroup groups dc)
    = match JsMap.get g groups with
      | Some ds => Some (map toVsDiagnostic ds)
      | None => JsMap.get g dc
      end.
Proof.
  induction groups as [|[k ds] rest IH]; intros dc D; simpl; [reflexivity|].
  inversion D as [|? ? Hn Hr]; subst. rewrite (IH _ Hr).
  unfold publishGroup. simpl.
  destruct (String.eqb_spec g k) as [->|N].
  - apply (proj2 (get_none_not_key k rest)) in Hn. rewrite Hn.
    apply get_set_same.
  - destruct (JsMap.get g rest); [reflexivity|].
    apply get_set_other, String.eqb_neq. congruence.
Qed.

(** After an ingest, the diagnostics published for a file [g] are the
    converted diagnostics of the result that belong to [g], in their
    order, when there are any.  When there are none, nothing is published
    for [g] if it is the analyzed file, and what was published for [g]
    stays if it is another file: also what an earlier analysis put there.
    Publishing leaves the cached results and the indices alone. *)
Theorem ingest_publishes_per_file
        (s : SymbolCache) (filePath g : string) (result : AnalysisResult) :
  JsMap.get g (diagnosticCollection (ingest s filePath result))
  = match filter (attributedTo (r_file result) g) (diagnostics result) with
    | [] => if String.eqb (r_file result) g then None
            else JsMap.get g (diagnosticCollection s)
    | d :: more => Some (map toVsDiagnostic (d :: more))
    end
  /\ cache (publishDiagnostics s result) = cache s
  /\ nameIndex (publishDiagnostics s result) = nameIndex s
  /\ globalSymbols (publishDiagnostics s result) = globalSymbols s.
Proof.
  split; [|repeat split]. simpl.
  rewrite published_lookup
    by (apply grouped_keys_distinct; constructor).
  rewrite grouped_lookup. simpl.
  destruct (filter (attributedTo (r_file result) g) (diagnostics result));
    [|reflexivity].
  destruct (String.eqb_spec (r_file result) g) as [<-|N].
  - apply get_delete_same.
  - apply get_delete_other, String.eqb_neq, N.
Qed.

End Publishing.

(* ================================================================== *)
(** * Debounced analysis

    [analyzeFileDebounced] and [dispose] work on [debounceTimers] and on
    the timers of the runtime.  A timer is what [setTimeout] registered
    and neither fired nor was cleared; its callback deletes the entry of
    its file and calls [analyzeFile].  When a timer fires is up to the
    runtime: any pending timer may fire next. *)

Record Timer : Type := mkTimer {
  handle : nat;
  timerFile : string;
  delayMs : Z
}.

Record Scheduler : Type := mkScheduler {
  debounceTimers : JsMap.t nat;
  pending : list Timer;
  nextHandle : nat
}.

Definition newScheduler : Scheduler := mkScheduler [] [] 1.

Module Debounce.

(** [clearTimeout(h)] *)
Definition clearTimeout (h : nat) (timers : list Timer) : list Timer :=
  filter (fun t => negb (Nat.eqb (handle t) h)) timers.

Definition analyzeFileDebounced (sch : Scheduler) (filePath : string)
           (delay : Z) : Scheduler :=
  let remaining :=
    match JsMap.get filePath (debounceTimers sch) with
    | Some existing => clearTimeout existing (pending sch)
    | None => pending sch
    end in
  let h := nextHandle sch in
  mkScheduler (JsMap.set filePath h (debounceTimers sch))
              (remaining ++ [mkTimer h filePath delay])
              (S h).

(** The runtime fires the timer [h]: the scheduler after the first
    statement of the callback, and the file the callback then calls
    [analyzeFile] for.  A handle that is not pending fires nothing. *)
Definition fire (sch : Scheduler) (h : nat) : Scheduler * option string :=
  match find (fun t => Nat.eqb (handle t) h) (pending sch) with
  | None => (sch, None)
  | Some t =>
      (mkScheduler (JsMap.delete (timerFile t) (debounceTimers sch))
                   (clearTimeout h (pending sch))
                   (nextHandle sch),
       Some (timerFile t))
  end.

Definition dispose (sch : Scheduler) : Scheduler :=
  mkScheduler []
              (fold_left (fun timers h => clearTimeout h timers)
                         (map snd (debounceTimers sch)) (pending sch))
              (nextHandle sch).

(** The pending timers whose callback is for [f]. *)
Definition timersOf (f : string) (timers : list Timer) : list Timer :=
  filter (fun t => String.eqb (timerFile t) f) timers.

End Debounce.

(** The editor session: the event loop of the cache, the scheduler, and
    the files the timer callbacks called [analyzeFile] for, oldest
    first. *)
Record Session : Type := mkSession {
  world : World;
  scheduler : Scheduler;
  debouncedCalls : list string
}.

Definition newSession : Session := mkSession initialWorld newScheduler [].

Inductive Trigger : Type :=
| Immediate (e : Event)
| Typed (filePath : string) (delay : Z)
| TimerFires (h : nat)
| Deactivate.

Module SessionLoop.
Import EventLoop Debounce.

Definition advance (st : Session) (t : Trigger) : Session :=
  match t with
  | Immediate e =>
      mkSession (step (world st) e) (scheduler st) (debouncedCalls st)
  | Typed f delay =>
      mkSession (world st) (analyzeFileDebounced (scheduler st) f delay)
                (debouncedCalls st)
  | TimerFires h =>
      match fire (scheduler st) h with
      | (sch, Some f) =>
          mkSession (step (world st) (Request f)) sch
                    (debouncedCalls st ++ [f])
      | (sch, None) => mkSession (world st) sch (debouncedCalls st)
      end
  | Deactivate =>
      mkSession (world st) (dispose (scheduler st)) (debouncedCalls st)
  end.

Definition play (st : Session) (ts : list Trigger) : Session :=
  fold_left advance ts st.

End SessionLoop.

Module DebounceFacts.
Import Debounce JsMapFacts.

(** Every pending timer is the one [debounceTimers] records for its file,
    and every recorded handle is pending; handles are not reused. *)
Definition tidy (sch : Scheduler) : Prop :=
  NoDup (map handle (pending sch))
  /\ (forall t, In t (pending sch) ->
        handle t < nextHandle sch
        /\ JsMap.get (timerFile t) (debounceTimers sch) = Some (handle t))
  /\ (forall f h, JsMap.get f (debounceTimers sch) = Some h ->
        exists t, In t (pending sch) /\ handle t = h /\ timerFile t = f).

Lemma same_handle_same_timer (timers : list Timer) (t u : Timer) :
  NoDup (map handle timers) -> In t timers -> In u timers ->
  handle t = handle u -> t = u.
Proof.
  induction timers as [|x rest IH]; simpl; intros D Ht Hu E; [contradiction|].
  inversion D as [|? ? Hn Hr]; subst.
  destruct Ht as [<-|Ht], Hu as [<-|Hu]; [reflexivity| | |exact (IH Hr Ht Hu E)].
  - exfalso. apply Hn. rewrite E. exact (in_map handle _ _ Hu).
  - exfalso. apply Hn. rewrite <- E. exact (in_map handle _ _ Ht).
Qed.

Lemma handles_of_filter (p : Timer -> bool) (timers : list Timer) :
  NoDup (map handle timers) -> NoDup (map handle (filter p timers)).
Proof.
  induction timers as [|x rest IH]; simpl; intros D; [constructor|].
  inversion D as [|? ? Hn Hr]; subst.
  destruct (p x); simpl; [|exact (IH Hr)].
  constructor; [|exact (IH Hr)].
  intros Hin. apply Hn. apply in_map_iff in Hin.
  destruct Hin as (y & Ey & Hy). apply filter_In in Hy.
  apply in_map_iff. exists y. tauto.
Qed.

(** What a debounced request leaves of the pending timers before it adds
    its own: the timers of the other files. *)
Lemma remaining_are_others (sch : Scheduler) (f : string) :
  tidy sch ->
  match JsMap.get f (debounceTimers sch) with
  | Some existing => clearTimeout existing (pending sch)
  | None => pending sch
  end
  = filter (fun t => negb (String.eqb (timerFile t) f)) (pending sch).
Proof.
  intros (D & P & R).
  destruct (JsMap.get f (debounceTimers sch)) as [existing|] eqn:G.
  - unfold clearTimeout. apply filter_ext_in. intros t Ht.
    destruct (P t Ht) as [_ Gt]. f_equal.
    destruct (String.eqb_spec (timerFile t) f) as [E|N].
    + rewrite E, G in Gt. injection Gt as <-. apply Nat.eqb_refl.
    + apply Nat.eqb_neq. intros E.
      destruct (R f existing G) as (u & Hu & Eh & Ef).
      assert (t = u)
        by (apply (@same_handle_same_timer _ t u D Ht Hu); congruence).
      subst u. exact (N Ef).
  - symmetry. apply forallb_filter_id. apply forallb_forall. intros t Ht.
    destruct (P t Ht) as [_ Gt].
    destruct (String.eqb_spec (timerFile t) f) as [E|N]; [|reflexivity].
    rewrite E, G in Gt. discriminate.
Qed.

Lemma analyzeFileDebounced_pending (sch : Scheduler) (f : string) (delay : Z) :
  tidy sch ->
  pending (analyzeFileDebounced sch f delay)
  = filter (fun t => negb (String.eqb (timerFile t) f)) (pending sch)
    ++ [mkTimer (nextHandle sch) f delay].
Proof.
  intros T. unfold analyzeFileDebounced. simpl.
  rewrite (remaining_are_others f T). reflexivity.
Qed.

Lemma analyzeFileDebounced_tidy (sch : Scheduler) (f : string) (delay : Z) :
  tidy sch -> tidy (analyzeFileDebounced sch f delay).
Proof.
  intros T. pose proof T as (D & P & R).
  unfold tidy. rewrite (analyzeFileDebounced_pending f delay T).
  unfold analyzeFileDebounced. simpl. split; [|split].
  - rewrite map_app. simpl. apply NoDup_app.
    + apply handles_of_filter, D.
    + constructor; [intros []|constructor].
    + intros h Hh [<-|[]]. apply in_map_iff in Hh.
      destruct Hh as (t & Et & Ht). apply filter_In in Ht.
      destruct (P t (proj1 Ht)) as [Lt _]. lia.
  - intros t Ht. apply in_app_or in Ht. destruct Ht as [Ht|[<-|[]]].
    + apply filter_In in Ht. destruct Ht as [Ht Nf].
      destruct (P t Ht) as [Lt Gt]. split; [lia|].
      apply negb_true_iff in Nf.
      rewrite get_set_other by (rewrite String.eqb_sym; exact Nf).
      exact Gt.
    + simpl. split; [lia|apply get_set_same].
  - intros g h Gh. destruct (String.eqb_spec f g) as [<-|N].
    + rewrite get_set_same in Gh. injection Gh as <-.
      exists (mkTimer (nextHandle sch) f delay).
      split; [apply in_or_app; right; left; reflexivity|split; reflexivity].
    + rewrite get_set_other in Gh by (apply String.eqb_neq; exact N).
      destruct (R g h Gh) as (t & Ht & Eh & Ef). exists t.
      split; [|split; assumption].
      apply in_or_app. left. apply filter_In. split; [exact Ht|].
      apply negb_true_iff, String.eqb_neq. congruence.
Qed.

Lemma fire_tidy (sch : Scheduler) (h : nat) :
  tidy sch -> tidy (fst (fire sch h)).
Proof.
  intros T. pose proof T as (D & P & R). unfold fire.
  destruct (find (fun t => Nat.eqb (handle t) h) (pending sch)) as [t|] eqn:F;
    [|exact T].
  apply find_some in F. destruct F as [Ht Eh]. apply Nat.eqb_eq in Eh.
  simpl. split; [|split]; simpl.
  - apply handles_of_filter, D.
  - intros u Hu. apply filter_In in Hu. destruct Hu as [Hu Nh].
    apply negb_true_iff, Nat.eqb_neq in Nh.
    destruct (P u Hu) as [Lu Gu]. split; [exact Lu|].
    rewrite get_delete_other; [exact Gu|]. apply String.eqb_neq. intros E.
    destruct (P t Ht) as [_ Gt]. rewrite E, Gu in Gt. congruence.
  - intros g k Gk.
    destruct (String.eqb_spec (timerFile t) g) as [E|N].
    + rewrite E, get_delete_same in Gk. discriminate.
    + rewrite get_delete_other in Gk by (apply String.eqb_neq; exact N).
      destruct (R g k Gk) as (u & Hu & Ek & Ef). exists u.
      split; [|split; assumption].
      apply filter_In. split; [exact Hu|].
      apply negb_true_iff, Nat.eqb_neq. intros E.
      assert (u = t)
        by (apply (@same_handle_same_timer _ u t D Hu Ht); congruence).
      subst u. exact (N Ef).
Qed.

Lemma cleared_all (hs : list nat) :
  forall timers,
    fold_left (fun timers h => clearTimeout h timers) hs timers
    = filter (fun t => negb (existsb (Nat.eqb (handle t)) hs)) timers.
Proof.
  induction hs as [|h rest IH]; intros timers; simpl.
  - symmetry. apply forallb_filter_id, forallb_forall. reflexivity.
  - rewrite IH. unfold clearTimeout.
    induction timers as [|t more IHt]; simpl; [reflexivity|].
    destruct (Nat.eqb (handle t) h); simpl; [exact IHt|].
    destruct (existsb (Nat.eqb (handle t)) rest); simpl;
      [exact IHt|rewrite IHt; reflexivity].
Qed.

Lemma recorded_handle (k : string) (h : nat) (m : JsMap.t nat) :
  JsMap.get k m = Some h -> In h (map snd m).
Proof.
  induction m as [|[k0 v0] rest IH]; simpl; [discriminate|].
  destruct (String.eqb k k0); [intros [= ->]; left; reflexivity|].
  intros G. right. exact (IH G).
Qed.

Lemma none_left (hs : list nat) (timers : list Timer) :
  (forall t, In t timers -> In (handle t) hs) ->
  filter (fun t => negb (existsb (Nat.eqb (handle t)) hs)) timers = [].
Proof.
  induction timers as [|t more IH]; intros A; simpl; [reflexivity|].
  assert (X : existsb (Nat.eqb (handle t)) hs = true).
  { apply existsb_exists. exists (handle t).
    split; [apply A; left; reflexivity|apply Nat.eqb_refl]. }
  rewrite X. simpl. apply IH. intros u Hu. apply A. right. exact Hu.
Qed.

Lemma dispose_clears (sch : Scheduler) :
  tidy sch -> dispose sch = mkScheduler [] [] (nextHandle sch).
Proof.
  intros (_ & P & _). unfold dispose. f_equal. rewrite cleared_all.
  apply none_left. intros t Ht. destruct (P t Ht) as [_ Gt].
  exact (recorded_handle _ _ Gt).
Qed.

Lemma newScheduler_tidy : tidy newScheduler.
Proof.
  split; [constructor|]. split; [intros t []|intros f h; discriminate].
Qed.

End DebounceFacts.

Module SessionFacts.
Import SymbolCacheOps EventLoop Debounce SessionLoop DebounceFacts JsMapFacts.

(** What holds of every session: the scheduler is tidy, the files marked
    as being analyzed are the running invocations, and the per-file
    indices are those of the cached results. *)
Definition sound (st : Session) : Prop :=
  tidy (scheduler st)
  /\ EventLoopFacts.consistent (world st)
  /\ Reachable.wellFormed (symbolCache (world st)).

Lemma advance_sound (st : Session) (t : Trigger) :
  sound st -> sound (advance st t).
Proof.
  intros (T & C & W). destruct t as [e|f delay|h|]; unfold advance.
  - split; [exact T|]. split.
    + exact (@EventLoopFacts.step_consistent (world st) e C).
    + exact (@Reachable.step_wellFormed (world st) e W).
  - split; [exact (analyzeFileDebounced_tidy f delay T)|].
    split; assumption.
  - pose proof (fire_tidy h T) as T'.
    destruct (fire (scheduler st) h) as [sch [f|]]; simpl in T'.
    + split; [exact T'|]. split.
      * exact (@EventLoopFacts.step_consistent (world st) (Request f) C).
      * exact (@Reachable.step_wellFormed (world st) (Request f) W).
    + split; [exact T'|]. split; assumption.
  - split; [|split; assumption]. simpl. rewrite (dispose_clears T).
    split; [constructor|]. split; [intros t []|intros f h; discriminate].
Qed.

Lemma play_sound (ts : list Trigger) :
  forall st, sound st -> sound (play st ts).
Proof.
  unfold play. induction ts as [|t rest IH]; intros st S; simpl; [exact S|].
  apply IH, advance_sound, S.
Qed.

Lemma newSession_sound : sound newSession.
Proof.
  split; [apply newScheduler_tidy|]. split;
    [apply EventLoopFacts.initialWorld_consistent|].
  split; [reflexivity|constructor].
Qed.

Lemma reached_sound (ts : list Trigger) : sound (play newSession ts).
Proof. apply play_sound, newSession_sound. Qed.

Lemma timers_of_file (sch : Scheduler) (f : string) :
  tidy sch ->
  match JsMap.get f (debounceTimers sch) with
  | None => timersOf f (pending sch) = []
  | Some h => exists delay, timersOf f (pending sch) = [mkTimer h f delay]
  end.
Proof.
  intros (D & P & R).
  assert (Same : forall t u, In t (timersOf f (pending sch)) ->
                             In u (timersOf f (pending sch)) -> t = u).
  { intros t u Ht Hu. apply filter_In in Ht. apply filter_In in Hu.
    destruct Ht as [Ht Ft], Hu as [Hu Fu].
    apply String.eqb_eq in Ft. apply String.eqb_eq in Fu.
    apply (@same_handle_same_timer _ t u D Ht Hu).
    destruct (P t Ht) as [_ Gt]. destruct (P u Hu) as [_ Gu].
    rewrite Ft in Gt. rewrite Fu in Gu. congruence. }
  assert (D' : NoDup (map handle (timersOf f (pending sch))))
    by (apply handles_of_filter, D).
  destruct (JsMap.get f (debounceTimers sch)) as [h|] eqn:G.
  - destruct (R f h G) as (t & Ht & Eh & Ef).
    assert (It : In t (timersOf f (pending sch))).
    { apply filter_In. split; [exact Ht|]. apply String.eqb_eq, Ef. }
    exists (delayMs t).
    destruct (timersOf f (pending sch)) as [|x [|y more]].
    + contradiction.
    + destruct It as [<-|[]]. destruct x as [hx fx dx]. simpl in *.
      subst. reflexivity.
    + exfalso. inversion D' as [|? ? Hn _]; subst. apply Hn.
      rewrite (Same x y (or_introl eq_refl) (or_intror (or_introl eq_refl))).
      left. reflexivity.
  - destruct (timersOf f (pending sch)) as [|x more] eqn:E; [reflexivity|].
    assert (Ix : In x (timersOf f (pending sch)))
      by (rewrite E; left; reflexivity).
    apply filter_In in Ix. destruct Ix as [Hx Fx].
    apply String.eqb_eq in Fx. destruct (P x Hx) as [_ Gx].
    rewrite Fx, G in Gx. discriminate.
Qed.

(** In every session, a file has at most one pending timer: the one
    [debounceTimers] records for it, and none when it records none. *)
Theorem one_pending_timer_per_file (ts : list Trigger) (f : string) :
  let sch := scheduler (play newSession ts) in
  length (timersOf f (pending sch)) <= 1
  /\ match JsMap.get f (debounceTimers sch) with
     | None => timersOf f (pending sch) = []
     | Some h => exists delay, timersOf f (pending sch) = [mkTimer h f delay]
     end.
Proof.
  intros sch.
  pose proof (timers_of_file f (proj1 (reached_sound ts))) as M.
  fold sch in M. split; [|exact M].
  destruct (JsMap.get f (debounceTimers sch)) as [h|].
  - destruct M as [delay ->]. simpl. lia.
  - rewrite M. simpl. lia.
Qed.

(** Neither a timer fires nor the extension is deactivated. *)
Definition quiet (t : Trigger) : bool :=
  match t with
  | TimerFires _ => false
  | Deactivate => false
  | _ => true
  end.

Definition typedFor (f : string) (t : Trigger) : bool :=
  match t with
  | Typed g _ => String.eqb g f
  | _ => false
  end.

Lemma timersOf_others (f g : string) (timers : list Timer) :
  String.eqb g f = false ->
  timersOf f (filter (fun t => negb (String.eqb (timerFile t) g)) timers)
  = timersOf f timers.
Proof.
  intros N. unfold timersOf. induction timers as [|t more IH]; simpl;
    [reflexivity|].
  destruct (String.eqb_spec (timerFile t) g) as [E|Ng]; simpl.
  - rewrite E, N. exact IH.
  - rewrite IH. reflexivity.
Qed.

Lemma timersOf_app (f : string) (a b : list Timer) :
  timersOf f (a ++ b) = timersOf f a ++ timersOf f b.
Proof. apply filter_app. Qed.

Lemma timersOf_single (f g : string) (h : nat) (delay : Z) :
  timersOf f [mkTimer h g delay]
  = if String.eqb g f then [mkTimer h g delay] else [].
Proof. reflexivity. Qed.

Lemma timersOf_none_own (f : string) (timers : list Timer) :
  timersOf f (filter (fun t => negb (String.eqb (timerFile t) f)) timers) = [].
Proof.
  unfold timersOf. induction timers as [|t more IH]; simpl; [reflexivity|].
  destruct (String.eqb (timerFile t) f) eqn:E; simpl; [exact IH|].
  rewrite E. exact IH.
Qed.

Lemma quiet_keeps_timer (ts : list Trigger) (f : string) (t0 : Timer) :
  forall st,
    sound st ->
    forallb quiet ts = true -> existsb (typedFor f) ts = false ->
    timersOf f (pending (scheduler st)) = [t0] ->
    sound (play st ts)
    /\ timersOf f (pending (scheduler (play st ts))) = [t0]
    /\ debouncedCalls (play st ts) = debouncedCalls st.
Proof.
  unfold play. induction ts as [|t rest IH]; intros st S Q N H; simpl.
  - split; [exact S|split; [exact H|reflexivity]].
  - simpl in Q, N. apply andb_true_iff in Q. destruct Q as [Qt Qr].
    apply orb_false_iff in N. destruct N as [Nt Nr].
    assert (K : timersOf f (pending (scheduler (advance st t))) = [t0]
                /\ debouncedCalls (advance st t) = debouncedCalls st).
    { destruct t as [e|g delay|h|]; simpl in Qt, Nt; try discriminate.
      - split; [exact H|reflexivity].
      - split; [|reflexivity].
        change (scheduler (advance st (Typed g delay)))
          with (analyzeFileDebounced (scheduler st) g delay).
        rewrite (analyzeFileDebounced_pending g delay (proj1 S)).
        rewrite timersOf_app, timersOf_single, Nt, app_nil_r.
        rewrite timersOf_others by exact Nt. exact H. }
    destruct K as [K1 K2].
    destruct (IH (advance st t) (advance_sound t S) Qr Nr K1) as (A & B & C).
    split; [exact A|split; [exact B|congruence]].
Qed.

(** However many debounced requests arrive: after a request for [f]
    with delay [delay], and any further requests for other files,
    analyses, closes and hovers, but no timer firing, exactly one timer is
    pending for [f]; it has that delay and its callback has not run.
    When it fires, [analyzeFile] is called for [f] once, and no timer and
    no entry is left for [f]. *)
Theorem debounce_leaves_one_timer
        (history after : list Trigger) (f : string) (delay : Z)
        (Q : forallb quiet after = true)
        (N : existsb (typedFor f) after = false) :
  let st := play newSession history in
  let h := nextHandle (scheduler st) in
  let st' := play (advance st (Typed f delay)) after in
  timersOf f (pending (scheduler st')) = [mkTimer h f delay]
  /\ debouncedCalls st' = debouncedCalls st
  /\ debouncedCalls (advance st' (TimerFires h)) = debouncedCalls st ++ [f]
  /\ timersOf f (pending (scheduler (advance st' (TimerFires h)))) = []
  /\ JsMap.get f (debounceTimers (scheduler (advance st' (TimerFires h))))
     = None.
Proof.
  intros st h st'.
  assert (S : sound st) by apply reached_sound.
  assert (H1 : timersOf f (pending (scheduler (advance st (Typed f delay))))
               = [mkTimer h f delay]).
  { change (scheduler (advance st (Typed f delay)))
      with (analyzeFileDebounced (scheduler st) f delay).
    rewrite (analyzeFileDebounced_pending f delay (proj1 S)).
    rewrite timersOf_app, timersOf_single, String.eqb_refl, timersOf_none_own.
    reflexivity. }
  destruct (@quiet_keeps_timer after f (mkTimer h f delay)
              (advance st (Typed f delay))
              (advance_sound (Typed f delay) S) Q N H1) as (S' & H' & C').
  fold st' in S', H', C'.
  split; [exact H'|]. split; [exact C'|].
  pose proof S' as ((D & P & R) & _).
  assert (In0 : In (mkTimer h f delay) (pending (scheduler st'))).
  { assert (I : In (mkTimer h f delay) (timersOf f (pending (scheduler st'))))
      by (rewrite H'; left; reflexivity).
    apply filter_In in I. tauto. }
  assert (F : find (fun t => Nat.eqb (handle t) h) (pending (scheduler st'))
              = Some (mkTimer h f delay)).
  { destruct (find (fun t => Nat.eqb (handle t) h) (pending (scheduler st')))
      as [t|] eqn:E.
    - apply find_some in E. destruct E as [Ht Eh]. apply Nat.eqb_eq in Eh.
      f_equal. apply (@same_handle_same_timer _ _ _ D Ht In0). exact Eh.
    - exfalso. pose proof (find_none _ _ E _ In0) as X. simpl in X.
      rewrite Nat.eqb_refl in X. discriminate. }
  simpl. unfold fire. rewrite F. simpl.
  split; [rewrite C'; reflexivity|]. split; [|apply get_delete_same].
  unfold timersOf, clearTimeout.
  assert (G : forall t, In t (pending (scheduler st')) ->
                        String.eqb (timerFile t) f = true ->
                        Nat.eqb (handle t) h = true).
  { intros t Ht Ft.
    assert (I : In t (timersOf f (pending (scheduler st'))))
      by (apply filter_In; tauto).
    rewrite H' in I. destruct I as [<-|[]]. apply Nat.eqb_refl. }
  clear - G. induction (pending (scheduler st')) as [|t more IH]; simpl;
    [reflexivity|].
  destruct (Nat.eqb (handle t) h) eqn:E; simpl.
  - apply IH. intros u Hu. apply G. right. exact Hu.
  - destruct (String.eqb (timerFile t) f) eqn:Ft.
    + rewrite (G t (or_introl eq_refl) Ft) in E. discriminate.
    + apply IH. intros u Hu. apply G. right. exact Hu.
Qed.

(** Three keystrokes in one file and one in another, then the timer of
    the first file fires: one call of [analyzeFile] for it. *)
Lemma debounce_leaves_one_timer_witness :
  debouncedCalls
    (play newSession
          [Typed "/w/a.mut" 800; Typed "/w/a.mut" 800; Typed "/w/a.mut" 800;
           Typed "/w/b.mut" 800; TimerFires 3])
  = ["/w/a.mut"]
  /\ map handle
         (pending
            (scheduler
               (play newSession
                     [Typed "/w/a.mut" 800; Typed "/w/a.mut" 800;
                      Typed "/w/a.mut" 800; Typed "/w/b.mut" 800;
                      TimerFires 3])))
     = [4].
Proof.
  pose proof (@debounce_leaves_one_timer
                [Typed "/w/a.mut" 800; Typed "/w/a.mut" 800]
                [Typed "/w/b.mut" 800] "/w/a.mut" 800 eq_refl eq_refl)
    as (_ & _ & Calls & _).
  split; [exact Calls|reflexivity].
Defined.

(** [dispose] clears every pending timer and every entry: afterwards a
    timer that would have fired does nothing.  It leaves the cache and
    the analyses in flight as they are. *)
Theorem dispose_cancels_every_timer (ts : list Trigger) (h : nat) :
  let st := play newSession ts in
  let off := advance st Deactivate in
  pending (scheduler off) = []
  /\ debounceTimers (scheduler off) = []
  /\ advance off (TimerFires h) = off
  /\ world off = world st.
Proof.
  intros st off.
  assert (E : scheduler off = mkScheduler [] [] (nextHandle (scheduler st)))
    by exact (dispose_clears (proj1 (reached_sound ts))).
  split; [rewrite E; reflexivity|]. split; [rewrite E; reflexivity|].
  split; [|reflexivity].
  unfold advance at 1, fire.
  replace (pending (scheduler off)) with (@nil Timer)
    by (rewrite E; reflexivity).
  reflexivity.
Qed.

End SessionFacts.

(** ** Closing a file cancels nothing *)

Module ClosingFiles.
Import SymbolCacheOps EventLoop Debounce SessionLoop DebounceFacts JsMapFacts
       IndexFacts.

Lemma fire_recorded (sch : Scheduler) (f : string) (h : nat) :
  tidy sch -> JsMap.get f (debounceTimers sch) = Some h ->
  snd (fire sch h) = Some f.
Proof.
  intros (D & P & R) G. destruct (R f h G) as (t & Ht & Eh & Ef).
  unfold fire.
  destruct (find (fun u => Nat.eqb (handle u) h) (pending sch)) as [u|] eqn:E.
  - apply find_some in E. destruct E as [Hu Eu]. apply Nat.eqb_eq in Eu.
    assert (u = t)
      by (apply (@same_handle_same_timer _ u t D Hu Ht); congruence).
    subst u. simpl. congruence.
  - exfalso. pose proof (find_none _ _ E _ Ht) as X. simpl in X.
    rewrite Eh, Nat.eqb_refl in X. discriminate.
Qed.

Lemma resolve_running (w : World) (f : string) (r : AnalysisResult) :
  isRunning f w = true ->
  symbolCache (step w (Resolve f (Some r)))
  = fst (analyzeFile_resume (symbolCache w) f (Some r)).
Proof. intros R. simpl. rewrite R. reflexivity. Qed.

Lemma ingested_symbol_listed (s : SymbolCache) (f : string)
      (r : AnalysisResult) (sym : BismutSymbol) :
  coherent s -> In sym (symbols r) ->
  In sym (findSymbolsByName (ingest s f r) (name sym)).
Proof.
  intros H Hs.
  pose proof (proj2 (@coherent_rebuilt_lookup
                       (mkCache (cache (ingest s f r))
                                (nameIndex (ingest s f r))
                                (globalSymbols s) (diagnosticCollection s)
                                (analyzing s))
                       (name sym) (ingest_coherent f r H))) as L.
  change (findSymbolsByName (ingest s f r) (name sym)
          = unionOfFiles (name sym) (cache (ingest s f r))) in L.
  rewrite L. apply CacheQueries.unionOfFiles_member. exists f, r.
  split; [apply CacheQueries.set_member|]. split; [exact Hs|].
  unfold indexedUnder. rewrite String.eqb_refl. reflexivity.
Qed.

(** The close handler drops the file's result, symbols and diagnostics,
    and nothing else: the results and diagnostics of other files stay,
    and so do the file's analysis in flight and its pending timer.  So
    when that analysis resolves with a result, the closed file is back in
    the cache with its symbols listed by name; and when that timer
    fires, [analyzeFile] is called for the closed file. *)
Theorem close_cancels_nothing
        (ts : list Trigger) (f g : string) (h : nat)
        (r : AnalysisResult) (sym : BismutSymbol) :
  let st := play newSession ts in
  let closed := advance st (Immediate (Close f)) in
  let s' := symbolCache (world closed) in
  (getResult s' f = None /\ getSymbols s' f = []
   /\ JsMap.get f (diagnosticCollection s') = None)
  /\ (String.eqb f g = false ->
      getResult s' g = getResult (symbolCache (world st)) g
      /\ JsMap.get g (diagnosticCollection s')
         = JsMap.get g (diagnosticCollection (symbolCache (world st))))
  /\ (isRunning f (world st) = true ->
      let resolved := advance closed (Immediate (Resolve f (Some r))) in
      getResult (symbolCache (world resolved)) f = Some r
      /\ (In sym (symbols r) ->
          In sym (findSymbolsByName (symbolCache (world resolved)) (name sym))))
  /\ (JsMap.get f (debounceTimers (scheduler st)) = Some h ->
      debouncedCalls (advance closed (TimerFires h))
      = debouncedCalls st ++ [f]).
Proof.
  intros st closed s'.
  destruct (SessionFacts.reached_sound ts) as (T & C & W). fold st in T, C, W.
  split.
  { split; [apply get_delete_same|]. split.
    - unfold getSymbols. simpl. rewrite get_delete_same. reflexivity.
    - apply get_delete_same. }
  split.
  { intros N. unfold getResult. simpl.
    rewrite !get_delete_other by exact N. split; reflexivity. }
  split.
  { intros R resolved.
    assert (Rc : isRunning f (world closed) = true) by exact R.
    assert (E : symbolCache (world resolved)
                = fst (analyzeFile_resume s' f (Some r))).
    { exact (resolve_running (world closed) f r Rc). }
    rewrite E. split.
    - unfold getResult. simpl. apply get_set_same.
    - intros Hs.
      assert (Wc : Reachable.wellFormed s')
        by exact (@Reachable.step_wellFormed (world st) (Close f) W).
      exact (@ingested_symbol_listed s' f r sym (proj1 Wc) Hs). }
  intros G. unfold advance at 1.
  change (scheduler closed) with (scheduler st).
  pose proof (@fire_recorded (scheduler st) f h T G) as F.
  destruct (fire (scheduler st) h) as [sch [f'|]]; simpl in F;
    [|discriminate].
  injection F as ->. reflexivity.
Qed.

Definition resultWithF : AnalysisResult :=
  mkResult true "/w/a.mut" 0 0 []
           [mkSymbol "f" "function" "/w/a.mut" 1 1 "" "()" ""].

(** A keystroke and a save, then the file is closed; the analysis of the
    save resolves and the timer of the keystroke fires. *)
Lemma close_cancels_nothing_witness :
  getResult
    (symbolCache
       (world
          (play newSession
                [Typed "/w/a.mut" 800; Immediate (Request "/w/a.mut");
                 Immediate (Close "/w/a.mut");
                 Immediate (Resolve "/w/a.mut" (Some resultWithF))])))
    "/w/a.mut"
  = Some resultWithF
  /\ debouncedCalls
       (play newSession
             [Typed "/w/a.mut" 800; Immediate (Request "/w/a.mut");
              Immediate (Close "/w/a.mut"); TimerFires 1])
     = ["/w/a.mut"].
Proof.
  pose proof (@close_cancels_nothing
                [Typed "/w/a.mut" 800; Immediate (Request "/w/a.mut")]
                "/w/a.mut" "/w/b.mut" 1 resultWithF
                (mkSymbol "f" "function" "/w/a.mut" 1 1 "" "()" ""))
    as (_ & _ & A & B).
  split; [exact (proj1 (A eq_refl))|exact (B eq_refl)].
Defined.

End ClosingFiles.

(* ================================================================== *)
(** * What a hover shows *)

From Stdlib Require Import Permutation Sorted.

Module HoverPick.
Import SymbolCacheOps HoverProvider.

Local Open Scope Z_scope.

(** A symbol whose kind has a number in the comparator: the kind is not
    named like a member of [Object.prototype]. *)
Definition hasNumber (sym : BismutSymbol) : bool :=
  negb (existsb (String.eqb (kind sym)) JsObject.prototypeMembers).

Definition numbered (syms : list BismutSymbol) : Prop :=
  forall x, In x syms -> hasNumber x = true.

(** [a] has a priority number that is not greater than the one of [b],
    and one that is less. *)
Definition byPriority (a b : BismutSymbol) : Prop :=
  exists pa pb, priorityOf a = Some pa /\ priorityOf b = Some pb /\ pa <= pb.

Definition beforePriority (a b : BismutSymbol) : Prop :=
  exists pa pb, priorityOf a = Some pa /\ priorityOf b = Some pb /\ pa < pb.

(** The number of a kind that has one. *)
Definition rank (sym : BismutSymbol) : Z :=
  match priorityOf sym with
  | Some p => p
  | None => 0
  end.

Lemma own_priority_not_inherited (k : string) (p : Z) :
  JsMap.get k priority = Some p ->
  existsb (String.eqb k) JsObject.prototypeMembers = false.
Proof.
  unfold priority. simpl.
  repeat match goal with
         | |- context [String.eqb k ?c] =>
             destruct (String.eqb_spec k c) as [->|?]; [intros _; reflexivity|]
         end.
  discriminate.
Qed.

Lemma priorityOf_rank (x : BismutSymbol) :
  hasNumber x = true -> priorityOf x = Some (rank x).
Proof.
  unfold hasNumber, rank, priorityOf, JsObject.get.
  destruct (JsMap.get (kind x) priority); [reflexivity|].
  intros H. apply negb_true_iff in H. rewrite H. reflexivity.
Qed.

Lemma priorityOf_none (x : BismutSymbol) :
  hasNumber x = false -> priorityOf x = None.
Proof.
  unfold hasNumber, priorityOf, JsObject.get. intros H.
  apply negb_false_iff in H.
  destruct (JsMap.get (kind x) priority) as [p|] eqn:G.
  - apply own_priority_not_inherited in G. congruence.
  - rewrite H. reflexivity.
Qed.

Lemma comparePriority_rank (x y : BismutSymbol) :
  hasNumber x = true -> hasNumber y = true ->
  comparePriority x y = rank x - rank y.
Proof.
  intros Hx Hy. unfold comparePriority.
  rewrite (priorityOf_rank x Hx), (priorityOf_rank y Hy). reflexivity.
Qed.

Lemma insertByPriority_permutation (x : BismutSymbol)
      (sorted : list BismutSymbol) :
  Permutation (x :: sorted) (insertByPriority x sorted).
Proof.
  induction sorted as [|y rest IH]; simpl; [apply Permutation_refl|].
  destruct (comparePriority x y <? 0); [apply Permutation_refl|].
  eapply Permutation_trans; [apply perm_swap|]. apply perm_skip, IH.
Qed.

Lemma sortOnto_permutation (syms : list BismutSymbol) :
  forall sorted,
    Permutation (sorted ++ syms)
                (fold_left (fun sorted x => insertByPriority x sorted)
                           syms sorted).
Proof.
  induction syms as [|x rest IH]; intros sorted; simpl.
  - rewrite app_nil_r. apply Permutation_refl.
  - eapply Permutation_trans; [|apply IH].
    eapply Permutation_trans; [apply Permutation_sym, Permutation_middle|].
    change (x :: sorted ++ rest) with ((x :: sorted) ++ rest).
    apply Permutation_app_tail, insertByPriority_permutation.
Qed.

(** Whatever the kinds, the sort loses and adds no symbol. *)
Lemma sortByPriority_permutation (syms : list BismutSymbol) :
  Permutation syms (sortByPriority syms).
Proof. exact (sortOnto_permutation syms []). Qed.

Lemma insertByPriority_numbered (x : BismutSymbol)
      (sorted : list BismutSymbol) :
  hasNumber x = true -> numbered sorted ->
  numbered (insertByPriority x sorted).
Proof.
  intros Hx Hn y Hy.
  apply (Permutation_in _ (Permutation_sym
                             (insertByPriority_permutation x sorted))) in Hy.
  destruct Hy as [<-|Hy]; [exact Hx|exact (Hn y Hy)].
Qed.

Lemma insertByPriority_sorted (x : BismutSymbol) (sorted : list BismutSymbol) :
  hasNumber x = true -> numbered sorted ->
  Sorted (fun a b => rank a <= rank b) sorted ->
  Sorted (fun a b => rank a <= rank b) (insertByPriority x sorted).
Proof.
  intros Hx. induction sorted as [|y rest IH]; simpl; intros Hn S.
  - constructor; constructor.
  - assert (Hy : hasNumber y = true) by (apply Hn; left; reflexivity).
    assert (Hr : numbered rest) by (intros z Hz; apply Hn; right; exact Hz).
    rewrite (comparePriority_rank x y Hx Hy).
    destruct (rank x - rank y <? 0) eqn:L.
    + apply Z.ltb_lt in L. constructor; [exact S|]. constructor. lia.
    + apply Z.ltb_ge in L. inversion S as [|? ? Sr Hd]; subst.
      constructor; [exact (IH Hr Sr)|].
      destruct rest as [|z more]; simpl.
      * constructor. lia.
      * destruct (comparePriority x z <? 0); constructor;
          [lia|inversion Hd; assumption].
Qed.

Lemma sortByPriority_sorted (syms : list BismutSymbol) :
  numbered syms ->
  Sorted (fun a b => rank a <= rank b) (sortByPriority syms)
  /\ numbered (sortByPriority syms).
Proof.
  unfold sortByPriority.
  assert (G : forall sorted,
             numbered syms -> numbered sorted ->
             Sorted (fun a b => rank a <= rank b) sorted ->
             Sorted (fun a b => rank a <= rank b)
                    (fold_left (fun sorted x => insertByPriority x sorted)
                               syms sorted)
             /\ numbered (fold_left (fun sorted x => insertByPriority x sorted)
                                    syms sorted)).
  { induction syms as [|x rest IH]; intros sorted Hn Hs S; simpl;
      [split; assumption|].
    assert (Hx : hasNumber x = true) by (apply Hn; left; reflexivity).
    apply IH.
    - intros z Hz. apply Hn. right. exact Hz.
    - apply insertByPriority_numbered; assumption.
    - apply insertByPriority_sorted; assumption. }
  intros Hn. apply G; [exact Hn|intros x []|constructor].
Qed.

Lemma sorted_byPriority (syms : list BismutSymbol) :
  numbered syms ->
  Sorted (fun a b => rank a <= rank b) syms -> Sorted byPriority syms.
Proof.
  induction syms as [|x rest IH]; intros Hn S; [constructor|].
  inversion S as [|? ? Sr Hd]; subst.
  assert (Hx : hasNumber x = true) by (apply Hn; left; reflexivity).
  assert (Hr : numbered rest) by (intros z Hz; apply Hn; right; exact Hz).
  constructor; [exact (IH Hr Sr)|].
  destruct rest as [|y more]; constructor.
  inversion Hd as [|? ? Le]; subst.
  exists (rank x), (rank y).
  split; [exact (priorityOf_rank x Hx)|].
  split; [apply priorityOf_rank, Hr; left; reflexivity|exact Le].
Qed.

(** The head of the sorted candidates is the first of the candidates of
    least priority number. *)
Lemma sortByPriority_head (syms : list BismutSymbol) :
  numbered syms ->
  match sortByPriority syms with
  | [] => syms = []
  | best :: _ =>
      exists before after,
        syms = before ++ best :: after
        /\ (forall x, In x before -> rank best < rank x)
        /\ (forall x, In x after -> rank best <= rank x)
  end.
Proof.
  unfold sortByPriority.
  induction syms as [|x syms IH] using rev_ind; [reflexivity|].
  intros Hn.
  assert (Hx : hasNumber x = true)
    by (apply Hn, in_or_app; right; left; reflexivity).
  assert (Hs : numbered syms)
    by (intros z Hz; apply Hn, in_or_app; left; exact Hz).
  specialize (IH Hs).
  rewrite fold_left_app. simpl.
  destruct (fold_left (fun sorted y => insertByPriority y sorted) syms [])
    as [|best rest]; simpl.
  - subst syms. exists [], []. split; [reflexivity|]. split; intros y [].
  - destruct IH as (before & after & E & Hb & Ha).
    assert (Hbest : hasNumber best = true)
      by (apply Hs; rewrite E; apply in_or_app; right; left; reflexivity).
    rewrite (comparePriority_rank x best Hx Hbest).
    destruct (rank x - rank best <? 0) eqn:L.
    + apply Z.ltb_lt in L. exists syms, []. split; [reflexivity|].
      split; [|intros y []]. intros y Hy. rewrite E in Hy.
      apply in_app_or in Hy. destruct Hy as [Hy|[<-|Hy]].
      * specialize (Hb y Hy). lia.
      * lia.
      * specialize (Ha y Hy). lia.
    + apply Z.ltb_ge in L. exists before, (after ++ [x]).
      rewrite E, <- app_assoc. split; [reflexivity|]. split; [exact Hb|].
      intros y Hy. apply in_app_or in Hy. destruct Hy as [Hy|[<-|[]]].
      * exact (Ha y Hy).
      * lia.
Qed.

(** *** Which entry of the index a hover sorts *)

Lemma provideHover_none (s : SymbolCache) (filePath : string)
      (dotMatch : option string) (word : string) :
  hoveredName s filePath dotMatch word = None ->
  provideHover s filePath dotMatch word = (s, None).
Proof. intros H. unfold provideHover. rewrite H. reflexivity. Qed.

Lemma provideHover_some (s : SymbolCache) (filePath : string)
      (dotMatch : option string) (word key : string) :
  hoveredName s filePath dotMatch word = Some key ->
  let s' := fst (provideHover s filePath dotMatch word) in
  snd (provideHover s filePath dotMatch word)
  = hd_error (sortByPriority (findSymbolsByName s key))
  /\ findSymbolsByName s' key = sortByPriority (findSymbolsByName s key)
  /\ (forall other, key <> other ->
        findSymbolsByName s' other = findSymbolsByName s other)
  /\ cache s' = cache s.
Proof.
  intros H. unfold provideHover. rewrite H. simpl.
  unfold findSymbolsByName. simpl.
  split; [reflexivity|]. split.
  - rewrite JsMapFacts.get_or_nil_set, String.eqb_refl. reflexivity.
  - split; [|reflexivity]. intros other N.
    rewrite JsMapFacts.get_or_nil_set.
    destruct (String.eqb_spec key other) as [E|_]; [contradiction|reflexivity].
Qed.

(** The candidates stored under an optional name. *)
Definition storedUnder (s : SymbolCache) (key : option string)
  : list BismutSymbol :=
  match key with
  | Some k => findSymbolsByName s k
  | None => []
  end.

(** [hoveredName] is the first of the three names that has candidates. *)
Lemma hoveredName_tried (s : SymbolCache) (filePath : string)
      (dotMatch : option string) (word : string) :
  let typed :=
    match dotMatch with
    | Some identifier =>
        option_map (fun T => String.append T (String.append "." word))
                   (findVariableType s filePath identifier)
    | None => None
    end in
  let named :=
    option_map (fun identifier =>
                  String.append identifier (String.append "." word))
               dotMatch in
  hoveredName s filePath dotMatch word
  = match storedUnder s typed with
    | _ :: _ => typed
    | [] =>
        match storedUnder s named with
        | _ :: _ => named
        | [] =>
            match findSymbolsByName s word with
            | _ :: _ => Some word
            | [] => None
            end
        end
    end.
Proof.
  unfold hoveredName, listedUnder, storedUnder, DefinitionProvider.dotted.
  destruct dotMatch as [identifier|]; simpl; [|reflexivity].
  destruct (findVariableType s filePath identifier) as [T|]; simpl;
    repeat match goal with
           | |- context [findSymbolsByName s ?k] =>
               destruct (findSymbolsByName s k)
           end;
    reflexivity.
Qed.

Lemma tried_cases (s : SymbolCache) (typed named : option string)
      (word : string) :
  let key :=
    match storedUnder s typed with
    | _ :: _ => typed
    | [] => match storedUnder s named with
            | _ :: _ => named
            | [] => Some word
            end
    end in
  let tried :=
    match storedUnder s typed with
    | _ :: _ => typed
    | [] =>
        match storedUnder s named with
        | _ :: _ => named
        | [] =>
            match findSymbolsByName s word with
            | _ :: _ => Some word
            | [] => None
            end
        end
    end in
  (tried = None /\ storedUnder s key = []
   /\ storedUnder s typed = [] /\ storedUnder s named = []
   /\ findSymbolsByName s word = [])
  \/ (exists k, tried = Some k /\ key = Some k /\ storedUnder s key <> []
                /\ ~ (storedUnder s typed = [] /\ storedUnder s named = []
                      /\ findSymbolsByName s word = [])).
Proof.
  cbv zeta.
  destruct (storedUnder s typed) as [|a1 l1] eqn:Et.
  - destruct (storedUnder s named) as [|a2 l2] eqn:En.
    + simpl. destruct (findSymbolsByName s word) as [|a3 l3] eqn:Ew.
      * left. repeat split; reflexivity.
      * right. exists word. split; [reflexivity|]. split; [reflexivity|].
        split; [discriminate|]. intros (_ & _ & F). discriminate F.
    + right. destruct named as [n|]; [|discriminate En]. exists n.
      split; [reflexivity|]. split; [reflexivity|].
      split; [rewrite En; discriminate|]. intros (_ & F & _). discriminate F.
  - right. destruct typed as [t|]; [|discriminate Et]. exists t.
    split; [reflexivity|]. split; [reflexivity|].
    split; [rewrite Et; discriminate|]. intros (F & _). discriminate F.
Qed.

(** A hover tries three names in turn: [T.word] for the type [T] that
    [findVariableType] gives for the identifier in front of the dot,
    [identifier.word], and [word]; it settles on the first that has
    candidates and shows nothing exactly when none has.  The candidates
    of the name it settled on are sorted where the index stores them:
    whatever their kinds, the index holds the same candidates afterwards,
    and the candidates of every other name as before.  When the kinds of
    the candidates all have a priority number (function 1, ..., parameter
    12, any kind that is no property of an object 99), the stored
    candidates are then in the order of their numbers, and the hover
    shows the first candidate of least number. *)
Theorem hover_shows_first_of_least_priority
        (s : SymbolCache) (filePath : string) (dotMatch : option string)
        (word : string) :
  let typed :=
    match dotMatch with
    | Some identifier =>
        option_map (fun T => String.append T (String.append "." word))
                   (findVariableType s filePath identifier)
    | None => None
    end in
  let named :=
    option_map (fun identifier =>
                  String.append identifier (String.append "." word))
               dotMatch in
  let key :=
    match storedUnder s typed with
    | _ :: _ => typed
    | [] => match storedUnder s named with
            | _ :: _ => named
            | [] => Some word
            end
    end in
  let candidates := storedUnder s key in
  let shown := snd (provideHover s filePath dotMatch word) in
  let s' := fst (provideHover s filePath dotMatch word) in
  (shown = None
   <-> storedUnder s typed = [] /\ storedUnder s named = []
       /\ findSymbolsByName s word = [])
  /\ Permutation candidates (storedUnder s' key)
  /\ (forall other, key <> Some other ->
        findSymbolsByName s' other = findSymbolsByName s other)
  /\ (numbered candidates ->
      Sorted byPriority (storedUnder s' key)
      /\ match candidates with
         | [] => shown = None
         | _ :: _ =>
             exists best before after,
               shown = Some best
               /\ candidates = before ++ best :: after
               /\ (forall x, In x before -> beforePriority best x)
               /\ (forall x, In x after -> byPriority best x)
         end).
Proof.
  intros typed named key candidates shown s'.
  pose proof (hoveredName_tried s filePath dotMatch word) as Tried.
  cbv zeta in Tried. fold typed named in Tried.
  pose proof (tried_cases s typed named word) as Cases.
  cbv zeta in Cases. rewrite <- Tried in Cases. fold key in Cases.
  fold candidates in Cases.
  destruct Cases as [(Hn & Ec & Et & En & Ew)|(k & Hk & Ek & Ne & Some3)].
  - pose proof (provideHover_none s filePath dotMatch word Hn) as P.
    unfold shown, s'. rewrite P. simpl. fold candidates. rewrite Ec.
    split; [split; [intros _; repeat split; assumption|reflexivity]|].
    split; [apply Permutation_refl|]. split; [reflexivity|].
    intros _. split; [rewrite <- Ec; unfold candidates|reflexivity].
    fold candidates. rewrite Ec. constructor.
  - destruct (provideHover_some s filePath dotMatch word Hk)
      as (Sh & St & Ot & _).
    fold shown in Sh. fold s' in St, Ot.
    assert (C : candidates = findSymbolsByName s k)
      by (unfold candidates; rewrite Ek; reflexivity).
    assert (S' : storedUnder s' key
                 = sortByPriority (findSymbolsByName s k))
      by (rewrite Ek; exact St).
    split.
    { split; [|intros F; contradiction].
      intros Z. exfalso. rewrite Sh in Z.
      pose proof (sortByPriority_permutation (findSymbolsByName s k)) as Pm.
      destruct (sortByPriority (findSymbolsByName s k)); [|discriminate].
      apply Permutation_sym, Permutation_nil in Pm.
      apply Ne. rewrite C. exact Pm. }
    split; [rewrite S', C; apply sortByPriority_permutation|].
    split.
    { intros other N. apply Ot. intros E. apply N. rewrite Ek, E.
      reflexivity. }
    intros Num. rewrite S'. rewrite C in Num.
    destruct (sortByPriority_sorted Num) as [Srt Nsrt].
    split; [exact (sorted_byPriority Nsrt Srt)|].
    pose proof (sortByPriority_head Num) as Hd. rewrite Sh.
    destruct candidates as [|c0 more] eqn:Cs; [contradiction|].
    destruct (sortByPriority (findSymbolsByName s k)) as [|best rest].
    { rewrite <- C in Hd. discriminate. }
    destruct Hd as (before & after & Hs & Hb & Ha).
    assert (Nb : hasNumber best = true)
      by (apply Num; rewrite Hs; apply in_or_app; right; left; reflexivity).
    exists best, before, after. split; [reflexivity|].
    split; [rewrite C; exact Hs|]. split.
    + intros x Hx. exists (rank best), (rank x).
      split; [exact (priorityOf_rank best Nb)|].
      split; [|exact (Hb x Hx)].
      apply priorityOf_rank, Num. rewrite Hs. apply in_or_app. left. exact Hx.
    + intros x Hx. exists (rank best), (rank x).
      split; [exact (priorityOf_rank best Nb)|].
      split; [|exact (Ha x Hx)].
      apply priorityOf_rank, Num. rewrite Hs. apply in_or_app. right. right.
      exact Hx.
Qed.

Definition parameterN : BismutSymbol :=
  mkSymbol "f.n" "parameter" "/w/a.mut" 1 7 "" "i64" "f".

Definition variableN : BismutSymbol :=
  mkSymbol "n" "variable" "/w/a.mut" 3 1 "" "i64" "".

Definition constantN : BismutSymbol :=
  mkSymbol "n" "constant" "/w/a.mut" 5 7 "" "i64" "".

Definition threeNamedN : SymbolCache :=
  ingest newSymbolCache "/w/a.mut"
         (mkResult true "/w/a.mut" 0 0 [] [parameterN; variableN; constantN]).

(** A parameter, a variable and a constant named [n]: the hover shows
    the constant and leaves the three stored in the order constant,
    variable, parameter. *)
Lemma hover_shows_first_of_least_priority_witness :
  numbered (findSymbolsByName threeNamedN "n")
  /\ Sorted byPriority
            (findSymbolsByName
               (fst (provideHover threeNamedN "/w/a.mut" None "n")) "n")
  /\ snd (provideHover threeNamedN "/w/a.mut" None "n") = Some constantN
  /\ findSymbolsByName (fst (provideHover threeNamedN "/w/a.mut" None "n")) "n"
     = [constantN; variableN; parameterN].
Proof.
  assert (Num : numbered (findSymbolsByName threeNamedN "n")).
  { intros x Hx. simpl in Hx.
    repeat (destruct Hx as [<-|Hx]; [reflexivity|]). contradiction. }
  pose proof (@hover_shows_first_of_least_priority
                threeNamedN "/w/a.mut" None "n") as (_ & _ & _ & P).
  split; [exact Num|]. split; [exact (proj1 (P Num))|].
  split; reflexivity.
Defined.

End HoverPick.

(* ================================================================== *)
(** * The stored order of the candidates across a session *)

Module StoredOrder.
Import SymbolCacheOps EventLoop IndexFacts HoverProvider.

Definition isHover (e : Event) : bool :=
  match e with
  | Hover _ _ _ => true
  | _ => false
  end.

(** The index stores under every name the symbols discovered under it,
    in some order; and in the order of discovery. *)
Definition permuted (s : SymbolCache) : Prop :=
  forall nm,
    Permutation (findSymbolsByName s nm) (unionOfFiles nm (cache s)).

Definition inDiscoveryOrder (s : SymbolCache) : Prop :=
  forall nm, findSymbolsByName s nm = unionOfFiles nm (cache s).

Lemma inDiscoveryOrder_permuted (s : SymbolCache) :
  inDiscoveryOrder s -> permuted s.
Proof. intros H nm. rewrite (H nm). apply Permutation_refl. Qed.

Lemma ingest_inDiscoveryOrder (s : SymbolCache) (f : string)
      (r : AnalysisResult) :
  coherent s -> inDiscoveryOrder (ingest s f r).
Proof.
  intros H nm.
  pose proof (@coherent_rebuilt_lookup
                (mkCache (cache (ingest s f r)) (nameIndex (ingest s f r))
                         (globalSymbols s) (diagnosticCollection s)
                         (analyzing s))
                nm (ingest_coherent f r H)) as [_ L].
  exact L.
Qed.

Lemma close_inDiscoveryOrder (s : SymbolCache) (f : string) :
  coherent s -> inDiscoveryOrder (Extension.onDidCloseTextDocument s f).
Proof.
  intros H nm.
  pose proof (@coherent_rebuilt_lookup
                (mkCache (cache (clearFile s f)) (nameIndex (clearFile s f))
                         (globalSymbols s) (diagnosticCollection s)
                         (analyzing s))
                nm (clearFile_coherent f H)) as [_ L].
  exact L.
Qed.

Lemma hover_permutes (s : SymbolCache) (filePath : string)
      (dotMatch : option string) (word nm : string) :
  let s' := fst (provideHover s filePath dotMatch word) in
  Permutation (findSymbolsByName s nm) (findSymbolsByName s' nm)
  /\ cache s' = cache s.
Proof.
  destruct (hoveredName s filePath dotMatch word) as [key|] eqn:H.
  - destruct (HoverPick.provideHover_some s filePath dotMatch word H)
      as (_ & St & Ot & Ec).
    split; [|exact Ec].
    destruct (String.eqb_spec key nm) as [<-|N].
    + rewrite St. apply HoverPick.sortByPriority_permutation.
    + rewrite (Ot nm N). apply Permutation_refl.
  - rewrite (HoverPick.provideHover_none s filePath dotMatch word H).
    split; [apply Permutation_refl|reflexivity].
Qed.

(** What every step keeps: the per-file indices are those of the cached
    results, and the index stores the discovered symbols in some
    order. *)
Definition settled (w : World) : Prop :=
  Reachable.wellFormed (symbolCache w) /\ permuted (symbolCache w).

Lemma step_settled (w : World) (e : Event) :
  settled w -> settled (step w e).
Proof.
  intros [W P]. split; [exact (Reachable.step_wellFormed w e W)|].
  destruct W as [C _].
  destruct e as [f|f result|f|f dotMatch word].
  - simpl. unfold analyzeFile_enter.
    destruct (JsSet.has f (analyzing (symbolCache w))); exact P.
  - simpl. destruct (isRunning f w); [|exact P].
    destruct result as [r|]; [|exact P].
    intros nm. pose proof (ingest_inDiscoveryOrder f r C nm) as L.
    change (findSymbolsByName (ingest (symbolCache w) f r) nm
            = unionOfFiles nm (cache (ingest (symbolCache w) f r))) in L.
    simpl. unfold findSymbolsByName in *. simpl in *. rewrite L.
    apply Permutation_refl.
  - intros nm. simpl.
    rewrite (close_inDiscoveryOrder f C nm). apply Permutation_refl.
  - intros nm. simpl.
    destruct (hover_permutes (symbolCache w) f dotMatch word nm) as [Pm Ec].
    rewrite Ec. eapply Permutation_trans; [apply Permutation_sym, Pm|].
    exact (P nm).
Qed.

Lemma run_settled (es : list Event) :
  forall w, settled w -> settled (run w es).
Proof.
  unfold run. induction es as [|e rest IH]; intros w H; simpl; [exact H|].
  apply IH, step_settled, H.
Qed.

Lemma initialWorld_settled : settled initialWorld.
Proof.
  split; [split; [reflexivity|constructor]|].
  intros nm. apply Permutation_refl.
Qed.

(** Without a hover, the stored order is the order of discovery. *)
Lemma run_without_hover (es : list Event) :
  forall w,
    Reachable.wellFormed (symbolCache w) ->
    inDiscoveryOrder (symbolCache w) ->
    existsb isHover es = false ->
    inDiscoveryOrder (symbolCache (run w es)).
Proof.
  unfold run. induction es as [|e rest IH]; intros w W D N; simpl;
    [exact D|].
  simpl in N. apply orb_false_iff in N. destruct N as [Ne Nr].
  apply IH; [exact (Reachable.step_wellFormed w e W)| |exact Nr].
  destruct W as [C _].
  destruct e as [f|f result|f|f dotMatch word]; [| | |discriminate].
  - simpl. unfold analyzeFile_enter.
    destruct (JsSet.has f (analyzing (symbolCache w))); exact D.
  - simpl. destruct (isRunning f w); [|exact D].
    destruct result as [r|]; [|exact D].
    intros nm. exact (ingest_inDiscoveryOrder f r C nm).
  - intros nm. simpl. exact (close_inDiscoveryOrder f C nm).
Qed.

(** In every state a session reaches, the index stores under a name
    exactly the symbols that the cached results list under that full or
    simple name, though not always in the order of discovery: a hover
    reorders the candidates of a name, losing and adding none, and
    leaves the cache alone.  In a session without a hover the stored
    order is the order of discovery, and whatever was hovered, it is
    again right after the next result is ingested or a document is
    closed. *)
Theorem stored_candidates_permute_discovery_order
        (es : list Event) (nm f : string) (dotMatch : option string)
        (word : string) (r : AnalysisResult) :
  let w := run initialWorld es in
  let s := symbolCache w in
  let hovered := symbolCache (step w (Hover f dotMatch word)) in
  Permutation (findSymbolsByName s nm) (unionOfFiles nm (cache s))
  /\ (existsb isHover es = false ->
      findSymbolsByName s nm = unionOfFiles nm (cache s))
  /\ (Permutation (findSymbolsByName s nm) (findSymbolsByName hovered nm)
      /\ cache hovered = cache s)
  /\ findSymbolsByName (ingest s f r) nm
     = unionOfFiles nm (cache (ingest s f r))
  /\ findSymbolsByName (symbolCache (step w (Close f))) nm
     = unionOfFiles nm (cache (symbolCache (step w (Close f)))).
Proof.
  intros w s hovered.
  destruct (run_settled es initialWorld_settled) as [[C D] P].
  fold w in C, D, P. fold s in C, D, P.
  split; [exact (P nm)|]. split.
  { intros N.
    exact (@run_without_hover es initialWorld
             (conj (eq_refl : coherent newSymbolCache) (NoDup_nil _))
             (fun _ => eq_refl) N nm). }
  split; [exact (hover_permutes s f dotMatch word nm)|].
  split; [exact (ingest_inDiscoveryOrder f r C nm)|].
  exact (close_inDiscoveryOrder f C nm).
Qed.

End StoredOrder.

(* ================================================================== *)
(** * Go to definition: the location *)

Module DefinitionLocation.
Import SymbolCacheOps DefinitionProvider.

Local Open Scope Z_scope.

(** A symbol the editor can be sent to: it names a file and a line from
    1 on. *)
Definition located (sym : BismutSymbol) : bool :=
  JsString.truthy (file sym) && (0 <? line sym).

(** [provideDefinition] answers with a location exactly when the symbol
    it settled on is located; the location is then in the symbol's file,
    one line and one column up, and never negative.  A symbol that is not
    located ends the search: the later resolution steps are not tried in
    its place.  Without a dot in front of the word, the symbol is the
    definition of the word alone. *)
Theorem provideDefinition_location
        (s : SymbolCache) (filePath : string) (dotMatch : option string)
        (word identifier : string) :
  match provideDefinition s filePath dotMatch word with
  | Some loc =>
      exists sym,
        resolveSymbol s filePath dotMatch word = Some sym
        /\ located sym = true
        /\ loc = mkLocation (file sym) (line sym - 1) (Z.max 0 (col sym - 1))
        /\ 0 <= loc_line loc /\ 0 <= loc_character loc
  | None =>
      match resolveSymbol s filePath dotMatch word with
      | Some sym => located sym = false
      | None => findSymbolsByName s word = []
      end
  end
  /\ resolveSymbol s filePath None word = findDefinition s word
  /\ (forall sym,
        DottedResolution.viaDeclaredType s filePath identifier word = Some sym ->
        located sym = false ->
        provideDefinition s filePath (Some identifier) word = None).
Proof.
  assert (L : forall sym,
             negb (JsString.truthy (file sym)) || (line sym <=? 0)
             = negb (located sym)).
  { intros sym. unfold located.
    rewrite negb_andb. f_equal.
    destruct (Z.leb_spec (line sym) 0), (Z.ltb_spec 0 (line sym));
      try reflexivity; lia. }
  split; [|split].
  - unfold provideDefinition.
    destruct (resolveSymbol s filePath dotMatch word) as [sym|] eqn:R.
    + rewrite L. destruct (located sym) eqn:Lo; simpl; [|reflexivity].
      exists sym. split; [reflexivity|]. split; [exact Lo|].
      split; [reflexivity|]. simpl.
      unfold located in Lo. apply andb_true_iff in Lo.
      destruct Lo as [_ Lo]. apply Z.ltb_lt in Lo. lia.
    + unfold resolveSymbol in R.
      destruct (findDefinition s word) eqn:F.
      * destruct dotMatch as [p|]; [|discriminate].
        destruct (match findVariableType s filePath p with
                  | Some parentType => findDefinition s (dotted parentType word)
                  | None => None
                  end); [discriminate|].
        destruct (findDefinition s (dotted p word)); discriminate.
      * unfold findDefinition in F.
        destruct (findSymbolsByName s word); [reflexivity|].
        destruct (firstDefinition (b :: l)); discriminate.
  - reflexivity.
  - intros sym V Lo. unfold provideDefinition, resolveSymbol, dotted.
    unfold DottedResolution.viaDeclaredType in V.
    destruct (findVariableType s filePath identifier) as [T|];
      [|discriminate].
    rewrite V, L, Lo. reflexivity.
Qed.

End DefinitionLocation.

(* ================================================================== *)
(** * Find references: the search pattern ([escapeRegex]) *)

Module References.

Local Open Scope char_scope.

(** The characters of the class [[.*+?^${}()|[\]\\]]. *)
Definition specialCharacters : list ascii :=
  ["."; "*"; "+"; "?"; "^"; "$"; "{"; "}"; "("; ")"; "|"; "["; "]"; "\"].

Definition isSpecial (c : ascii) : bool :=
  existsb (Ascii.eqb c) specialCharacters.

(** [str.replace(/[.*+?^${}()|[\]\\]/g, '\\$&')]: a backslash in front
    of every special character. *)
Fixpoint escapeRegex (str : string) : string :=
  match str with
  | EmptyString => EmptyString
  | String c rest =>
      if isSpecial c then String "\" (String c (escapeRegex rest))
      else String c (escapeRegex rest)
  end.

(** The text a pattern stands for when it has no operator: a backslash
    makes the special character after it stand for itself (in front of
    another character it would form a class or an assertion), any other
    character that is not special stands for itself, and a special
    character that is not escaped is an operator. *)
Fixpoint literalOf (pattern : string) : option string :=
  match pattern with
  | EmptyString => Some EmptyString
  | String c rest =>
      if Ascii.eqb c "\" then
        match rest with
        | EmptyString => None
        | String c' rest' =>
            if isSpecial c' then option_map (String c') (literalOf rest')
            else None
        end
      else if isSpecial c then None
      else option_map (String c) (literalOf rest)
  end.

(** A character of an identifier: a letter, a digit or an underscore. *)
Definition isWordCharacter (c : ascii) : bool :=
  let n := nat_of_ascii c in
  ((65 <=? n) && (n <=? 90) || (97 <=? n) && (n <=? 122)
   || (48 <=? n) && (n <=? 57) || (n =? 95))%nat.

Fixpoint isWord (s : string) : bool :=
  match s with
  | EmptyString => true
  | String c rest => isWordCharacter c && isWord rest
  end.

Lemma word_character_not_special (c : ascii) :
  isWordCharacter c = true -> isSpecial c = false.
Proof.
  destruct c as [[] [] [] [] [] [] [] []]; vm_compute; congruence.
Qed.

Lemma backslash_special : isSpecial "\" = true.
Proof. reflexivity. Qed.

(** The escaped string, read as a pattern, has no operator, escapes
    special characters only and stands for the string itself; and a word,
    the only thing the reference search escapes, is left as it is. *)
Theorem escapeRegex_stands_for_itself (str : string) :
  literalOf (escapeRegex str) = Some str
  /\ (isWord str = true -> escapeRegex str = str).
Proof.
  split.
  - induction str as [|c rest IH]; simpl; [reflexivity|].
    destruct (isSpecial c) eqn:S; simpl.
    + rewrite S, IH. reflexivity.
    + destruct (Ascii.eqb_spec c "\") as [->|_].
      * rewrite backslash_special in S. discriminate.
      * rewrite S, IH. reflexivity.
  - induction str as [|c rest IH]; simpl; [reflexivity|].
    intros W. apply andb_true_iff in W. destruct W as [Wc Wr].
    rewrite (word_character_not_special _ Wc), (IH Wr). reflexivity.
Qed.

End References.

(* ================================================================== *)
(** * General completion ([provideGeneralCompletion]) *)

(** An item of the general list: a keyword, a builtin type, a builtin
    function, or the item of a symbol. *)
Inductive BuiltinKind : Type :=
| BkKeyword
| BkTypeParameter
| BkFunction.

Inductive GeneralItem : Type :=
| Builtin (text : string) (k : BuiltinKind)
| OfSymbol (item : CompletionItem).

Module GeneralCompletion.
Import SymbolCacheOps CompletionProvider.

Definition KEYWORDS : list string :=
  ["def"; "end"; "class"; "struct"; "interface"; "enum"; "import"; "extern";
   "if"; "elif"; "else"; "while"; "for"; "in"; "return"; "break"; "continue";
   "const"; "static"; "not"; "and"; "or"; "is"; "as"; "self";
   "True"; "False"; "None"].

Definition BUILTIN_TYPES : list string :=
  ["i8"; "i16"; "i32"; "i64"; "u8"; "u16"; "u32"; "u64";
   "f32"; "f64"; "bool"; "str"; "void"; "List"; "Dict"; "Fn"].

Definition BUILTIN_FUNCTIONS : list string :=
  ["print"; "format"; "len"; "append"; "get"; "set"; "put";
   "lookup"; "has"; "keys"; "range"].

Definition builtinItems : list GeneralItem :=
  map (fun kw => Builtin kw BkKeyword) KEYWORDS
  ++ map (fun ty => Builtin ty BkTypeParameter) BUILTIN_TYPES
  ++ map (fun fn => Builtin fn BkFunction) BUILTIN_FUNCTIONS.

(** [s.includes('__')] *)
Fixpoint includesDoubleUnderscore (s : string) : bool :=
  match s with
  | EmptyString => false
  | String c rest =>
      match rest with
      | String c' _ =>
          if Ascii.eqb c "_" && Ascii.eqb c' "_" then true
          else includesDoubleUnderscore rest
      | EmptyString => false
      end
  end.

(** [sym.parent && sym.kind !== 'function']: a member, left to the
    completion after a dot. *)
Definition isMember (sym : BismutSymbol) : bool :=
  JsString.truthy (parent sym) && negb (String.eqb (kind sym) "function").

(** One iteration of the loop over the symbols: the pair is
    [(items, seen)]. *)
Definition offerSymbol (acc : list CompletionItem * JsSet.t)
           (sym : BismutSymbol) : list CompletionItem * JsSet.t :=
  let simpleName := JsString.simpleNameOf (name sym) in
  if isMember sym then acc
  else if JsSet.has simpleName (snd acc) then acc
  else
    let seen := JsSet.add simpleName (snd acc) in
    if includesDoubleUnderscore simpleName then (fst acc, seen)
    else (fst acc ++ [symbolToCompletionItem sym], seen).

Definition symbolItems (syms : list BismutSymbol) : list CompletionItem :=
  fst (fold_left offerSymbol syms ([], JsSet.empty)).

Definition provideGeneralCompletion (s : SymbolCache) (filePath : string)
  : list GeneralItem :=
  builtinItems ++ map OfSymbol (symbolItems (getSymbols s filePath)).

End GeneralCompletion.

Module GeneralCompletionFacts.
Import SymbolCacheOps CompletionProvider GeneralCompletion.

Definition simpleOf (sym : BismutSymbol) : string :=
  JsString.simpleNameOf (name sym).

(** A symbol the loop may list: not a member, and not mangled. *)
Definition offered (sym : BismutSymbol) : bool :=
  negb (isMember sym) && negb (includesDoubleUnderscore (simpleOf sym)).

(** What the loop holds after it went through [done]. *)
Definition looped (done : list BismutSymbol)
           (acc : list CompletionItem * JsSet.t) : Prop :=
  NoDup (map label (fst acc))
  /\ (forall n, In n (snd acc)
                <-> exists sym, In sym done /\ isMember sym = false
                                /\ simpleOf sym = n)
  /\ (forall item, In item (fst acc) ->
        exists sym, In sym done /\ offered sym = true
                    /\ item = symbolToCompletionItem sym)
  /\ (forall sym, In sym done -> offered sym = true ->
        exists item, In item (fst acc) /\ label item = simpleOf sym).

Lemma has_In (k : string) (s : JsSet.t) : JsSet.has k s = true <-> In k s.
Proof.
  unfold JsSet.has. rewrite existsb_exists. split.
  - intros (x & Hx & E). apply String.eqb_eq in E. subst. exact Hx.
  - intros H. exists k. split; [exact H|apply String.eqb_refl].
Qed.

Lemma add_In (k n : string) (s : JsSet.t) :
  In n (JsSet.add k s) <-> n = k \/ In n s.
Proof.
  unfold JsSet.add. destruct (JsSet.has k s) eqn:H.
  - apply has_In in H. split; [tauto|]. intros [->|I]; assumption.
  - rewrite in_app_iff. simpl. intuition congruence.
Qed.

Lemma loop_keeps_looped (syms : list BismutSymbol) :
  looped syms (fold_left offerSymbol syms ([], JsSet.empty)).
Proof.
  induction syms as [|sym done IH] using rev_ind.
  - split; [constructor|]. split; [|split].
    + intros n. split; [intros []|intros (x & [] & _)].
    + intros item [].
    + intros x [].
  - rewrite fold_left_app. simpl.
    destruct (fold_left offerSymbol done ([], JsSet.empty)) as [items seen].
    destruct IH as (D & S & I & C). simpl in D, S, I, C.
    assert (Old : forall x, In x done -> In x (done ++ [sym]))
      by (intros x Hx; apply in_or_app; left; exact Hx).
    assert (New : In sym (done ++ [sym]))
      by (apply in_or_app; right; left; reflexivity).
    unfold offerSymbol. cbn [fst snd]. fold (simpleOf sym).
    destruct (isMember sym) eqn:M;
      [|destruct (JsSet.has (simpleOf sym) seen) eqn:H;
        [|destruct (includesDoubleUnderscore (simpleOf sym)) eqn:U]];
      unfold looped; cbn [fst snd].
    + (* a member *)
      split; [exact D|]. split; [|split].
      * intros n. rewrite S. split.
        -- intros (x & Hx & R). exists x. split; [exact (Old x Hx)|exact R].
        -- intros (x & Hx & Mx & Ex). apply in_app_or in Hx.
           destruct Hx as [Hx|[<-|[]]]; [exists x; tauto|congruence].
      * intros item Hi. destruct (I item Hi) as (x & Hx & R).
        exists x. split; [exact (Old x Hx)|exact R].
      * intros x Hx Ox. apply in_app_or in Hx.
        destruct Hx as [Hx|[<-|[]]]; [exact (C x Hx Ox)|].
        unfold offered in Ox. rewrite M in Ox. discriminate.
    + (* seen already *)
      apply has_In in H.
      split; [exact D|]. split; [|split].
      * intros n. rewrite S. split.
        -- intros (x & Hx & R). exists x. split; [exact (Old x Hx)|exact R].
        -- intros (x & Hx & Mx & Ex). apply in_app_or in Hx.
           destruct Hx as [Hx|[<-|[]]]; [exists x; tauto|].
           apply S. rewrite <- Ex. exact H.
      * intros item Hi. destruct (I item Hi) as (x & Hx & R).
        exists x. split; [exact (Old x Hx)|exact R].
      * intros x Hx Ox. apply in_app_or in Hx.
        destruct Hx as [Hx|[<-|[]]]; [exact (C x Hx Ox)|].
        apply S in H. destruct H as (y & Hy & My & Ey).
        assert (Oy : offered y = true).
        { unfold offered. rewrite My. simpl.
          unfold offered in Ox. apply andb_true_iff in Ox.
          rewrite Ey. exact (proj2 Ox). }
        destruct (C y Hy Oy) as (item & Hi & El). exists item.
        split; [exact Hi|rewrite El; exact Ey].
    + (* mangled *)
      split; [exact D|]. split; [|split].
      * intros n. rewrite add_In, S. split.
        -- intros [->|(x & Hx & R)];
             [exists sym; tauto|exists x; split; [exact (Old x Hx)|exact R]].
        -- intros (x & Hx & Mx & Ex). apply in_app_or in Hx.
           destruct Hx as [Hx|[<-|[]]]; [right; exists x; tauto|left; congruence].
      * intros item Hi. destruct (I item Hi) as (x & Hx & R).
        exists x. split; [exact (Old x Hx)|exact R].
      * intros x Hx Ox. apply in_app_or in Hx.
        destruct Hx as [Hx|[<-|[]]]; [exact (C x Hx Ox)|].
        unfold offered in Ox. rewrite U, andb_false_r in Ox. discriminate.
    + (* listed *)
      split; [|split; [|split]].
      * rewrite map_app. simpl. apply NoDup_app.
        -- exact D.
        -- constructor; [intros []|constructor].
        -- intros n Hn [<-|[]]. apply in_map_iff in Hn.
           destruct Hn as (item & El & Hi).
           destruct (I item Hi) as (x & Hx & Ox & ->).
           assert (In (simpleOf sym) seen).
           { apply S. exists x. split; [exact Hx|].
             unfold offered in Ox. apply andb_true_iff in Ox.
             destruct Ox as [Mx _]. apply negb_true_iff in Mx.
             split; [exact Mx|exact El]. }
           apply has_In in H0. congruence.
      * intros n. rewrite add_In, S. split.
        -- intros [->|(x & Hx & R)];
             [exists sym; tauto|exists x; split; [exact (Old x Hx)|exact R]].
        -- intros (x & Hx & Mx & Ex). apply in_app_or in Hx.
           destruct Hx as [Hx|[<-|[]]]; [right; exists x; tauto|left; congruence].
      * intros item Hi. apply in_app_or in Hi. destruct Hi as [Hi|[<-|[]]].
        -- destruct (I item Hi) as (x & Hx & R).
           exists x. split; [exact (Old x Hx)|exact R].
        -- exists sym. split; [exact New|]. split; [|reflexivity].
           unfold offered. rewrite M, U. reflexivity.
      * intros x Hx Ox. apply in_app_or in Hx. destruct Hx as [Hx|[<-|[]]].
        -- destruct (C x Hx Ox) as (item & Hi & El). exists item.
           split; [apply in_or_app; left; exact Hi|exact El].
        -- exists (symbolToCompletionItem sym).
           split; [apply in_or_app; right; left; reflexivity|reflexivity].
Qed.

(** The general list starts with the 28 keywords, the 16 builtin types
    and the 11 builtin functions, whatever is cached.  After them come
    items of symbols of the file: no two with the same label; each made
    of a symbol that is not a member of a type (or is a function) and
    whose simple name has no double underscore; and every such symbol of
    the file has an item with its simple name as label. *)
Theorem general_completion_items (s : SymbolCache) (filePath : string) :
  let fromSymbols := symbolItems (getSymbols s filePath) in
  provideGeneralCompletion s filePath
  = builtinItems ++ map OfSymbol fromSymbols
  /\ length builtinItems = 55
  /\ NoDup (map label fromSymbols)
  /\ (forall item, In item fromSymbols ->
        includesDoubleUnderscore (label item) = false
        /\ exists sym, In sym (getSymbols s filePath)
                       /\ isMember sym = false
                       /\ item = symbolToCompletionItem sym)
  /\ (forall sym, In sym (getSymbols s filePath) ->
        isMember sym = false ->
        includesDoubleUnderscore (JsString.simpleNameOf (name sym)) = false ->
        exists item, In item fromSymbols
                     /\ label item = JsString.simpleNameOf (name sym))
  /\ (JsMap.get filePath (cache s) = None ->
      provideGeneralCompletion s filePath = builtinItems).
Proof.
  intros fromSymbols.
  destruct (loop_keeps_looped (getSymbols s filePath)) as (D & _ & I & C).
  split; [reflexivity|]. split; [reflexivity|]. split; [exact D|].
  split; [|split].
  - intros item Hi. destruct (I item Hi) as (sym & Hs & Os & ->).
    unfold offered in Os. apply andb_true_iff in Os. destruct Os as [M U].
    apply negb_true_iff in M. apply negb_true_iff in U.
    split; [exact U|]. exists sym. repeat split; assumption.
  - intros sym Hs M U. apply (C sym Hs). unfold offered, simpleOf.
    rewrite M, U. reflexivity.
  - intros N. unfold provideGeneralCompletion, getSymbols. rewrite N.
    apply app_nil_r.
Qed.

End GeneralCompletionFacts.

(* ================================================================== *)
(** * The Variables panel of a debug session ([debugTracker.ts]) *)

(** A variable of a [variables] response; [payload] stands for the
    fields the tracker does not touch. *)
Record DebugVariable (A : Type) : Type := mkVariable {
  v_name : string;
  evaluateName : option string;
  payload : A
}.

Arguments mkVariable {A}.
Arguments v_name {A}.
Arguments evaluateName {A}.
Arguments payload {A}.

(** The fields of a message of the debug adapter that the tracker
    reads; [variables] is [body?.variables]. *)
Record DebugMessage (A : Type) : Type := mkMessage {
  msg_type : string;
  msg_command : string;
  msg_success : bool;
  variables : option (list (DebugVariable A))
}.

Arguments mkMessage {A}.
Arguments msg_type {A}.
Arguments msg_command {A}.
Arguments msg_success {A}.
Arguments variables {A}.

Module DebugTracker.

Definition isDigit (c : ascii) : bool :=
  let n := nat_of_ascii c in ((48 <=? n) && (n <=? 57))%nat.

(** [\d*] up to the end *)
Fixpoint allDigits (s : string) : bool :=
  match s with
  | EmptyString => true
  | String c rest => isDigit c && allDigits rest
  end.

(** [TEMP_RE = /^_t\d+$/] *)
Definition isTemporary (nm : string) : bool :=
  match nm with
  | String "_" (String "t" digits) =>
      negb (String.eqb digits "") && allDigits digits
  | _ => false
  end.

(** [INTERNAL_RE = /^__lang_rt_|^__clib__|^__LANG_RT_/] *)
Definition isInternal (nm : string) : bool :=
  String.prefix "__lang_rt_" nm || String.prefix "__clib__" nm
  || String.prefix "__LANG_RT_" nm.

(** [name.replace(/_\d*$/, '')]: the match starts at the first
    underscore that only digits follow. *)
Fixpoint stripMangleSuffix (nm : string) : string :=
  match nm with
  | EmptyString => EmptyString
  | String c rest =>
      if Ascii.eqb c "_" && allDigits rest then EmptyString
      else String c (stripMangleSuffix rest)
  end.

(** [!v.evaluateName] *)
Definition unset (e : option string) : bool :=
  match e with
  | None => true
  | Some text => negb (JsString.truthy text)
  end.

Definition keep {A : Type} (v : DebugVariable A) : bool :=
  negb (isTemporary (v_name v)) && negb (isInternal (v_name v)).

Definition demangle {A : Type} (v : DebugVariable A) : DebugVariable A :=
  if String.prefix "__" (v_name v) then v
  else
    let demangled := stripMangleSuffix (v_name v) in
    if JsString.truthy demangled && negb (String.eqb demangled (v_name v))
    then mkVariable demangled
                    (if unset (evaluateName v) then Some (v_name v)
                     else evaluateName v)
                    (payload v)
    else v.

Definition onDidSendMessage {A : Type} (message : DebugMessage A)
  : DebugMessage A :=
  match variables message with
  | Some vars =>
      if String.eqb (msg_type message) "response"
         && String.eqb (msg_command message) "variables"
         && msg_success message
      then mkMessage (msg_type message) (msg_command message)
                     (msg_success message)
                     (Some (map demangle (filter keep vars)))
      else message
  | None => message
  end.

End DebugTracker.

(** * Evaluating the hovered word ([debugEval.ts]) *)

(** A scope of the top frame as [findEvalName] meets it: whether the
    token is cancelled when the loop reaches it, and the variables of the
    response ([None] when the request fails or has none). *)
Record DebugScope (A : Type) : Type := mkScope {
  scopeName : string;
  cancelled : bool;
  scopeVariables : option (list (DebugVariable A))
}.

Arguments mkScope {A}.
Arguments scopeName {A}.
Arguments cancelled {A}.
Arguments scopeVariables {A}.

Module DebugEval.

Definition KEYWORDS : list string :=
  ["def"; "class"; "struct"; "interface"; "enum"; "if"; "elif"; "else";
   "while"; "for"; "in"; "return"; "break"; "continue"; "import"; "extern";
   "const"; "static"; "and"; "or"; "not"; "is"; "as"; "True"; "False";
   "None"; "end"; "self"; "range"; "print"; "format"; "len"; "append";
   "get"; "set"; "put"; "lookup"; "has"; "keys"].

(** [v.evaluateName || v.name] *)
Definition evalTarget {A : Type} (v : DebugVariable A) : string :=
  match evaluateName v with
  | Some text => JsString.or_else text (v_name v)
  | None => v_name v
  end.

(** The inner loop: the first variable shown under the name. *)
Fixpoint scanVariables {A : Type} (vars : list (DebugVariable A))
         (bismutName : string) : option string :=
  match vars with
  | [] => None
  | v :: rest =>
      if String.eqb (v_name v) bismutName then Some (evalTarget v)
      else scanVariables rest bismutName
  end.

Fixpoint scanScopes {A : Type} (scopes : list (DebugScope A))
         (bismutName : string) : option string :=
  match scopes with
  | [] => None
  | scope :: rest =>
      if cancelled scope then None
      else if String.eqb (scopeName scope) "Registers"
      then scanScopes rest bismutName
      else
        match scopeVariables scope with
        | None => scanScopes rest bismutName
        | Some vars =>
            match scanVariables vars bismutName with
            | Some target => Some target
            | None => scanScopes rest bismutName
            end
        end
  end.

(** [threads] and [frames] are the ids of the responses (empty when
    there is none), [scopes] the scopes of the first frame. *)
Definition findEvalName {A : Type} (threads frames : list Z)
           (scopes : option (list (DebugScope A))) (bismutName : string)
  : option string :=
  match threads, frames, scopes with
  | _ :: _, _ :: _, Some scs => scanScopes scs bismutName
  | _, _, _ => None
  end.

(** [word] is the identifier under the cursor and [charBefore] the
    character in front of it (empty at the start of the line). *)
Definition provideEvaluatableExpression {A : Type} (sessionActive : bool)
           (word : option string) (charBefore : string)
           (threads frames : list Z) (scopes : option (list (DebugScope A)))
  : option string :=
  if negb sessionActive then None
  else
    match word with
    | None => None
    | Some w =>
        if existsb (String.eqb w) KEYWORDS then None
        else if String.eqb charBefore "." then None
        else
          match findEvalName threads frames scopes w with
          | Some evalName =>
              if JsString.truthy evalName then Some evalName else None
          | None => None
          end
    end.

End DebugEval.

Module DebugFacts.
Import DebugTracker DebugEval.

Lemma allDigits_underscore (a b : string) :
  allDigits (String.append a (String "_" b)) = false.
Proof.
  induction a as [|c a IH]; simpl; [reflexivity|].
  rewrite IH. apply andb_false_r.
Qed.

(** The stripped name is the name, or the name without an underscore
    and the digits that end it. *)
Lemma strip_decomposition (nm : string) :
  stripMangleSuffix nm = nm
  \/ exists digits,
       allDigits digits = true
       /\ nm = String.append (stripMangleSuffix nm) (String "_" digits).
Proof.
  induction nm as [|c rest IH]; simpl; [left; reflexivity|].
  destruct (Ascii.eqb_spec c "_") as [->|N]; simpl.
  - destruct (allDigits rest) eqn:D.
    + right. exists rest. split; [exact D|reflexivity].
    + destruct IH as [E|(digits & Hd & E)].
      * left. rewrite E. reflexivity.
      * right. exists digits. split; [exact Hd|]. simpl. rewrite <- E.
        reflexivity.
  - destruct IH as [E|(digits & Hd & E)].
    + left. rewrite E. reflexivity.
    + right. exists digits. split; [exact Hd|]. simpl. rewrite <- E.
      reflexivity.
Qed.

Lemma strip_of_mangled (pre digits : string) :
  allDigits digits = true ->
  stripMangleSuffix (String.append pre (String "_" digits)) = pre.
Proof.
  intros D. induction pre as [|c pre IH]; simpl.
  - rewrite D. reflexivity.
  - rewrite allDigits_underscore, andb_false_r, IH. reflexivity.
Qed.

Lemma append_empty (a b : string) :
  String.append a b = EmptyString -> a = EmptyString.
Proof. destruct a; [reflexivity|discriminate]. Qed.

Lemma demangle_cases (A : Type) (v : DebugVariable A) :
  payload (demangle v) = payload v
  /\ (v_name (demangle v) = v_name v
      \/ exists digits,
           allDigits digits = true
           /\ v_name v
              = String.append (v_name (demangle v)) (String "_" digits)
           /\ v_name (demangle v) <> EmptyString)
  /\ (unset (evaluateName v) = true -> evalTarget (demangle v) = v_name v)
  /\ (unset (evaluateName v) = false ->
      evaluateName (demangle v) = evaluateName v).
Proof.
  assert (Same : unset (evaluateName v) = true -> evalTarget v = v_name v).
  { unfold unset, evalTarget. destruct (evaluateName v) as [[|c t]|];
      simpl; [reflexivity|discriminate|reflexivity]. }
  unfold demangle. destruct (String.prefix "__" (v_name v));
    [split; [reflexivity|split; [left; reflexivity|split; [exact Same|reflexivity]]]|].
  destruct (JsString.truthy (stripMangleSuffix (v_name v))
            && negb (String.eqb (stripMangleSuffix (v_name v)) (v_name v)))
    eqn:R;
    [|split; [reflexivity|split; [left; reflexivity|split; [exact Same|reflexivity]]]].
  apply andb_true_iff in R. destruct R as [T N].
  apply negb_true_iff, String.eqb_neq in N. simpl.
  split; [reflexivity|]. split; [|split].
  - right. destruct (strip_decomposition (v_name v)) as [E|(digits & D & E)];
      [contradiction|].
    exists digits. split; [exact D|]. split; [exact E|].
    intros Z. rewrite Z in T. discriminate.
  - intros U. rewrite U. unfold evalTarget. simpl. unfold JsString.or_else.
    destruct (v_name v) as [|c t] eqn:Nm; [|reflexivity].
    simpl in T. discriminate.
  - intros U. rewrite U. reflexivity.
Qed.

(** In a successful [variables] response the tracker drops the compiler
    temporaries and the runtime internals and shows every other variable
    once, in the order of the response, with its other fields as they
    were: under its name, or under the name without the underscore and
    digits that end it, never under an empty name.  A variable that
    carried no [evaluateName] still evaluates under the name the
    debugger gave it.  Any other message is left as it is. *)
Theorem tracker_demangles_variables
        (A : Type) (message : DebugMessage A)
        (vars : list (DebugVariable A)) (pre digits : string) :
  (variables message = Some vars ->
   msg_type message = "response" -> msg_command message = "variables" ->
   msg_success message = true ->
   variables (onDidSendMessage message)
   = Some (map demangle (filter keep vars))
   /\ forall shown,
        In shown (map demangle (filter keep vars)) ->
        exists v,
          In v vars /\ shown = demangle v
          /\ isTemporary (v_name v) = false /\ isInternal (v_name v) = false
          /\ payload shown = payload v
          /\ (v_name shown = v_name v
              \/ exists ds,
                   allDigits ds = true
                   /\ v_name v = String.append (v_name shown) (String "_" ds)
                   /\ v_name shown <> EmptyString)
          /\ (unset (evaluateName v) = true -> evalTarget shown = v_name v))
  /\ (allDigits digits = true ->
      stripMangleSuffix (String.append pre (String "_" digits)) = pre)
  /\ (String.eqb (msg_type message) "response"
      && String.eqb (msg_command message) "variables"
      && msg_success message = false ->
      onDidSendMessage message = message)
  /\ (variables message = None -> onDidSendMessage message = message).
Proof.
  split; [|split; [apply strip_of_mangled|split]].
  - intros V T C S. unfold onDidSendMessage. rewrite V, T, C, S. simpl.
    split; [reflexivity|].
    intros shown Hs. apply in_map_iff in Hs. destruct Hs as (v & <- & Hv).
    apply filter_In in Hv. destruct Hv as [Hv K].
    unfold keep in K. apply andb_true_iff in K. destruct K as [K1 K2].
    apply negb_true_iff in K1. apply negb_true_iff in K2.
    destruct (demangle_cases v) as (P & Nm & E & _).
    exists v. repeat split; assumption.
  - intros G. unfold onDidSendMessage. rewrite G.
    destruct (variables message); reflexivity.
  - intros V. unfold onDidSendMessage. rewrite V. reflexivity.
Qed.

Definition frameVariables : list (DebugVariable unit) :=
  [mkVariable "_t1" None tt; mkVariable "count_3" None tt;
   mkVariable "__lang_rt_heap" None tt; mkVariable "x_" None tt;
   mkVariable "self" None tt].

Lemma tracker_demangles_variables_witness :
  variables
    (onDidSendMessage (mkMessage "response" "variables" true
                                 (Some frameVariables)))
  = Some [mkVariable "count" (Some "count_3") tt;
          mkVariable "x" (Some "x_") tt; mkVariable "self" None tt]
  /\ stripMangleSuffix "a_1_2" = "a_1".
Proof.
  pose proof (@tracker_demangles_variables unit
                (mkMessage "response" "variables" true (Some frameVariables))
                frameVariables "a_1" "2") as (P & Q & _).
  split; [exact (proj1 (P eq_refl eq_refl eq_refl eq_refl))|exact (Q eq_refl)].
Defined.

(** The inner loop answers with the first variable shown under the
    name. *)
Lemma scanVariables_first (A : Type) (vars : list (DebugVariable A))
      (n target : string) :
  scanVariables vars n = Some target
  <-> exists pre v post,
        vars = pre ++ v :: post
        /\ (forall u, In u pre -> v_name u <> n)
        /\ v_name v = n /\ target = evalTarget v.
Proof.
  induction vars as [|v rest IH]; simpl.
  - split; [discriminate|]. intros (pre & u & post & E & _).
    destruct pre; discriminate E.
  - destruct (String.eqb_spec (v_name v) n) as [E|N].
    + split.
      * intros [= <-]. exists [], v, rest.
        split; [reflexivity|]. split; [intros u []|]. split; [exact E|reflexivity].
      * intros (pre & u & post & L & Hp & Hn & Ht).
        destruct pre as [|p pre]; simpl in L.
        -- injection L as <- _. rewrite Ht. reflexivity.
        -- injection L as <- _. exfalso.
           exact (Hp v (or_introl eq_refl) E).
    + rewrite IH. split.
      * intros (pre & u & post & L & Hp & Hn & Ht).
        exists (v :: pre), u, post. split; [rewrite L; reflexivity|].
        split; [|split; assumption].
        intros x [<-|Hx]; [exact N|exact (Hp x Hx)].
      * intros (pre & u & post & L & Hp & Hn & Ht).
        destruct pre as [|p pre]; simpl in L.
        -- injection L as -> _. contradiction.
        -- injection L as _ L. exists pre, u, post.
           split; [exact L|]. split; [|split; assumption].
           intros x Hx. apply Hp. right. exact Hx.
Qed.

Lemma scanVariables_none (A : Type) (vars : list (DebugVariable A))
      (n : string) :
  scanVariables vars n = None <-> forall u, In u vars -> v_name u <> n.
Proof.
  induction vars as [|v rest IH]; simpl.
  - split; [intros _ u []|reflexivity].
  - destruct (String.eqb_spec (v_name v) n) as [E|N].
    + split; [discriminate|]. intros H. exfalso.
      exact (H v (or_introl eq_refl) E).
    + rewrite IH. split.
      * intros H u [<-|Hu]; [exact N|exact (H u Hu)].
      * intros H u Hu. apply H. right. exact Hu.
Qed.

(** A scope the loop of [findEvalName] goes past: the token is not
    cancelled when the loop reaches it, and it is the scope of the
    registers, or its variables cannot be had, or none of them is shown
    under the name. *)
Definition passedOver (A : Type) (n : string) (scope : DebugScope A) : Prop :=
  cancelled scope = false
  /\ (scopeName scope = "Registers"
      \/ match scopeVariables scope with
         | None => True
         | Some vars => forall u, In u vars -> v_name u <> n
         end).

(** The scope that answers: the first that is neither cancelled nor
    passed over, with [v] its first variable shown under the name. *)
Definition answeredBy (A : Type) (n target : string)
           (scopes : list (DebugScope A)) : Prop :=
  exists earlier scope later pre v post,
    scopes = earlier ++ scope :: later
    /\ (forall e, In e earlier -> passedOver n e)
    /\ cancelled scope = false
    /\ scopeName scope <> "Registers"
    /\ scopeVariables scope = Some (pre ++ v :: post)
    /\ (forall u, In u pre -> v_name u <> n)
    /\ v_name v = n
    /\ target = evalTarget v.

Lemma answeredBy_later (A : Type) (n target : string)
      (scope : DebugScope A) (rest : list (DebugScope A)) :
  passedOver n scope -> answeredBy n target rest ->
  answeredBy n target (scope :: rest).
Proof.
  intros Hp (earlier & sc & later & pre & v & post & E & He & R).
  exists (scope :: earlier), sc, later, pre, v, post.
  split; [rewrite E; reflexivity|]. split; [|exact R].
  intros e [<-|Hin]; [exact Hp|exact (He e Hin)].
Qed.

Lemma scanScopes_first (A : Type) (scopes : list (DebugScope A))
      (n target : string) :
  scanScopes scopes n = Some target <-> answeredBy n target scopes.
Proof.
  induction scopes as [|scope rest IH]; simpl.
  - split; [discriminate|].
    intros (earlier & sc & later & pre & v & post & E & _).
    destruct earlier; discriminate E.
  - assert (Skip : passedOver n scope ->
                   (answeredBy n target (scope :: rest)
                    <-> answeredBy n target rest)).
    { intros Hp. split; [|apply answeredBy_later, Hp].
      intros (earlier & sc & later & pre & v & post & E & He
              & Hc & Hr & Hv & Hpre & Hn & Ht).
      destruct earlier as [|e earlier]; simpl in E.
      - injection E as <- _. exfalso.
        destruct Hp as [_ [Reg|Vars]]; [exact (Hr Reg)|].
        rewrite Hv in Vars.
        apply (Vars v); [apply in_or_app; right; left; reflexivity|exact Hn].
      - injection E as _ E. exists earlier, sc, later, pre, v, post.
        split; [exact E|]. split; [|repeat split; assumption].
        intros x Hx. apply He. right. exact Hx. }
    destruct (cancelled scope) eqn:C.
    { split; [discriminate|].
      intros (earlier & sc & later & pre & v & post & E & He & Hc & _).
      exfalso. destruct earlier as [|e earlier]; simpl in E.
      - injection E as <- _. congruence.
      - injection E as <- _.
        destruct (He scope (or_introl eq_refl)) as [Hc' _]. congruence. }
    destruct (String.eqb_spec (scopeName scope) "Registers") as [Reg|NotReg].
    { rewrite IH. symmetry. apply Skip. split; [exact C|left; exact Reg]. }
    destruct (scopeVariables scope) as [vars|] eqn:V.
    + destruct (scanVariables vars n) as [found|] eqn:Sv.
      * apply scanVariables_first in Sv.
        destruct Sv as (pre & v & post & L & Hpre & Hn & Ht).
        split.
        -- intros [= <-]. exists [], scope, rest, pre, v, post.
           split; [reflexivity|]. split; [intros e []|].
           rewrite V, L. repeat split; assumption.
        -- intros (earlier & sc & later & pre' & v' & post' & E & He
                   & Hc & Hr & Hv & Hpre' & Hn' & Ht').
           destruct earlier as [|e earlier]; simpl in E.
           ++ injection E as <- _. rewrite V in Hv. injection Hv as Hv.
              assert (Sv' : scanVariables vars n = Some target).
              { apply scanVariables_first. exists pre', v', post'.
                repeat split; assumption. }
              assert (Sv : scanVariables vars n = Some found).
              { apply scanVariables_first. exists pre, v, post.
                repeat split; assumption. }
              congruence.
           ++ injection E as <- _. exfalso.
              destruct (He scope (or_introl eq_refl)) as [_ [Reg|Vars]];
                [exact (NotReg Reg)|].
              rewrite V in Vars.
              apply (Vars v);
                [rewrite L; apply in_or_app; right; left; reflexivity
                |exact Hn].
      * rewrite IH. symmetry. apply Skip. split; [exact C|]. right.
        rewrite V. apply scanVariables_none, Sv.
    + rewrite IH. symmetry. apply Skip. split; [exact C|]. right.
      rewrite V. exact I.
Qed.

(** A scope whose variables came through the tracker: its [variables]
    response, when there is one, went through [onDidSendMessage]. *)
Definition tracked (A : Type) (scope : DebugScope A) : DebugScope A :=
  mkScope (scopeName scope) (cancelled scope)
          (match scopeVariables scope with
           | Some vars =>
               variables (onDidSendMessage
                            (mkMessage "response" "variables" true
                                       (Some vars)))
           | None => None
           end).

(** Hovering a word evaluates an expression exactly when a debug session
    is active, the word is no keyword and does not follow a dot, the
    debugger reports a thread and a frame, and some scope of the frame
    answers with a text that is not empty: the first scope, among those
    reached while the token is not cancelled, that is not the scope of
    the registers and has a variable shown under the word; the
    expression is the [evaluateName] of the first such variable, or its
    name.  When the variables of the scopes came through the tracker,
    that variable is one the debugger reported, neither a temporary nor
    an internal, that the tracker shows under the hovered word; and when
    the debugger gave it no [evaluateName], the expression is the name
    the debugger gave it. *)
Theorem hover_evaluates_debugger_name
        (A : Type) (scopes raw : list (DebugScope A)) (word target : string)
        (threads frames : list Z) (before : string) (active : bool) :
  (provideEvaluatableExpression active (Some word) before threads frames
                                (Some scopes) = Some target
   <-> active = true /\ ~ In word KEYWORDS /\ before <> "."
       /\ threads <> [] /\ frames <> [] /\ target <> EmptyString
       /\ answeredBy word target scopes)
  /\ (provideEvaluatableExpression active (Some word) before threads frames
                                  (Some (map (@tracked A) raw)) = Some target ->
      exists scope vars v,
        In scope raw /\ cancelled scope = false
        /\ scopeName scope <> "Registers"
        /\ scopeVariables scope = Some vars
        /\ In v vars
        /\ isTemporary (v_name v) = false /\ isInternal (v_name v) = false
        /\ v_name (demangle v) = word
        /\ target = evalTarget (demangle v)
        /\ (unset (evaluateName v) = true -> target = v_name v))
  /\ provideEvaluatableExpression active (Some word) before threads frames
                                  (@None (list (DebugScope A))) = None
  /\ provideEvaluatableExpression active (@None string) before threads frames
                                  (Some scopes) = None.
Proof.
  assert (Main : forall scs : list (DebugScope A),
             provideEvaluatableExpression active (Some word) before threads
                                          frames (Some scs) = Some target
             <-> active = true /\ ~ In word KEYWORDS /\ before <> "."
                 /\ threads <> [] /\ frames <> [] /\ target <> EmptyString
                 /\ answeredBy word target scs).
  { intros scs. unfold provideEvaluatableExpression, findEvalName.
    destruct active; cbn [negb];
      [|split; [discriminate|intros (F & _); discriminate F]].
    destruct (existsb (String.eqb word) KEYWORDS) eqn:K.
    { split; [discriminate|]. intros (_ & NK & _). exfalso. apply NK.
      apply existsb_exists in K. destruct K as (k & Hk & E).
      apply String.eqb_eq in E. subst k. exact Hk. }
    assert (NK : ~ In word KEYWORDS).
    { intros Hin.
      assert (X : existsb (String.eqb word) KEYWORDS = true).
      { apply existsb_exists. exists word.
        split; [exact Hin|apply String.eqb_refl]. }
      congruence. }
    destruct (String.eqb_spec before ".") as [D|ND].
    { split; [discriminate|]. intros (_ & _ & F & _). contradiction. }
    destruct threads as [|t ts].
    { split; [discriminate|]. intros (_ & _ & _ & F & _). contradiction. }
    destruct frames as [|fr frs].
    { split; [discriminate|]. intros (_ & _ & _ & _ & F & _). contradiction. }
    destruct (scanScopes scs word) as [found|] eqn:Sc.
    - apply scanScopes_first in Sc. split.
      + destruct found as [|c rest]; simpl; [discriminate|].
        intros [= <-]. repeat split; try assumption; discriminate.
      + intros (_ & _ & _ & _ & _ & Ne & Ans).
        apply scanScopes_first in Ans. apply scanScopes_first in Sc.
        assert (E : found = target) by congruence. subst found.
        destruct target as [|c rest]; [contradiction|reflexivity].
    - split; [discriminate|]. intros (_ & _ & _ & _ & _ & _ & Ans).
      apply scanScopes_first in Ans. congruence. }
  split; [exact (Main scopes)|]. split.
  { intros H. apply Main in H.
    destruct H as (_ & _ & _ & _ & _ & _ & Ans).
    destruct Ans as (earlier & sc & later & pre & shown & post & E & _
                     & Hc & Hr & Hv & _ & Hn & Ht).
    assert (Hin : In sc (map (@tracked A) raw))
      by (rewrite E; apply in_or_app; right; left; reflexivity).
    apply in_map_iff in Hin. destruct Hin as (scope & <- & Hscope).
    unfold tracked in Hc, Hr, Hv. simpl in Hc, Hr, Hv.
    destruct (scopeVariables scope) as [vars|] eqn:V; [|discriminate].
    simpl in Hv. injection Hv as Hv.
    assert (Hs : In shown (map demangle (filter keep vars)))
      by (rewrite Hv; apply in_or_app; right; left; reflexivity).
    apply in_map_iff in Hs. destruct Hs as (v & <- & Hvin).
    apply filter_In in Hvin. destruct Hvin as [Hvin K].
    unfold keep in K. apply andb_true_iff in K. destruct K as [K1 K2].
    apply negb_true_iff in K1. apply negb_true_iff in K2.
    exists scope, vars, v. repeat split; try assumption.
    intros U. rewrite Ht.
    exact (proj1 (proj2 (proj2 (demangle_cases v))) U). }
  split.
  - unfold provideEvaluatableExpression, findEvalName.
    destruct (negb active); [reflexivity|].
    destruct (existsb (String.eqb word) KEYWORDS); [reflexivity|].
    destruct (String.eqb before "."); [reflexivity|].
    destruct threads; [reflexivity|]. destruct frames; reflexivity.
  - unfold provideEvaluatableExpression.
    destruct (negb active); reflexivity.
Qed.

Definition frameScopes : list (DebugScope unit) :=
  [mkScope "Registers" false (Some [mkVariable "count" None tt]);
   mkScope "Locals" false (Some frameVariables);
   mkScope "Globals" false (Some [mkVariable "count_9" None tt])].

(** The registers hold a [count] and the globals a [count_9], the locals
    [count_3]: hovering [count] evaluates [count_3]; and a keyword is not
    evaluated. *)
Lemma hover_evaluates_debugger_name_witness :
  provideEvaluatableExpression
    true (Some "count") "" [1%Z] [7%Z] (Some (map (@tracked unit) frameScopes))
  = Some "count_3"
  /\ provideEvaluatableExpression
       true (Some "return") "" [1%Z] [7%Z]
       (Some (map (@tracked unit) frameScopes))
     <> Some "return".
Proof.
  pose proof (@hover_evaluates_debugger_name
                unit (map (@tracked unit) frameScopes) frameScopes
                "return" "return" [1%Z] [7%Z] "" true) as (P & _).
  split; [reflexivity|].
  intros H. apply P in H. destruct H as (_ & K & _). apply K.
  simpl. tauto.
Defined.

End DebugFacts.

(* ================================================================== *)
(** * The analyzer process ([analyzer.ts])

    [analyze] returns a promise that the handlers of the child process
    and a timer resolve; a promise keeps the first value it is resolved
    with.  [JSON.parse] and the blank test [!stdout.trim()] are taken as
    they come ([parseJson] gives [None] where [JSON.parse] throws); the
    lines written to the output channel are left out. *)

Inductive ProcessEvent : Type :=
| StdoutData (chunk : string)
| StderrData (chunk : string)
| ProcessError (message : string)
| ProcessClose
| TimedOut.

(** An invocation: what arrived on the two streams, whether the handlers
    are registered, the value of the promise once it is resolved, and
    whether [proc.kill()] was called. *)
Record Invocation : Type := mkInvocation {
  stdout : string;
  stderr : string;
  listening : bool;
  resolved : option (option AnalysisResult);
  killed : bool
}.

Module Analyzer.
Section Builtins.

Variable parseJson : string -> option AnalysisResult.
Variable isBlank : string -> bool.

(** [getBinaryPath] for the configured [compilerPath] *)
Definition getBinaryPath (configPath : string) : string :=
  JsString.or_else configPath "bismut".

(** The arguments [analyze] spawns the binary with. *)
Definition analyzeArgs (filePath compilerDir : string) : list string :=
  ["analyze"; filePath]
  ++ (if JsString.truthy compilerDir then ["--compiler-dir"; compilerDir]
      else []).

(** [resolve(value)] *)
Definition resolveWith (value : option AnalysisResult) (inv : Invocation)
  : Invocation :=
  match resolved inv with
  | Some _ => inv
  | None =>
      mkInvocation (stdout inv) (stderr inv) (listening inv) (Some value)
                   (killed inv)
  end.

(** The invocation right after [cp.spawn]: without a pid the promise is
    resolved with [null] and nothing is registered. *)
Definition spawned (hasPid : bool) : Invocation :=
  if hasPid then mkInvocation "" "" true None false
  else mkInvocation "" "" false (Some None) false.

Definition handle (inv : Invocation) (e : ProcessEvent) : Invocation :=
  if negb (listening inv) then inv
  else
    match e with
    | StdoutData chunk =>
        mkInvocation (String.append (stdout inv) chunk) (stderr inv)
                     (listening inv) (resolved inv) (killed inv)
    | StderrData chunk =>
        mkInvocation (stdout inv) (String.append (stderr inv) chunk)
                     (listening inv) (resolved inv) (killed inv)
    | ProcessError _ => resolveWith None inv
    | ProcessClose =>
        if isBlank (stdout inv) then resolveWith None inv
        else resolveWith (parseJson (stdout inv)) inv
    | TimedOut =>
        resolveWith None
                    (mkInvocation (stdout inv) (stderr inv) (listening inv)
                                  (resolved inv) true)
    end.

Definition handleAll (inv : Invocation) (es : list ProcessEvent)
  : Invocation :=
  fold_left handle es inv.

(** An event that resolves the promise when it is not resolved yet. *)
Definition settles (e : ProcessEvent) : bool :=
  match e with
  | ProcessError _ => true
  | ProcessClose => true
  | TimedOut => true
  | _ => false
  end.

(** What the standard output delivered, in order. *)
Definition delivered (es : list ProcessEvent) : string :=
  fold_left (fun out e => match e with
                          | StdoutData chunk => String.append out chunk
                          | _ => out
                          end) es "".

Definition withoutStderr (es : list ProcessEvent) : list ProcessEvent :=
  filter (fun e => match e with StderrData _ => false | _ => true end) es.

Lemma resolved_stays (es : list ProcessEvent) :
  forall inv value,
    resolved inv = Some value -> resolved (handleAll inv es) = Some value.
Proof.
  unfold handleAll. induction es as [|e rest IH]; intros inv value R; simpl;
    [exact R|].
  apply IH. unfold handle. destruct (negb (listening inv)); [exact R|].
  destruct e; simpl; unfold resolveWith; simpl.
  - exact R.
  - exact R.
  - rewrite R. exact R.
  - destruct (isBlank (stdout inv)); simpl; rewrite R; exact R.
  - rewrite R. reflexivity.
Qed.

Lemma unsettled_run (es : list ProcessEvent) :
  forall inv,
    listening inv = true -> resolved inv = None ->
    existsb settles es = false ->
    listening (handleAll inv es) = true
    /\ resolved (handleAll inv es) = None
    /\ stdout (handleAll inv es)
       = fold_left (fun out e => match e with
                                 | StdoutData chunk => String.append out chunk
                                 | _ => out
                                 end) es (stdout inv).
Proof.
  unfold handleAll. induction es as [|e rest IH]; intros inv L R N; simpl.
  - repeat split; assumption.
  - simpl in N. apply orb_false_iff in N. destruct N as [Ne Nr].
    destruct e as [chunk|chunk|m| |]; simpl in Ne; try discriminate.
    + assert (E : handle inv (StdoutData chunk)
                  = mkInvocation (String.append (stdout inv) chunk)
                                 (stderr inv) (listening inv) (resolved inv)
                                 (killed inv))
        by (unfold handle; rewrite L; reflexivity).
      rewrite E.
      exact (IH (mkInvocation (String.append (stdout inv) chunk)
                              (stderr inv) (listening inv) (resolved inv)
                              (killed inv)) L R Nr).
    + assert (E : handle inv (StderrData chunk)
                  = mkInvocation (stdout inv)
                                 (String.append (stderr inv) chunk)
                                 (listening inv) (resolved inv) (killed inv))
        by (unfold handle; rewrite L; reflexivity).
      rewrite E.
      exact (IH (mkInvocation (stdout inv)
                              (String.append (stderr inv) chunk)
                              (listening inv) (resolved inv) (killed inv))
                L R Nr).
Qed.

(** Two invocations that differ at most in what arrived on the standard
    error. *)
Definition sameButStderr (a b : Invocation) : Prop :=
  stdout a = stdout b /\ listening a = listening b
  /\ resolved a = resolved b /\ killed a = killed b.

Lemma handle_sameButStderr (a b : Invocation) (e : ProcessEvent) :
  sameButStderr a b -> sameButStderr (handle a e) (handle b e).
Proof.
  intros (O & L & R & K).
  destruct a as [oa ea la ra ka], b as [ob eb lb rb kb]. simpl in *. subst.
  unfold handle. simpl. destruct (negb lb); [repeat split|].
  destruct e; simpl; unfold resolveWith; simpl.
  - repeat split.
  - repeat split.
  - destruct rb; repeat split.
  - destruct (isBlank ob); destruct rb; repeat split.
  - destruct rb; repeat split.
Qed.

Lemma stderr_sameButStderr (a : Invocation) (chunk : string) :
  sameButStderr a (handle a (StderrData chunk)).
Proof.
  unfold handle. destruct (negb (listening a)); repeat split.
Qed.

Lemma withoutStderr_same (l : list ProcessEvent) :
  forall a b,
    sameButStderr a b ->
    sameButStderr (handleAll a (withoutStderr l)) (handleAll b l).
Proof.
  unfold handleAll. induction l as [|e rest IH]; intros a b S; [exact S|].
  destruct e; simpl; try (apply IH, handle_sameButStderr, S).
  apply IH. destruct S as (O & L & R & K).
  destruct (stderr_sameButStderr b chunk) as (O' & L' & R' & K').
  repeat split; congruence.
Qed.

(** The promise of [analyze] is resolved once: with [null] when the
    process has no pid, and else by the first error, close or timeout.
    Its value is a result only when that first event is the close, the
    output delivered until then is not blank and parses to that result.
    What arrives on the standard error does not matter, and a timeout
    that comes first makes the value [null] whatever the process still
    delivers. *)
Theorem analyze_resolves_once
        (es before after : list ProcessEvent) (result : AnalysisResult)
        (configPath : string) :
  resolved (handleAll (spawned false) es) = Some None
  /\ (resolved (handleAll (spawned true) es) = Some (Some result) ->
      exists quiet rest,
        es = quiet ++ ProcessClose :: rest
        /\ existsb settles quiet = false
        /\ isBlank (delivered quiet) = false
        /\ parseJson (delivered quiet) = Some result)
  /\ (existsb settles before = false ->
      resolved (handleAll (spawned true) (before ++ TimedOut :: after))
      = Some None
      /\ resolved (handleAll (spawned true) (before ++ ProcessClose :: after))
         = Some (if isBlank (delivered before) then None
                 else parseJson (delivered before)))
  /\ resolved (handleAll (spawned true) (withoutStderr es))
     = resolved (handleAll (spawned true) es)
  /\ getBinaryPath configPath <> "".
Proof.
  assert (First : forall quiet e rest,
             existsb settles quiet = false -> settles e = true ->
             resolved (handleAll (spawned true) (quiet ++ e :: rest))
             = Some match e with
                    | ProcessClose =>
                        if isBlank (delivered quiet) then None
                        else parseJson (delivered quiet)
                    | _ => None
                    end).
  { intros quiet e rest Q Se.
    destruct (@unsettled_run quiet (spawned true) eq_refl eq_refl Q)
      as (L & R & O).
    change (stdout (spawned true)) with EmptyString in O.
    fold (delivered quiet) in O.
    unfold handleAll in *. rewrite fold_left_app.
    remember (fold_left handle quiet (spawned true)) as inv eqn:Einv.
    change (fold_left handle (e :: rest) inv)
      with (handleAll (handle inv e) rest).
    apply resolved_stays. unfold handle. rewrite L. simpl.
    destruct e; simpl in Se; try discriminate; unfold resolveWith; simpl.
    - rewrite R. reflexivity.
    - rewrite O.
      destruct (isBlank (delivered quiet)); simpl; rewrite R; reflexivity.
    - rewrite R. reflexivity. }
  assert (Split : forall l : list ProcessEvent,
             existsb settles l = false
             \/ exists quiet e rest,
                  l = quiet ++ e :: rest /\ existsb settles quiet = false
                  /\ settles e = true).
  { induction l as [|e rest IH]; [left; reflexivity|].
    destruct (settles e) eqn:Se.
    - right. exists [], e, rest. repeat split. exact Se.
    - destruct IH as [N|(quiet & e' & rest' & -> & Q & Se')].
      + left. simpl. rewrite Se, N. reflexivity.
      + right. exists (e :: quiet), e', rest'. split; [reflexivity|].
        split; [simpl; rewrite Se; exact Q|exact Se']. }
  split; [|split; [|split; [|split]]].
  - apply resolved_stays. reflexivity.
  - intros R. destruct (Split es) as [N|(quiet & e & rest & -> & Q & Se)].
    + destruct (@unsettled_run es (spawned true) eq_refl eq_refl N)
        as (_ & R' & _). rewrite R' in R. discriminate.
    + rewrite (First quiet e rest Q Se) in R. injection R as R.
      destruct e; try discriminate.
      exists quiet, rest. split; [reflexivity|]. split; [exact Q|].
      destruct (isBlank (delivered quiet)); [discriminate|].
      split; [reflexivity|exact R].
  - intros Q. split; [exact (First before TimedOut after Q eq_refl)|].
    exact (First before ProcessClose after Q eq_refl).
  - apply (withoutStderr_same es). repeat split.
  - unfold getBinaryPath, JsString.or_else.
    destruct configPath; simpl; discriminate.
Qed.

End Builtins.
End Analyzer.

(* ================================================================== *)
(** * The outline of a document ([provideDocumentSymbols]) *)

(** [vscode.SymbolKind], and what [symbolKindMap[kind]] yields for a kind
    named like a member of [Object.prototype]. *)
Inductive SymbolKind : Type :=
| SkFunction | SkClass | SkStruct | SkInterface | SkEnum | SkMethod
| SkField | SkVariable | SkConstant | SkEnumMember
| SkInherited (member : string).

(** [vscode.DocumentSymbol(name, detail, kind, range, selectionRange)]
    and its [children]. *)
#[warnings="-register-all"]
Inductive DocumentSymbol : Type :=
| mkDocumentSymbol (ds_name ds_detail : string) (ds_kind : SymbolKind)
                   (ds_range ds_selectionRange : Range)
                   (ds_children : list DocumentSymbol).

Definition ds_children (d : DocumentSymbol) : list DocumentSymbol :=
  match d with
  | mkDocumentSymbol _ _ _ _ _ children => children
  end.

Definition ds_name (d : DocumentSymbol) : string :=
  match d with
  | mkDocumentSymbol nm _ _ _ _ _ => nm
  end.

Module Outline.
Import SymbolCacheOps.
Section CodeUnits.

(** [s.length], the number of code units of a string. *)
Variable codeUnits : string -> Z.

Definition symbolKindMap : JsMap.t SymbolKind :=
  [("function", SkFunction); ("class", SkClass); ("struct", SkStruct);
   ("interface", SkInterface); ("enum", SkEnum); ("method", SkMethod);
   ("method_sig", SkMethod); ("field", SkField); ("variable", SkVariable);
   ("constant", SkConstant); ("parameter", SkVariable);
   ("enum_variant", SkEnumMember)].

(** The entry [toDocumentSymbol] makes of a symbol with a line, without
    children.  The line and the column are not negative and a length is
    not either, so the editor's [Position] and [Range] take them as they
    are. *)
Definition entryOf (sym : BismutSymbol) : DocumentSymbol :=
  let simpleName := JsString.simpleNameOf (name sym) in
  let ln := (line sym - 1)%Z in
  let c := Z.max 0 (col sym - 1) in
  let range := mkRange ln c ln (c + codeUnits simpleName) in
  let k := match JsObject.get (kind sym) symbolKindMap with
           | JsObject.Own k => k
           | JsObject.Inherited member => SkInherited member
           | JsObject.Undefined => SkVariable
           end in
  mkDocumentSymbol simpleName (JsString.or_else (detail sym) "") k
                   range range [].

Definition toDocumentSymbol (sym : BismutSymbol) : option DocumentSymbol :=
  if (line sym <=? 0)%Z then None else Some (entryOf sym).

(** [parent.children.push(vsSymbol)] *)
Definition pushChild (child parent : DocumentSymbol) : DocumentSymbol :=
  match parent with
  | mkDocumentSymbol nm d k r sr children =>
      mkDocumentSymbol nm d k r sr (children ++ [child])
  end.

(** The object at position [i] of [topLevel] is changed in place; the
    array and the map both refer to it. *)
Fixpoint updateAt (i : nat) (f : DocumentSymbol -> DocumentSymbol)
         (l : list DocumentSymbol) : list DocumentSymbol :=
  match l, i with
  | [], _ => []
  | x :: rest, O => f x :: rest
  | x :: rest, S j => x :: updateAt j f rest
  end.

(** First pass: [(topLevel, topLevelMap)], the map holding for a name
    the position in [topLevel] of the object it refers to. *)
Definition firstPass (acc : list DocumentSymbol * JsMap.t nat)
           (sym : BismutSymbol) : list DocumentSymbol * JsMap.t nat :=
  if JsString.truthy (parent sym) then acc
  else
    match toDocumentSymbol sym with
    | Some vsSymbol =>
        (fst acc ++ [vsSymbol],
         JsMap.set (name sym) (length (fst acc)) (snd acc))
    | None => acc
    end.

Definition secondPass (topLevelMap : JsMap.t nat)
           (topLevel : list DocumentSymbol) (sym : BismutSymbol)
  : list DocumentSymbol :=
  if JsString.truthy (parent sym) then
    match JsMap.get (parent sym) topLevelMap with
    | Some i =>
        match toDocumentSymbol sym with
        | Some vsSymbol => updateAt i (pushChild vsSymbol) topLevel
        | None => topLevel
        end
    | None => topLevel
    end
  else topLevel.

Definition fileSymbolsOf (s : SymbolCache) (filePath : string)
  : list BismutSymbol :=
  filter (fun sym => String.eqb (file sym) filePath) (getSymbols s filePath).

Definition provideDocumentSymbols (s : SymbolCache) (filePath : string)
  : list DocumentSymbol :=
  let fileSymbols := fileSymbolsOf s filePath in
  let first := fold_left firstPass fileSymbols ([], []) in
  fold_left (secondPass (snd first)) fileSymbols (fst first).

(** *** What the two passes compute *)

Definition hasLine (sym : BismutSymbol) : bool := (0 <? line sym)%Z.

(** The symbols that become entries of the top level. *)
Definition isTop (sym : BismutSymbol) : bool :=
  negb (JsString.truthy (parent sym)) && hasLine sym.

(** The position of the last of [tops] named [nm], counting from [i];
    [found] when there is none. *)
Fixpoint lastNamed (nm : string) (tops : list BismutSymbol) (i : nat)
         (found : option nat) : option nat :=
  match tops with
  | [] => found
  | t :: rest =>
      lastNamed nm rest (S i)
                (if String.eqb (name t) nm then Some i else found)
  end.

(** The symbols that become children of the entry at position [i]. *)
Definition isChildOf (owners : JsMap.t nat) (i : nat) (sym : BismutSymbol)
  : bool :=
  JsString.truthy (parent sym) && hasLine sym
  && match JsMap.get (parent sym) owners with
     | Some j => Nat.eqb j i
     | None => false
     end.

Definition withChildren (d : DocumentSymbol) (more : list DocumentSymbol)
  : DocumentSymbol :=
  match d with
  | mkDocumentSymbol nm dt k r sr children =>
      mkDocumentSymbol nm dt k r sr (children ++ more)
  end.

Lemma toDocumentSymbol_hasLine (sym : BismutSymbol) :
  toDocumentSymbol sym = if hasLine sym then Some (entryOf sym) else None.
Proof.
  unfold toDocumentSymbol, hasLine.
  destruct (Z.leb_spec (line sym) 0), (Z.ltb_spec 0 (line sym));
    try reflexivity; lia.
Qed.

Lemma firstPass_result (syms : list BismutSymbol) :
  forall topLevel owners,
    fst (fold_left firstPass syms (topLevel, owners))
    = topLevel ++ map entryOf (filter isTop syms)
    /\ forall nm,
         JsMap.get nm (snd (fold_left firstPass syms (topLevel, owners)))
         = lastNamed nm (filter isTop syms) (length topLevel)
                     (JsMap.get nm owners).
Proof.
  induction syms as [|sym rest IH]; intros topLevel owners.
  - simpl. rewrite app_nil_r. split; reflexivity.
  - assert (E : firstPass (topLevel, owners) sym
                = if isTop sym
                  then (topLevel ++ [entryOf sym],
                        JsMap.set (name sym) (length topLevel) owners)
                  else (topLevel, owners)).
    { unfold firstPass, isTop. rewrite toDocumentSymbol_hasLine.
      destruct (JsString.truthy (parent sym)); simpl; [reflexivity|].
      destruct (hasLine sym); reflexivity. }
    change (fold_left firstPass (sym :: rest) (topLevel, owners))
      with (fold_left firstPass rest (firstPass (topLevel, owners) sym)).
    rewrite E. simpl filter. destruct (isTop sym); [|apply IH].
    destruct (IH (topLevel ++ [entryOf sym])
                 (JsMap.set (name sym) (length topLevel) owners)) as [A B].
    split.
    + rewrite A, <- app_assoc. reflexivity.
    + intros nm. rewrite B, length_app. simpl. rewrite Nat.add_1_r.
      f_equal. destruct (String.eqb_spec (name sym) nm) as [->|N].
      * apply JsMapFacts.get_set_same.
      * apply JsMapFacts.get_set_other, String.eqb_neq, N.
Qed.

Lemma nth_updateAt (f : DocumentSymbol -> DocumentSymbol)
      (l : list DocumentSymbol) :
  forall i j,
    nth_error (updateAt i f l) j
    = if Nat.eqb i j then option_map f (nth_error l j) else nth_error l j.
Proof.
  induction l as [|x rest IH]; intros i j.
  - destruct i as [|i], j as [|j]; simpl; try reflexivity.
    destruct (Nat.eqb i j); reflexivity.
  - destruct i as [|i], j as [|j]; simpl; try reflexivity. apply IH.
Qed.

Lemma withChildren_nil (d : DocumentSymbol) : withChildren d [] = d.
Proof. destruct d. simpl. rewrite app_nil_r. reflexivity. Qed.

Lemma withChildren_push (d child : DocumentSymbol)
      (more : list DocumentSymbol) :
  withChildren (pushChild child d) more = withChildren d (child :: more).
Proof. destruct d. simpl. rewrite <- app_assoc. reflexivity. Qed.

Lemma secondPass_result (owners : JsMap.t nat) (syms : list BismutSymbol) :
  forall topLevel i,
    nth_error (fold_left (secondPass owners) syms topLevel) i
    = option_map
        (fun d => withChildren d (map entryOf (filter (isChildOf owners i) syms)))
        (nth_error topLevel i).
Proof.
  induction syms as [|sym rest IH]; intros topLevel i; simpl.
  - destruct (nth_error topLevel i) as [d|]; simpl;
      [rewrite withChildren_nil|]; reflexivity.
  - rewrite IH. unfold secondPass at 1, isChildOf at 2.
    rewrite toDocumentSymbol_hasLine.
    destruct (JsString.truthy (parent sym)); simpl; [|reflexivity].
    destruct (JsMap.get (parent sym) owners) as [j|]; simpl;
      [|rewrite andb_false_r; reflexivity].
    destruct (hasLine sym); simpl; [|reflexivity].
    rewrite nth_updateAt. destruct (Nat.eqb j i); [|reflexivity].
    destruct (nth_error topLevel i) as [d|]; simpl; [|reflexivity].
    rewrite withChildren_push. reflexivity.
Qed.

Lemma lastNamed_meaning (nm : string) (tops : list BismutSymbol) :
  forall i found,
    match lastNamed nm tops i found with
    | None =>
        found = None /\ forall t, In t tops -> name t <> nm
    | Some p =>
        (Some p = found /\ forall t, In t tops -> name t <> nm)
        \/ exists before t after,
             tops = before ++ t :: after /\ p = i + length before
             /\ name t = nm /\ forall u, In u after -> name u <> nm
    end.
Proof.
  induction tops as [|t rest IH]; intros i found; simpl.
  - destruct found; [left|]; split; try reflexivity; intros t [].
  - specialize (IH (S i) (if String.eqb (name t) nm then Some i else found)).
    destruct (lastNamed nm rest (S i)
                        (if String.eqb (name t) nm then Some i else found))
      as [p|].
    + destruct IH as [[E F]|(before & u & after & -> & Ep & En & F)].
      * destruct (String.eqb_spec (name t) nm) as [Et|Nt].
        -- right. exists [], t, rest. injection E as ->.
           split; [reflexivity|]. split; [simpl; lia|]. split; assumption.
        -- left. split; [exact E|]. intros x [<-|Hx]; [exact Nt|exact (F x Hx)].
      * right. exists (t :: before), u, after.
        split; [reflexivity|]. split; [simpl; lia|]. split; assumption.
    + destruct IH as [E F].
      destruct (String.eqb_spec (name t) nm) as [Et|Nt]; [discriminate|].
      split; [exact E|]. intros x [<-|Hx]; [exact Nt|exact (F x Hx)].
Qed.

(** For a file whose symbols all have a simple name (the editor's
    [DocumentSymbol] refuses an empty one): the outline has one entry for
    every symbol of the file without a parent and with a line, in their
    order.  The children of the entry at
    position [i] are the symbols of the file with a line whose parent is
    the name of the symbol at position [i], provided no later top-level
    symbol has that name, and a symbol whose parent names no top-level
    symbol is in nobody's list.  Children have no children. *)
Theorem outline_groups_members_under_parents
        (s : SymbolCache) (filePath : string) (i : nat)
        (member : BismutSymbol)
        (Named : forall sym, In sym (getSymbols s filePath) ->
                             JsString.simpleNameOf (name sym) <> "") :
  let fileSymbols := fileSymbolsOf s filePath in
  let tops := filter isTop fileSymbols in
  let owner := fun sym => lastNamed (parent sym) tops 0 None in
  let childrenAt := fun i =>
    filter (fun sym => JsString.truthy (parent sym) && hasLine sym
                       && match owner sym with
                          | Some j => Nat.eqb j i
                          | None => false
                          end) fileSymbols in
  nth_error (provideDocumentSymbols s filePath) i
  = option_map (fun top => withChildren (entryOf top)
                                        (map entryOf (childrenAt i)))
               (nth_error tops i)
  /\ length (provideDocumentSymbols s filePath) = length tops
  /\ (forall j, owner member = Some j ->
        exists before top after,
          tops = before ++ top :: after /\ j = length before
          /\ name top = parent member
          /\ forall later, In later after -> name later <> parent member)
  /\ (owner member = None ->
      forall top, In top tops -> name top <> parent member)
  /\ (forall entry child,
        nth_error (provideDocumentSymbols s filePath) i = Some entry ->
        In child (ds_children entry) -> ds_children child = []).
Proof.
  intros fileSymbols tops owner childrenAt.
  assert (F : fst (fold_left firstPass fileSymbols ([], []))
              = map entryOf tops)
    by exact (proj1 (firstPass_result fileSymbols [] [])).
  assert (O : forall nm,
             JsMap.get nm (snd (fold_left firstPass fileSymbols ([], [])))
             = lastNamed nm tops 0 None)
    by exact (proj2 (firstPass_result fileSymbols [] [])).
  assert (Same : forall k,
             filter (isChildOf
                       (snd (fold_left firstPass fileSymbols ([], []))) k)
                    fileSymbols
             = childrenAt k).
  { intros k. unfold childrenAt. apply filter_ext. intros sym.
    unfold isChildOf, owner. rewrite O. reflexivity. }
  assert (Nth : forall k,
             nth_error (provideDocumentSymbols s filePath) k
             = option_map (fun top => withChildren (entryOf top)
                                                   (map entryOf (childrenAt k)))
                          (nth_error tops k)).
  { intros k.
    change (provideDocumentSymbols s filePath)
      with (fold_left
              (secondPass (snd (fold_left firstPass fileSymbols ([], []))))
              fileSymbols (fst (fold_left firstPass fileSymbols ([], [])))).
    rewrite secondPass_result, F, Same, nth_error_map.
    destruct (nth_error tops k); reflexivity. }
  split; [apply Nth|]. split; [|split; [|split]].
  - assert (L : forall k, nth_error (provideDocumentSymbols s filePath) k = None
                          <-> nth_error tops k = None).
    { intros k. rewrite Nth. destruct (nth_error tops k); simpl;
        split; congruence. }
    destruct (Nat.lt_trichotomy
                (length (provideDocumentSymbols s filePath)) (length tops))
      as [Lt|[E|Gt]]; [|exact E|].
    + exfalso.
      assert (X : nth_error tops
                            (length (provideDocumentSymbols s filePath)) = None)
        by (apply L, nth_error_None; lia).
      apply nth_error_None in X. lia.
    + exfalso.
      assert (X : nth_error (provideDocumentSymbols s filePath) (length tops)
                  = None)
        by (apply L, nth_error_None; lia).
      apply nth_error_None in X. lia.
  - intros j Ej. pose proof (lastNamed_meaning (parent member) tops 0 None) as M.
    unfold owner in Ej. rewrite Ej in M.
    destruct M as [[E _]|(before & t & after & Et & Ep & En & Fa)];
      [discriminate|].
    exists before, t, after. repeat split; assumption.
  - intros En. pose proof (lastNamed_meaning (parent member) tops 0 None) as M.
    unfold owner in En. rewrite En in M. exact (proj2 M).
  - intros entry child Hn Hc. rewrite Nth in Hn.
    destruct (nth_error tops i) as [top|]; [|discriminate].
    injection Hn as <-. simpl in Hc. apply in_map_iff in Hc.
    destruct Hc as (sym & <- & _). reflexivity.
Qed.

End CodeUnits.

Definition shapes : AnalysisResult :=
  mkResult true "/w/a.mut" 0 0 []
    [mkSymbol "Point" "struct" "/w/a.mut" 1 8 "" "" "";
     mkSymbol "Point.x" "field" "/w/a.mut" 2 5 "" "i64" "Point";
     mkSymbol "Gone.y" "field" "/w/a.mut" 3 5 "" "i64" "Gone";
     mkSymbol "print" "function" "" 0 0 "" "" "";
     mkSymbol "main" "function" "/w/a.mut" 9 5 "" "()" ""].

(** A struct with a field, a field of a type the file does not declare,
    and a function: the outline has the struct with its field, and the
    function. *)
Lemma outline_groups_members_under_parents_witness :
  map ds_name
      (provideDocumentSymbols (fun nm => Z.of_nat (String.length nm))
                              (ingest newSymbolCache "/w/a.mut" shapes)
                              "/w/a.mut")
  = ["Point"; "main"]
  /\ length (provideDocumentSymbols (fun nm => Z.of_nat (String.length nm))
                                    (ingest newSymbolCache "/w/a.mut" shapes)
                                    "/w/a.mut") = 2.
Proof.
  pose proof (@outline_groups_members_under_parents
                (fun nm => Z.of_nat (String.length nm))
                (ingest newSymbolCache "/w/a.mut" shapes) "/w/a.mut" 0
                (mkSymbol "Gone.y" "field" "/w/a.mut" 3 5 "" "i64" "Gone"))
    as P.
  assert (Named : forall sym,
             In sym (getSymbols (ingest newSymbolCache "/w/a.mut" shapes)
                                "/w/a.mut") ->
             JsString.simpleNameOf (name sym) <> "").
  { intros sym H. simpl in H.
    repeat (destruct H as [<-|H]; [vm_compute; discriminate|]).
    contradiction. }
  destruct (P Named) as (_ & L & _).
  split; [reflexivity|exact L].
Defined.

End Outline.
